(** * zane-ops/cdn: the anonymised ping pipeline of the Cloudflare worker

    A shallow embedding of [src/index.ts] (the current revision of the worker,
    the first of the revisions kept in that file) and the properties of its
    identity hasher, visitor registry, ping throttle and aggregation
    endpoints.

    Conventions of the embedding.
    - A JavaScript string is a Rocq [string] holding the UTF-8 encoding of its
      text.  Every string the worker receives (header values, URL search
      parameters, the configured pepper) is well-formed Unicode, so
      [TextEncoder.encode] is the passage from the string to its bytes.
    - A JavaScript number that holds an integer is a [Z]; [NaN] is the [None]
      of an [option Z].  The worker's quotients are exact rationals ([Q]).
      IEEE doubles agree with this on integers below [2^53].
    - An instant is a time value: milliseconds since the epoch, as [Z].
    - The D1 database is an explicit state ([db]) threaded through the
      handlers by a small state monad. *)

From Stdlib Require Import ZArith NArith QArith Qround Lia List Bool.
From Stdlib Require Import String Ascii HexadecimalString DecimalString.
From Stdlib Require Import Strings.Byte.
From Stdlib Require Import Sorting.Sorted Sorting.Permutation.
From Stdlib Require DecimalN.
Import ListNotations.

Local Open Scope string_scope.
Local Open Scope Z_scope.

(* ------------------------------------------------------------------ *)
(** * The JavaScript runtime the worker relies on                      *)
(* ------------------------------------------------------------------ *)

Module JS.

(** [new TextEncoder().encode(s)]: the UTF-8 bytes of [s]. *)
Definition TextEncoder_encode (s : string) : list byte :=
  list_byte_of_string s.

(** [b.toString(16)] for a non-negative integer: lowercase hexadecimal
    digits without leading zeros, ["0"] for zero. *)
Definition toString16 (b : N) : string :=
  HexadecimalString.NilZero.string_of_uint (N.to_hex_uint b).

(** [fill.repeat]-then-truncate of [String.prototype.padStart]: the first
    [n] characters of [fill] repeated for ever. *)
Fixpoint repeatFill (fill cur : string) (n : nat) : string :=
  match n with
  | O => EmptyString
  | S n' =>
      match cur with
      | String c rest => String c (repeatFill fill rest n')
      | EmptyString =>
          match fill with
          | String c rest => String c (repeatFill fill rest n')
          | EmptyString => EmptyString
          end
      end
  end.

(** [s.padStart(maxLength, fillString)].  Lengths are counted in characters,
    which is the UTF-16 length on the ASCII text it is used on. *)
Definition padStart (s : string) (maxLength : nat) (fillString : string) : string :=
  let len := String.length s in
  if (maxLength <=? len)%nat then s
  else match fillString with
       | EmptyString => s
       | _ => repeatFill fillString fillString (maxLength - len) ++ s
       end.

(** [parts.join("")]. *)
Definition join_empty (parts : list string) : string :=
  String.concat "" parts.

(** ASCII upper-casing of one character. *)
Definition upcase (c : ascii) : ascii :=
  let n := nat_of_ascii c in
  if andb (97 <=? n)%nat (n <=? 122)%nat then ascii_of_nat (n - 32) else c.

(** [s.toUpperCase()] on ASCII text (the worker applies it to an allow-listed
    keyword only); bytes outside [a-z] are left as they are. *)
Fixpoint toUpperCase (s : string) : string :=
  match s with
  | EmptyString => EmptyString
  | String c rest => String (upcase c) (toUpperCase rest)
  end.

(** Truthiness of a possibly-null string: [null] and [""] are falsy. *)
Definition truthy (v : option string) : bool :=
  match v with
  | None => false
  | Some EmptyString => false
  | Some _ => true
  end.

(** [arr.includes(v)] on an array of strings. *)
Fixpoint includes (arr : list string) (v : string) : bool :=
  match arr with
  | [] => false
  | x :: rest => if String.eqb x v then true else includes rest v
  end.

(** Code of a byte of the text. *)
Definition code (c : ascii) : N := N_of_ascii c.

(** [StrWhiteSpaceChar] (white space and line terminators) of one byte:
    TAB, LF, VT, FF, CR and SP. *)
Definition isWhiteSpace1 (c : ascii) : bool :=
  let n := code c in
  (orb (andb (9 <=? n) (n <=? 13)) (n =? 32))%N.

(** ... of two bytes: U+00A0. *)
Definition isWhiteSpace2 (c1 c2 : ascii) : bool :=
  (andb (code c1 =? 0xC2) (code c2 =? 0xA0))%N.

(** ... of three bytes: U+1680, U+2000 to U+200A, U+2028, U+2029, U+202F,
    U+205F, U+3000 and U+FEFF. *)
Definition isWhiteSpace3 (c1 c2 c3 : ascii) : bool :=
  let '(a, b, c) := (code c1, code c2, code c3) in
  (orb (andb (a =? 0xE1) (andb (b =? 0x9A) (c =? 0x80)))
  (orb (andb (a =? 0xE2) (andb (b =? 0x80)
          (orb (andb (0x80 <=? c) (c <=? 0x8A))
          (orb (c =? 0xA8) (orb (c =? 0xA9) (c =? 0xAF))))))
  (orb (andb (a =? 0xE2) (andb (b =? 0x81) (c =? 0x9F)))
  (orb (andb (a =? 0xE3) (andb (b =? 0x80) (c =? 0x80)))
       (andb (a =? 0xEF) (andb (b =? 0xBB) (c =? 0xBF)))))))%N.

(** [TrimString(s, start)]: drop the leading white space. *)
Fixpoint trimStart (s : string) : string :=
  match s with
  | EmptyString => s
  | String c1 r1 =>
      if isWhiteSpace1 c1 then trimStart r1
      else match r1 with
           | EmptyString => s
           | String c2 r2 =>
               if isWhiteSpace2 c1 c2 then trimStart r2
               else match r2 with
                    | EmptyString => s
                    | String c3 r3 =>
                        if isWhiteSpace3 c1 c2 c3 then trimStart r3 else s
                    end
           end
  end.

Definition isDigit (c : ascii) : bool := (andb (48 <=? code c) (code c <=? 57))%N.

(** Value of the longest prefix of decimal digits; [acc] is the value read
    so far, [None] before the first digit. *)
Fixpoint digitsValue (s : string) (acc : option Z) : option Z :=
  match s with
  | EmptyString => acc
  | String c rest =>
      if isDigit c
      then digitsValue rest
             (Some (10 * match acc with Some a => a | None => 0 end
                    + (Z.of_N (code c) - 48)))
      else acc
  end.

(** [parseInt(s, 10)]: leading white space, an optional sign, then the
    longest run of decimal digits; [None] is [NaN].  The result [-0] is the
    integer zero.  The value is the integer that the digits spell; the number
    that the runtime returns is the double nearest to it ([Double.parseInt]
    below), which is that integer up to [2 ^ 53]. *)
Definition parseInt (s : string) : option Z :=
  let str := trimStart s in
  let '(sign, str) :=
    match str with
    | String c rest =>
        if (code c =? 45)%N then (-1, rest)
        else if (code c =? 43)%N then (1, rest)
        else (1, str)
    | EmptyString => (1, str)
    end in
  option_map (Z.mul sign) (digitsValue str None).

(** The value of a string that is truthy: not [null], not empty. *)
Definition whenTruthy (v : option string) : option string :=
  if truthy v then v else None.

(** A value interpolated in a template literal; [undefined] prints as its
    name. *)
Definition interpolate (v : option string) : string :=
  match v with
  | Some s => s
  | None => "undefined"
  end.

Definition LF : string := String (ascii_of_nat 10) EmptyString.
Definition TAB : string := String (ascii_of_nat 9) EmptyString.

Fixpoint tabs (n : nat) : string :=
  match n with
  | O => EmptyString
  | S n' => TAB ++ tabs n'
  end.

(** A line of a template literal: the line break that precedes it, its
    indentation and its text. *)
Definition line (indent : nat) (text : string) : string :=
  LF ++ tabs indent ++ text.

End JS.

(* ------------------------------------------------------------------ *)
(** * WebCrypto: SHA-256 (FIPS 180-4) and HMAC (RFC 2104)              *)
(* ------------------------------------------------------------------ *)

Module Crypto.

Definition wordmask : Z := 0xFFFFFFFF.

(** Addition of 32-bit words, wrapping around. *)
Definition add32 (x y : Z) : Z := Z.land (x + y) wordmask.

Definition ROTR (n x : Z) : Z :=
  Z.lor (Z.shiftr x n) (Z.land (Z.shiftl x (32 - n)) wordmask).
Definition SHR (n x : Z) : Z := Z.shiftr x n.
Definition not32 (x : Z) : Z := Z.lxor x wordmask.

Definition Ch (x y z : Z) : Z := Z.lxor (Z.land x y) (Z.land (not32 x) z).
Definition Maj (x y z : Z) : Z :=
  Z.lxor (Z.lxor (Z.land x y) (Z.land x z)) (Z.land y z).
Definition bigSigma0 (x : Z) : Z := Z.lxor (Z.lxor (ROTR 2 x) (ROTR 13 x)) (ROTR 22 x).
Definition bigSigma1 (x : Z) : Z := Z.lxor (Z.lxor (ROTR 6 x) (ROTR 11 x)) (ROTR 25 x).
Definition smallSigma0 (x : Z) : Z := Z.lxor (Z.lxor (ROTR 7 x) (ROTR 18 x)) (SHR 3 x).
Definition smallSigma1 (x : Z) : Z := Z.lxor (Z.lxor (ROTR 17 x) (ROTR 19 x)) (SHR 10 x).

(** The first sixty-four primes. *)
Definition primes64 : list Z :=
  [2; 3; 5; 7; 11; 13; 17; 19; 23; 29; 31; 37; 41; 43; 47; 53; 59; 61; 67; 71; 73; 79;
   83; 89; 97; 101; 103; 107; 109; 113; 127; 131; 137; 139; 149; 151; 157; 163; 167;
   173; 179; 181; 191; 193; 197; 199; 211; 223; 227; 229; 233; 239; 241; 251; 257; 263;
   269; 271; 277; 281; 283; 293; 307; 311].

(** The integer cube root of [n] below [2^bits], one bit at a time from the
    top. *)
Fixpoint cbrt_bits (bits : nat) (n r : Z) : Z :=
  match bits with
  | O => r
  | S b =>
      let r' := r + Z.shiftl 1 (Z.of_nat b) in
      cbrt_bits b n (if r' * r' * r' <=? n then r' else r)
  end.

(** Section 4.2.2: the first thirty-two bits of the fractional parts of the
    cube roots of the first sixty-four primes. *)
Definition K256 : list Z :=
  map (fun p => Z.land (cbrt_bits 36 (Z.shiftl p 96) 0) wordmask) primes64.

(** The eight words of a hash value, and of the working variables. *)
Record state8 : Set := S8 { sa : Z; sb : Z; sc : Z; sd : Z; se : Z; sf : Z; sg : Z; sh : Z }.

(** The first thirty-two bits of the fractional part of the square root of
    [p]. *)
Definition sqrt_frac32 (p : Z) : Z := Z.land (Z.sqrt (Z.shiftl p 64)) wordmask.

(** Section 5.3.3: the initial hash value, from the square roots of the
    first eight primes. *)
Definition H256_init : state8 :=
  S8 (sqrt_frac32 2) (sqrt_frac32 3) (sqrt_frac32 5) (sqrt_frac32 7)
     (sqrt_frac32 11) (sqrt_frac32 13) (sqrt_frac32 17) (sqrt_frac32 19).

Definition byteZ (b : byte) : Z := Z.of_N (Byte.to_N b).

Definition Zbyte (z : Z) : byte :=
  match Byte.of_N (Z.to_N (Z.land z 0xFF)) with
  | Some b => b
  | None => x00
  end.

(** Big-endian encoding of [z] on [n] bytes. *)
Fixpoint be_bytes (n : nat) (z : Z) : list byte :=
  match n with
  | O => []
  | S n' => Zbyte (Z.shiftr z (8 * Z.of_nat n')) :: be_bytes n' z
  end.

(** Big-endian value of a byte string. *)
Definition be_value (bs : list byte) : Z :=
  fold_left (fun acc b => Z.lor (Z.shiftl acc 8) (byteZ b)) bs 0.

(** Section 5.1.1: the message, the bit 1, zero bits up to 56 mod 64 bytes,
    and the bit length on 64 bits. *)
Definition pad (msg : list byte) : list byte :=
  let len := Z.of_nat (List.length msg) in
  let zeros := Z.to_nat ((55 - len) mod 64) in
  msg ++ x80 :: repeat x00 zeros ++ be_bytes 8 (8 * len).

(** Cut a byte string into [n] pieces of [size] bytes. *)
Fixpoint chunks (size n : nat) (bs : list byte) : list (list byte) :=
  match n with
  | O => []
  | S n' => firstn size bs :: chunks size n' (skipn size bs)
  end.

(** Section 5.2.1: the sixteen words of a 64-byte block. *)
Definition block_words (blk : list byte) : list Z :=
  map be_value (chunks 4 16 blk).

(** Section 6.2.2, step 1: extend the schedule by [n] words; [W] holds the
    words computed so far, oldest first. *)
Fixpoint extend_schedule (n : nat) (W : list Z) : list Z :=
  match n with
  | O => W
  | S n' =>
      let t := List.length W in
      let wt := add32 (add32 (add32 (smallSigma1 (nth (t - 2) W 0)) (nth (t - 7) W 0))
                             (smallSigma0 (nth (t - 15) W 0)))
                      (nth (t - 16) W 0) in
      extend_schedule n' (W ++ [wt])
  end.

Definition schedule (blk : list byte) : list Z :=
  extend_schedule 48 (block_words blk).

(** Section 6.2.2, step 3: one round. *)
Definition round (s : state8) (kw : Z * Z) : state8 :=
  let '(k, w) := kw in
  let T1 := add32 (add32 (add32 (add32 (sh s) (bigSigma1 (se s))) (Ch (se s) (sf s) (sg s))) k) w in
  let T2 := add32 (bigSigma0 (sa s)) (Maj (sa s) (sb s) (sc s)) in
  S8 (add32 T1 T2) (sa s) (sb s) (sc s) (add32 (sd s) T1) (se s) (sf s) (sg s).

(** Section 6.2.2, steps 2 to 4: the compression of one block. *)
Definition compress (H : state8) (blk : list byte) : state8 :=
  let s := fold_left round (combine K256 (schedule blk)) H in
  S8 (add32 (sa H) (sa s)) (add32 (sb H) (sb s)) (add32 (sc H) (sc s))
     (add32 (sd H) (sd s)) (add32 (se H) (se s)) (add32 (sf H) (sf s))
     (add32 (sg H) (sg s)) (add32 (sh H) (sh s)).

Definition state_bytes (s : state8) : list byte :=
  be_bytes 4 (sa s) ++ be_bytes 4 (sb s) ++ be_bytes 4 (sc s) ++ be_bytes 4 (sd s) ++
  be_bytes 4 (se s) ++ be_bytes 4 (sf s) ++ be_bytes 4 (sg s) ++ be_bytes 4 (sh s).

(** [crypto.subtle.digest("SHA-256", msg)]. *)
Definition SHA256 (msg : list byte) : list byte :=
  let padded := pad msg in
  let blocks := chunks 64 (List.length padded / 64) padded in
  state_bytes (fold_left compress blocks H256_init).

Definition xor_byte (c : Z) (b : byte) : byte := Zbyte (Z.lxor (byteZ b) c).

(** RFC 2104: a key longer than the block is hashed, then zero-padded to the
    block size of 64 bytes. *)
Definition hmac_key_block (key : list byte) : list byte :=
  let k := if (64 <? List.length key)%nat then SHA256 key else key in
  k ++ repeat x00 (64 - List.length k).

(** [crypto.subtle.sign("HMAC", importKey(key, {hash: "SHA-256"}), msg)]. *)
Definition HMAC_SHA256 (key msg : list byte) : list byte :=
  let k0 := hmac_key_block key in
  SHA256 (map (xor_byte 0x5c) k0 ++ SHA256 (map (xor_byte 0x36) k0 ++ msg)).

End Crypto.

(* ------------------------------------------------------------------ *)
(** * The identity hasher                                              *)
(* ------------------------------------------------------------------ *)

(** [hashArray.map((b) => b.toString(16).padStart(2, "0")).join("")] *)
Definition hexOfBytes (hashArray : list byte) : string :=
  JS.join_empty
    (map (fun b => JS.padStart (JS.toString16 (Byte.to_N b)) 2 "0") hashArray).

Definition generate256Hash (message : string) : string :=
  let msgUint8 := JS.TextEncoder_encode message in
  let hashBuffer := Crypto.SHA256 msgUint8 in
  hexOfBytes hashBuffer.

(** [generateHMAC256(message, secret)] for a secret that the key import
    accepts, that is, one that is not empty; [Subtle.generateHMAC256] below
    has the import, which throws on the empty secret. *)
Definition generateHMAC256 (message secret : string) : string :=
  let keyData := JS.TextEncoder_encode secret in
  let signed_message := Crypto.HMAC_SHA256 keyData (JS.TextEncoder_encode message) in
  hexOfBytes signed_message.

(** The HMAC helper treats the SHA-256 hex as the message. *)
Definition generateDoubleHash (ip secret : string) : string :=
  generateHMAC256 (generate256Hash ip) secret.

(* ------------------------------------------------------------------ *)
(** * ECMAScript dates (ECMA-262, section "Date Objects")              *)
(* ------------------------------------------------------------------ *)

Module ESDate.

Definition msPerSecond : Z := 1000.
Definition msPerMinute : Z := 60000.
Definition msPerHour : Z := 3600000.
Definition msPerDay : Z := 86400000.

(** The largest time value of a Date, on either side of the epoch. *)
Definition maxTime : Z := 8640000000000000.

Definition Day (t : Z) : Z := t / msPerDay.
Definition TimeWithinDay (t : Z) : Z := t mod msPerDay.

Definition DaysInYear (y : Z) : Z :=
  if negb (y mod 4 =? 0) then 365
  else if negb (y mod 100 =? 0) then 366
  else if negb (y mod 400 =? 0) then 365
  else 366.

Definition DayFromYear (y : Z) : Z :=
  365 * (y - 1970) + (y - 1969) / 4 - (y - 1901) / 100 + (y - 1601) / 400.

Definition TimeFromYear (y : Z) : Z := msPerDay * DayFromYear y.

(** Days in 400 Gregorian years. *)
Definition daysPer400Years : Z := 146097.

(** The largest [y] with [TimeFromYear y <= t]: the 400-year cycle of the
    day is split off, and inside the cycle the quotient by 365 overshoots
    the year by at most one. *)
Definition YearFromTime (t : Z) : Z :=
  let d := Day t in
  let cycle := d / daysPer400Years in
  let r := d mod daysPer400Years in
  let k := r / 365 in
  let k := if r <? DayFromYear (1970 + k) then k - 1 else k in
  1970 + 400 * cycle + k.

Definition InLeapYear (t : Z) : Z :=
  if DaysInYear (YearFromTime t) =? 366 then 1 else 0.

Definition DayWithinYear (t : Z) : Z := Day t - DayFromYear (YearFromTime t).

(** Day within the year on which month [m] (0 to 11) starts; 12 gives the
    length of the year. *)
Definition monthStart (leap m : Z) : Z :=
  match m with
  | 0 => 0
  | 1 => 31
  | 2 => 59 + leap
  | 3 => 90 + leap
  | 4 => 120 + leap
  | 5 => 151 + leap
  | 6 => 181 + leap
  | 7 => 212 + leap
  | 8 => 243 + leap
  | 9 => 273 + leap
  | 10 => 304 + leap
  | 11 => 334 + leap
  | _ => 365 + leap
  end.

Definition monthOfDay (leap dwy : Z) : Z :=
  if dwy <? 31 then 0
  else if dwy <? 59 + leap then 1
  else if dwy <? 90 + leap then 2
  else if dwy <? 120 + leap then 3
  else if dwy <? 151 + leap then 4
  else if dwy <? 181 + leap then 5
  else if dwy <? 212 + leap then 6
  else if dwy <? 243 + leap then 7
  else if dwy <? 273 + leap then 8
  else if dwy <? 304 + leap then 9
  else if dwy <? 334 + leap then 10
  else 11.

Definition MonthFromTime (t : Z) : Z := monthOfDay (InLeapYear t) (DayWithinYear t).

Definition DateFromTime (t : Z) : Z :=
  DayWithinYear t - monthStart (InLeapYear t) (MonthFromTime t) + 1.

Definition HourFromTime (t : Z) : Z := (t / msPerHour) mod 24.
Definition MinFromTime (t : Z) : Z := (t / msPerMinute) mod 60.
Definition SecFromTime (t : Z) : Z := (t / msPerSecond) mod 60.
Definition msFromTime (t : Z) : Z := t mod msPerSecond.

Definition MakeTime (hour min sec ms : Z) : Z :=
  hour * msPerHour + min * msPerMinute + sec * msPerSecond + ms.

(** 1 in a leap year, 0 otherwise. *)
Definition leapOf (y : Z) : Z := if DaysInYear y =? 366 then 1 else 0.

(** The day number of day [date] of month [month] of [year]; months and
    dates outside their range carry over. *)
Definition MakeDay (year month date : Z) : Z :=
  let ym := year + month / 12 in
  let mn := month mod 12 in
  DayFromYear ym + monthStart (leapOf ym) mn + date - 1.

Definition MakeDate (day time : Z) : Z := day * msPerDay + time.
(** The length of month [m] (0 to 11) of year [y]. *)
Definition DaysInMonth (y m : Z) : Z :=
  monthStart (leapOf y) (m + 1) - monthStart (leapOf y) m.

(** [None] is the time value [NaN] of an invalid Date. *)
Definition TimeClip (time : Z) : option Z :=
  if maxTime <? Z.abs time then None else Some time.

(** The worker runs in the Workers runtime, whose local time zone is UTC. *)
Definition LocalTZA : Z := 0.
Definition LocalTime (t : Z) : Z := t + LocalTZA.
Definition UTC (t : Z) : Z := t - LocalTZA.

(** A Date object, by its time value. *)
Definition Date : Set := option Z.

(** [new Date(d)] for a Date [d]: a copy. *)
Definition copy (d : Date) : Date := d.

Definition getHours (d : Date) : option Z :=
  option_map (fun t => HourFromTime (LocalTime t)) d.
Definition getDate (d : Date) : option Z :=
  option_map (fun t => DateFromTime (LocalTime t)) d.
Definition getMonth (d : Date) : option Z :=
  option_map (fun t => MonthFromTime (LocalTime t)) d.

(** [d.setHours(hour)] *)
Definition setHours (d : Date) (hour : option Z) : Date :=
  match d, hour with
  | Some tv, Some h =>
      let t := LocalTime tv in
      TimeClip (UTC (MakeDate (Day t)
                       (MakeTime h (MinFromTime t) (SecFromTime t) (msFromTime t))))
  | _, _ => None
  end.

(** [d.setHours(hour, min, sec, ms)] *)
Definition setHours4 (d : Date) (hour min sec ms : Z) : Date :=
  match d with
  | Some tv =>
      let t := LocalTime tv in
      TimeClip (UTC (MakeDate (Day t) (MakeTime hour min sec ms)))
  | None => None
  end.

(** [d.setDate(date)] *)
Definition setDate (d : Date) (date : option Z) : Date :=
  match d, date with
  | Some tv, Some dt =>
      let t := LocalTime tv in
      TimeClip (UTC (MakeDate (MakeDay (YearFromTime t) (MonthFromTime t) dt)
                       (TimeWithinDay t)))
  | _, _ => None
  end.

(** [d.setMonth(month)] *)
Definition setMonth (d : Date) (month : option Z) : Date :=
  match d, month with
  | Some tv, Some m =>
      let t := LocalTime tv in
      TimeClip (UTC (MakeDate (MakeDay (YearFromTime t) m (DateFromTime t))
                       (TimeWithinDay t)))
  | _, _ => None
  end.

(** Decimal digits of a non-negative integer, left-padded with zeros. *)
Definition digits (width : nat) (n : Z) : string :=
  JS.padStart (DecimalString.NilZero.string_of_uint (N.to_uint (Z.to_N n))) width "0".

Definition isoYear (y : Z) : string :=
  if andb (0 <=? y) (y <=? 9999) then digits 4 y
  else if y <? 0 then "-" ++ digits 6 (- y)
  else "+" ++ digits 6 y.

Definition isoDate (t : Z) : string :=
  isoYear (YearFromTime t) ++ "-" ++ digits 2 (MonthFromTime t + 1)
  ++ "-" ++ digits 2 (DateFromTime t).

Definition isoTime (t : Z) : string :=
  digits 2 (HourFromTime t) ++ ":" ++ digits 2 (MinFromTime t) ++ ":"
  ++ digits 2 (SecFromTime t) ++ "." ++ digits 3 (msFromTime t).

(** The text of [toISOString] for a finite time value. *)
Definition isoString (t : Z) : string := isoDate t ++ "T" ++ isoTime t ++ "Z".

(** [d.toISOString()]; [None] is the [RangeError] thrown on an invalid
    Date. *)
Definition toISOString (d : Date) : option string := option_map isoString d.

End ESDate.

(* ------------------------------------------------------------------ *)
(** * Durations, periods and query parameters                          *)
(* ------------------------------------------------------------------ *)

Inductive DurationUnit : Set := seconds | minutes | hours | days | weeks.

Definition multipliers (unit : DurationUnit) : Z :=
  match unit with
  | seconds => 1000
  | minutes => 60 * 1000
  | hours => 60 * 60 * 1000
  | days => 24 * 60 * 60 * 1000
  | weeks => 7 * 24 * 60 * 60 * 1000
  end.

(** [value * multipliers[unit]] for an integer [value]; the product of the
    program is the double nearest to this one, the same integer up to
    [2 ^ 53], as for every duration of the handlers. *)
Definition durationToMs (value : Z) (unit : DurationUnit) : Z :=
  value * multipliers unit.

(** The interval of the throttle: [durationToMs(30, "minutes")]. *)
Definition MIN_INTERVAL : Z := durationToMs 30 minutes.

Record DateRange : Set := { startISO : string; endISO : string }.

(** What a call does: it returns a value or throws. *)
Inductive completion (A : Type) : Type :=
  | Normal (a : A)
  | Throw.
Arguments Normal {A} a.
Arguments Throw {A}.

(** [crypto.subtle] as [generateHMAC256] calls it.
    [importKey("raw", keyData, {name: "HMAC", hash: "SHA-256"}, false,
    ["sign"])] rejects key data of no bytes with a DataError;
    [sign("HMAC", cryptoKey, data)] is the HMAC-SHA-256 of the data under
    the imported key.  [Subtle.generateHMAC256] and
    [Subtle.generateDoubleHash] are the two helpers with the key import:
    they throw on an empty secret, and [generateHMAC256] and
    [generateDoubleHash] above are what they return when the import
    succeeds. *)
Module Subtle.

Definition importKey (keyData : list byte) : completion (list byte) :=
  match keyData with
  | [] => Throw
  | _ :: _ => Normal keyData
  end.

Definition sign (cryptoKey data : list byte) : list byte :=
  Crypto.HMAC_SHA256 cryptoKey data.

Definition generateHMAC256 (message secret : string) : completion string :=
  let keyData := JS.TextEncoder_encode secret in
  match importKey keyData with
  | Throw => Throw
  | Normal cryptoKey =>
      let signed_message := sign cryptoKey (JS.TextEncoder_encode message) in
      Normal (hexOfBytes signed_message)
  end.

Definition generateDoubleHash (ip secret : string) : completion string :=
  generateHMAC256 (generate256Hash ip) secret.

End Subtle.

(** The object literal returned by [getDateRange]; either [toISOString]
    throws a [RangeError] on an invalid Date. *)
Definition isoRange (start end_ : ESDate.Date) : completion (option DateRange) :=
  match ESDate.toISOString start, ESDate.toISOString end_ with
  | Some s, Some e => Normal (Some {| startISO := s; endISO := e |})
  | _, _ => Throw
  end.

Definition getDateRange (period : string) (currentDate : ESDate.Date)
  : completion (option DateRange) :=
  let end_ := ESDate.copy currentDate in
  let start := ESDate.copy currentDate in
  if String.eqb period "24h" then
    let start := ESDate.setHours start (option_map (fun h => h - 24) (ESDate.getHours start)) in
    isoRange start end_
  else if String.eqb period "7d" then
    let start := ESDate.setDate start (option_map (fun d => d - 7) (ESDate.getDate start)) in
    let start := ESDate.setHours4 start 0 0 0 0 in
    isoRange start end_
  else if String.eqb period "30d" then
    let start := ESDate.setDate start (option_map (fun d => d - 30) (ESDate.getDate start)) in
    let start := ESDate.setHours4 start 0 0 0 0 in
    isoRange start end_
  else if String.eqb period "6month" then
    let start := ESDate.setMonth start (option_map (fun m => m - 6) (ESDate.getMonth start)) in
    let start := ESDate.setHours4 start 0 0 0 0 in
    isoRange start end_
  else if String.eqb period "all" then Normal None
  else Normal None.

(** [parseQueryParam(value, defaultValue, allowedValues?)]; a missing
    [allowedValues] is [None]. *)
Definition parseQueryParam (value : option string) (defaultValue : string)
    (allowedValues : option (list string)) : string :=
  match JS.whenTruthy value with
  | Some v =>
      match allowedValues with
      | None => v
      | Some allowed => if JS.includes allowed v then v else defaultValue
      end
  | None => defaultValue
  end.

(* ------------------------------------------------------------------ *)
(** * The D1 database                                                  *)
(* ------------------------------------------------------------------ *)

Record PingRow : Set := { ip_hmac : string; ping_timestamp : Z }.

(** The two tables: the rows of [ip_registry] by their [ip_hmac] column,
    and the rows of [ip_pings], both in insertion order. *)
Record db : Set := { ip_registry : list string; ip_pings : list PingRow }.

Definition empty_db : db := {| ip_registry := []; ip_pings := [] |}.

(** A computation on the database. *)
Definition D1 (A : Type) : Type := db -> A * db.

Definition ret {A : Type} (a : A) : D1 A := fun d => (a, d).

Definition bind {A B : Type} (m : D1 A) (k : A -> D1 B) : D1 B :=
  fun d => let '(a, d') := m d in k a d'.

Notation "x <- m ;; k" := (bind m (fun x => k))
  (at level 61, m at next level, right associativity).

(** Modelled from the spec: the DDL of [ip_registry] is not part of the
    sources.  "identifier ... Acts as primary key", and the storage engine
    offers an atomic insert-if-absent: the insert conflicts exactly when a
    row with this [ip_hmac] exists, and then does nothing. *)
Definition insertRegistryOnConflictDoNothing (hmac : string) : D1 unit :=
  fun d =>
    if existsb (String.eqb hmac) (ip_registry d) then (tt, d)
    else (tt, {| ip_registry := ip_registry d ++ [hmac]; ip_pings := ip_pings d |}).

(** Modelled from the spec: the DDL of [ip_pings] is not part of the sources.
    "timestamp: event time": the column default stamps a row with the time
    of the insert, at the resolution [tick] of the column in milliseconds
    (1000 for SQLite's [CURRENT_TIMESTAMP]). *)
Definition ping_timestamp_default (tick now : Z) : Z := tick * (now / tick).

(** [INSERT INTO ip_pings (ip_hmac) VALUES (?)] *)
Definition insertPing (tick now : Z) (ipHmac : string) : D1 unit :=
  fun d =>
    (tt, {| ip_registry := ip_registry d;
            ip_pings := ip_pings d ++
              [{| ip_hmac := ipHmac;
                  ping_timestamp := ping_timestamp_default tick now |}] |}).

(** The row with the greatest timestamp, the earliest inserted among
    equals. *)
Definition latest (rows : list PingRow) : option PingRow :=
  fold_left
    (fun best r =>
       match best with
       | None => Some r
       | Some b => if ping_timestamp b <? ping_timestamp r then Some r else Some b
       end)
    rows None.

Definition pingsOf (ipHmac : string) (rows : list PingRow) : list PingRow :=
  filter (fun r => String.eqb (ip_hmac r) ipHmac) rows.

(** [SELECT ping_timestamp FROM ip_pings WHERE ip_hmac = ?
     ORDER BY ping_timestamp DESC LIMIT 1], [.first()] *)
Definition selectLastPing (ipHmac : string) : D1 (option PingRow) :=
  fun d => (latest (pingsOf ipHmac (ip_pings d)), d).

(* ------------------------------------------------------------------ *)
(** * The visitor registry and the ping endpoint                       *)
(* ------------------------------------------------------------------ *)

Record Env : Set := { IP_HASH_PEPPER : string }.

Record Upserted : Set := { hmac : string }.

Definition upsertIp (ip : string) (env : Env) : D1 Upserted :=
  let hmac := generateDoubleHash ip (IP_HASH_PEPPER env) in
  _ <- insertRegistryOnConflictDoNothing hmac ;;
  ret {| hmac := hmac |}.

Record UniqueActivityRecord : Set :=
  { ua_ip_hmac : string; first_seen : Z; last_seen : Z; total_pings : Z }.

Record PaginationInfo : Set :=
  { totalItems : Z; currentPage : Z; pageSize : Z; totalPages : Z }.

Record GroupedPing : Set := { day : string; count : Z }.

Inductive Body : Set :=
  | Text (text : string)
  | Proxied (url : string)
  | PingResponse (success : bool) (message : string)
  | GroupedPingsResponse (results : list GroupedPing)
  | UniqueActivityResponse (data : list UniqueActivityRecord) (pagination : PaginationInfo).

(** A response: its status, its body, and whether [addCors] set the CORS
    headers on it. *)
Record Response : Set := { status : Z; body : Body; cors : bool }.

Definition addCors (r : Response) : Response :=
  {| status := status r; body := body r; cors := true |}.

(** The decision of the throttle, from the result of the last-ping query and
    the time of the request.  The timestamp of a stored row is a text that
    is not empty, so the guard [lastPingResult?.ping_timestamp] holds exactly
    when the query found a row; [new Date] of it is the stored time value. *)
Definition shouldRecordPing (lastPingResult : option PingRow) (currentTime : Z) : bool :=
  match lastPingResult with
  | Some last =>
      let lastPingTime := ping_timestamp last in
      let minutesDifference :=
        (inject_Z (currentTime - lastPingTime) / inject_Z (durationToMs 30 minutes))%Q in
      Qle_bool 1 minutesDifference
  | None => true
  end.

(** [case "/makefile"] *)
Definition handle_makefile (env : Env) (ip : option string) : D1 Response :=
  let proxied :=
    {| status := 200;
       body := Proxied "https://raw.githubusercontent.com/zane-ops/zane-ops/main/deploy.mk";
       cors := false |} in
  match JS.whenTruthy ip with
  | Some ip => _ <- upsertIp ip env ;; ret proxied
  | None => ret proxied
  end.

(** [case "/api/ping"]; [currentTime] is the worker's clock read by
    [new Date()]; the INSERT binds no timestamp, so the row is stamped by the
    database: [stamp] is what the database's clock reads when it runs the
    INSERT, [tick] the resolution of the timestamp column. *)
Definition handle_api_ping (tick : Z) (env : Env) (method : string)
    (ip : option string) (currentTime stamp : Z) : D1 Response :=
  if negb (String.eqb method "POST") then
    ret {| status := 405; body := Text "Method Not Allowed"; cors := false |}
  else
    match JS.whenTruthy ip with
    | Some ip =>
        r <- upsertIp ip env ;;
        let ipHmac := hmac r in
        lastPingResult <- selectLastPing ipHmac ;;
        if shouldRecordPing lastPingResult currentTime then
          _ <- insertPing tick stamp ipHmac ;;
          ret {| status := 200;
                 body := PingResponse true "Ping recorded successfully";
                 cors := false |}
        else
          ret {| status := 200;
                 body := PingResponse false
                           "Ping not recorded - less than 30 minutes since last ping";
                 cors := false |}
    | None =>
        ret {| status := 400;
               body := PingResponse false "IP address not found in request";
               cors := false |}
    end.

(* ------------------------------------------------------------------ *)
(** * The aggregation endpoints                                        *)
(* ------------------------------------------------------------------ *)

(** A prepared statement with its bound values. *)
Record Statement : Set := { sql : string; bindings : list string }.

Definition periodValues : list string := ["24h"; "7d"; "30d"; "6month"; "all"].
Definition countTypeValues : list string := ["unique"; "total"].
Definition sortByValues : list string := ["first_seen"; "total_pings"].
Definition sortOrderValues : list string := ["asc"; "desc"].

(** The statement built by [case "/api/pings/grouped"] from its query
    parameters and the clock. *)
Definition groupedStatement (periodParam countTypeParam : option string)
    (now : ESDate.Date) : completion Statement :=
  let parsedPeriod := parseQueryParam periodParam "30d" (Some periodValues) in
  let parsedCountType := parseQueryParam countTypeParam "unique" (Some countTypeValues) in
  match getDateRange parsedPeriod now with
  | Throw => Throw
  | Normal dateRange =>
      let selectCountSQL :=
        if String.eqb parsedCountType "unique"
        then "COUNT(DISTINCT ip_hmac) as count"
        else "COUNT(*) as count" in
      let sqlQuery :=
        JS.line 5 "SELECT"
        ++ JS.line 6 "strftime('%Y-%m-%d', ping_timestamp) as day,"
        ++ JS.line 6 selectCountSQL
        ++ JS.line 5 "FROM ip_pings"
        ++ JS.line 4 "" in
      let '(sqlQuery, bindings) :=
        match dateRange with
        | Some range =>
            (sqlQuery ++ " WHERE ping_timestamp >= ? AND ping_timestamp <= ?",
             [startISO range; endISO range])
        | None => (sqlQuery, [])
        end in
      let sqlQuery :=
        sqlQuery
        ++ JS.line 5 "GROUP BY strftime('%Y-%m-%d', ping_timestamp)"
        ++ JS.line 5 "ORDER BY day ASC;"
        ++ JS.line 4 "" in
      Normal {| sql := sqlQuery; bindings := bindings |}
  end.

Definition methodNotAllowed : Response :=
  addCors {| status := 405; body := Text "Method Not Allowed"; cors := false |}.

Definition databaseError : Response :=
  addCors {| status := 500; body := Text "Error querying database"; cors := false |}.

Section Grouped.

(** The storage engine is an external collaborator: [all stmt d] is what
    [.all()] returns for the statement on the database, [None] when it
    throws. *)
Variable all : Statement -> db -> option (list GroupedPing).

(** [case "/api/pings/grouped"]; the call of [getDateRange] is outside the
    [try], so what it throws leaves the handler. *)
Definition handle_api_pings_grouped (method : string)
    (periodParam countTypeParam : option string) (now : ESDate.Date)
  : D1 (completion Response) :=
  if negb (String.eqb method "GET") then ret (Normal methodNotAllowed)
  else
    match groupedStatement periodParam countTypeParam now with
    | Throw => ret Throw
    | Normal stmt =>
        fun d =>
          match all stmt d with
          | Some results =>
              (Normal (addCors {| status := 200;
                                  body := GroupedPingsResponse results;
                                  cors := false |}), d)
          | None => (Normal databaseError, d)
          end
    end.

End Grouped.

(** [page] after [parseInt] and the guard [isNaN(page) || page < 1], as an
    integer: the page that the text asks for.  [Double.resolvePage] below is
    the number of the runtime that holds it. *)
Definition resolvePage (pageParam : option string) : Z :=
  let page :=
    match JS.whenTruthy pageParam with
    | Some p => JS.parseInt p
    | None => Some 1
    end in
  match page with
  | None => 1
  | Some page => if page <? 1 then 1 else page
  end.

(** [pageSize] after [parseInt] and its two guards. *)
Definition resolvePageSize (pageSizeParam : option string) : Z :=
  let pageSize :=
    match JS.whenTruthy pageSizeParam with
    | Some p => JS.parseInt p
    | None => Some 10
    end in
  let pageSize :=
    match pageSize with
    | None => 10
    | Some pageSize => if pageSize <? 1 then 10 else pageSize
    end in
  if 100 <? pageSize then 100 else pageSize.

Definition validSortByColumns : list (string * string) :=
  [("first_seen", "first_seen"); ("total_pings", "total_pings")].

(** [obj[key]] on an object literal, [None] for [undefined]. *)
Fixpoint property (obj : list (string * string)) (key : string) : option string :=
  match obj with
  | [] => None
  | (k, v) :: rest => if String.eqb k key then Some v else property rest key
  end.

Definition resolveSortBy (sortByParam : option string) : string :=
  parseQueryParam sortByParam "first_seen" (Some sortByValues).

Definition resolveSortOrder (sortOrderParam : option string) : string :=
  parseQueryParam sortOrderParam "desc" (Some sortOrderValues).

(** The [ORDER BY] line of [dataQuerySQL]. *)
Definition orderByClause (sortByParam sortOrderParam : option string) : string :=
  let sortBy := resolveSortBy sortByParam in
  let sortOrder := resolveSortOrder sortOrderParam in
  let orderByColumn := property validSortByColumns sortBy in
  "ORDER BY " ++ JS.interpolate orderByColumn ++ " " ++ JS.toUpperCase sortOrder.

Definition dataQuerySQL (sortByParam sortOrderParam : option string) : string :=
  JS.line 5 "SELECT"
  ++ JS.line 6 "ip_hmac,"
  ++ JS.line 6 "MIN(ping_timestamp) as first_seen,"
  ++ JS.line 6 "MAX(ping_timestamp) as last_seen,"
  ++ JS.line 6 "COUNT(ping_timestamp) as total_pings"
  ++ JS.line 5 "FROM ip_pings"
  ++ JS.line 5 "GROUP BY ip_hmac"
  ++ JS.line 5 (orderByClause sortByParam sortOrderParam)
  ++ JS.line 5 "LIMIT ? OFFSET ?;"
  ++ JS.line 4 "".

(** The identifiers of the log, each once, in order of first appearance. *)
Fixpoint distinctIps (seen : list string) (rows : list PingRow) : list string :=
  match rows with
  | [] => []
  | r :: rest =>
      if existsb (String.eqb (ip_hmac r)) seen then distinctIps seen rest
      else ip_hmac r :: distinctIps (ip_hmac r :: seen) rest
  end.

Definition minimum (ts : list Z) : Z :=
  match ts with
  | [] => 0
  | t :: rest => fold_left Z.min rest t
  end.

Definition maximum (ts : list Z) : Z :=
  match ts with
  | [] => 0
  | t :: rest => fold_left Z.max rest t
  end.

(** [GROUP BY ip_hmac] with the three aggregates of the data query. *)
Definition groupByIp (rows : list PingRow) : list UniqueActivityRecord :=
  map (fun ip =>
         let ts := map ping_timestamp (pingsOf ip rows) in
         {| ua_ip_hmac := ip;
            first_seen := minimum ts;
            last_seen := maximum ts;
            total_pings := Z.of_nat (List.length ts) |})
      (distinctIps [] rows).

Fixpoint insertBy {A : Type} (le : A -> A -> bool) (x : A) (l : list A) : list A :=
  match l with
  | [] => [x]
  | y :: rest => if le x y then x :: l else y :: insertBy le x rest
  end.

(** A stable sort; SQL leaves the order of equal keys open. *)
Definition sortRows {A : Type} (le : A -> A -> bool) (l : list A) : list A :=
  fold_right (insertBy le) [] l.

(** The engine's reading of the [ORDER BY] of the data query: the sort key
    named by the column and the direction; [None] is a statement the engine
    rejects. *)
Definition orderingOf (column direction : string)
  : option (UniqueActivityRecord -> UniqueActivityRecord -> bool) :=
  let key :=
    if String.eqb column "first_seen" then Some first_seen
    else if String.eqb column "last_seen" then Some last_seen
    else if String.eqb column "total_pings" then Some total_pings
    else None in
  match key with
  | None => None
  | Some key =>
      if String.eqb direction "ASC" then Some (fun a b => key a <=? key b)
      else if String.eqb direction "DESC" then Some (fun a b => key b <=? key a)
      else None
  end.

(** [dataStatement.all()]: the groups, ordered, then [LIMIT ? OFFSET ?] with
    the bound page size and offset; [None] when the engine throws. *)
Definition allDataQuery (column direction : string) (limit offset : Z)
  : D1 (option (list UniqueActivityRecord)) :=
  fun d =>
    (match orderingOf column direction with
     | Some le =>
         Some (firstn (Z.to_nat limit)
                 (skipn (Z.to_nat offset) (sortRows le (groupByIp (ip_pings d)))))
     | None => None
     end, d).

(** [countStatement.first()]: [COUNT( * )] over the groups. *)
Definition firstCountQuery : D1 Z :=
  fun d => (Z.of_nat (List.length (distinctIps [] (ip_pings d))), d).

Definition Math_ceil (q : Q) : Z := Qceiling q.

(** [case "/api/pings/unique-activity"] over the integers: what the handler
    does while the offset is an integer that a number holds exactly.
    [Double.handle_api_pings_unique_activity] below is the handler over the
    numbers of the runtime, with the failing query of a far offset. *)
Definition handle_api_pings_unique_activity (method : string)
    (pageParam pageSizeParam sortByParam sortOrderParam : option string)
  : D1 Response :=
  if negb (String.eqb method "GET") then ret methodNotAllowed
  else
    let page := resolvePage pageParam in
    let pageSize := resolvePageSize pageSizeParam in
    let sortBy := resolveSortBy sortByParam in
    let sortOrder := resolveSortOrder sortOrderParam in
    let offset := (page - 1) * pageSize in
    let orderByColumn := property validSortByColumns sortBy in
    dataResults <- allDataQuery (JS.interpolate orderByColumn)
                     (JS.toUpperCase sortOrder) pageSize offset ;;
    countResult <- firstCountQuery ;;
    match dataResults with
    | Some results =>
        let totalItems := countResult in
        let totalPages := Math_ceil (inject_Z totalItems / inject_Z pageSize)%Q in
        ret (addCors
               {| status := 200;
                  body := UniqueActivityResponse results
                            {| totalItems := totalItems;
                               currentPage := page;
                               pageSize := pageSize;
                               totalPages := totalPages |};
                  cors := false |})
    | None => ret databaseError
    end.

(* ------------------------------------------------------------------ *)
(** * The pagination over the numbers of the runtime                   *)
(* ------------------------------------------------------------------ *)

(** The numbers of the runtime are IEEE doubles.  [JS.parseInt],
    [resolvePage] and the handler above read and compute the page as an
    integer, which is what the program does while every number involved is
    an integer that a double holds exactly.  [Double] embeds the same lines
    of the handler over the doubles that can occur in them: NaN, the
    infinities, and the doubles that are integers. *)
Module Double.

Inductive Number : Set :=
  | NaN
  | Infinity (negative : bool)
  | Finite (n : Z).

(** The double nearest to the integer [n], ties to the even significand;
    an infinity from [2 ^ 1024] on.  Up to [2 ^ 53] it is [n] itself. *)
Definition ofZ (n : Z) : Number :=
  let a := Z.abs n in
  if a <=? 2 ^ 53 then Finite n
  else
    let e := Z.log2 a - 52 in
    let q := a / 2 ^ e in
    let r := a mod 2 ^ e in
    let half := 2 ^ (e - 1) in
    let m := if orb (half <? r) (andb (r =? half) (Z.odd q)) then q + 1 else q in
    let v := m * 2 ^ e in
    if 2 ^ 1024 <=? v then Infinity (n <? 0) else Finite (Z.sgn n * v).

(** [parseInt(text, 10)]: [JS.parseInt] is the integer that the text spells,
    the number returned is the double nearest to it. *)
Definition parseInt (text : string) : Number :=
  match JS.parseInt text with
  | None => NaN
  | Some n => ofZ n
  end.

Definition isNaN (x : Number) : bool :=
  match x with
  | NaN => true
  | _ => false
  end.

(** [x < k] and [x > k] for an integer [k]; both false on NaN. *)
Definition lt (x : Number) (k : Z) : bool :=
  match x with
  | NaN => false
  | Infinity negative => negative
  | Finite n => n <? k
  end.

Definition gt (x : Number) (k : Z) : bool :=
  match x with
  | NaN => false
  | Infinity negative => negb negative
  | Finite n => k <? n
  end.

(** [x - 1] *)
Definition minusOne (x : Number) : Number :=
  match x with
  | Finite n => ofZ (n - 1)
  | other => other
  end.

(** [x * y]: the product of two doubles is the double nearest to the exact
    product. *)
Definition times (x y : Number) : Number :=
  match x, y with
  | NaN, _ | _, NaN => NaN
  | Finite a, Finite b => ofZ (a * b)
  | Infinity negative, Finite b | Finite b, Infinity negative =>
      if b =? 0 then NaN else Infinity (xorb negative (b <? 0))
  | Infinity negative, Infinity negative' => Infinity (xorb negative negative')
  end.

Definition resolvePage (pageParam : option string) : Number :=
  let page :=
    match JS.whenTruthy pageParam with
    | Some p => parseInt p
    | None => Finite 1
    end in
  if orb (isNaN page) (lt page 1) then Finite 1 else page.

Definition resolvePageSize (pageSizeParam : option string) : Number :=
  let pageSize :=
    match JS.whenTruthy pageSizeParam with
    | Some p => parseInt p
    | None => Finite 10
    end in
  let pageSize := if orb (isNaN pageSize) (lt pageSize 1) then Finite 10 else pageSize in
  if gt pageSize 100 then Finite 100 else pageSize.

(** A number bound to [LIMIT ?] or [OFFSET ?]: SQLite takes the value only
    as a 64-bit integer; with any other number the statement fails (datatype
    mismatch) and [.all()] throws. *)
Definition boundInteger (x : Number) : option Z :=
  match x with
  | Finite n => if andb (- 2 ^ 63 <=? n) (n <? 2 ^ 63) then Some n else None
  | _ => None
  end.

(** [dataStatement.all()], [None] when it throws. *)
Definition allDataQuery (column direction : string) (limit offset : Number)
  : D1 (option (list UniqueActivityRecord)) :=
  match boundInteger limit, boundInteger offset with
  | Some limit, Some offset => allDataQuery column direction limit offset
  | _, _ => ret None
  end.

(** [Math.ceil(totalItems / pageSize)], for a count that a double holds
    exactly. *)
Definition ceilOfQuotient (totalItems : Z) (pageSize : Number) : Number :=
  match pageSize with
  | Finite k =>
      if k =? 0 then (if totalItems =? 0 then NaN else Infinity (totalItems <? 0))
      else Finite (Math_ceil (inject_Z totalItems / inject_Z k)%Q)
  | Infinity _ => Finite 0
  | NaN => NaN
  end.

Record PaginationInfo : Set :=
  { totalItems : Z; currentPage : Number; pageSize : Number; totalPages : Number }.

Inductive Body : Set :=
  | Text (text : string)
  | UniqueActivityResponse (data : list UniqueActivityRecord) (pagination : PaginationInfo).

Record Response : Set := { status : Z; body : Body; cors : bool }.

(** [case "/api/pings/unique-activity"] *)
Definition handle_api_pings_unique_activity (method : string)
    (pageParam pageSizeParam sortByParam sortOrderParam : option string)
  : D1 Response :=
  if negb (String.eqb method "GET") then
    ret {| status := 405; body := Text "Method Not Allowed"; cors := true |}
  else
    let page := resolvePage pageParam in
    let pageSize := resolvePageSize pageSizeParam in
    let sortBy := resolveSortBy sortByParam in
    let sortOrder := resolveSortOrder sortOrderParam in
    let offset := times (minusOne page) pageSize in
    let orderByColumn := property validSortByColumns sortBy in
    dataResults <- allDataQuery (JS.interpolate orderByColumn)
                     (JS.toUpperCase sortOrder) pageSize offset ;;
    countResult <- firstCountQuery ;;
    match dataResults with
    | Some results =>
        let totalItems := countResult in
        let totalPages := ceilOfQuotient totalItems pageSize in
        ret {| status := 200;
               body := UniqueActivityResponse results
                         {| totalItems := totalItems;
                            currentPage := page;
                            pageSize := pageSize;
                            totalPages := totalPages |};
               cors := true |}
    | None =>
        ret {| status := 500; body := Text "Error querying database"; cors := true |}
    end.

End Double.

(* ------------------------------------------------------------------ *)
(** * Requests that write, and the states they reach                   *)
(* ------------------------------------------------------------------ *)

Inductive WriteRequest : Set :=
  | Makefile (ip : option string)
  | Ping (method : string) (ip : option string) (currentTime stamp : Z).

Definition serve (tick : Z) (env : Env) (req : WriteRequest) (d : db) : db :=
  match req with
  | Makefile ip => snd (handle_makefile env ip d)
  | Ping method ip currentTime stamp =>
      snd (handle_api_ping tick env method ip currentTime stamp d)
  end.

(** The databases reached from the empty one by serving requests one after
    the other, whatever the two clocks read. *)
Inductive reachable (tick : Z) (env : Env) : db -> Prop :=
  | reachable_empty : reachable tick env empty_db
  | reachable_serve (d : db) (req : WriteRequest) :
      reachable tick env d -> reachable tick env (serve tick env req d).

(** A request served with the clocks in step: the database stamps the ping,
    if it stores one, no earlier than the worker read its own clock. *)
Definition in_step (req : WriteRequest) : Prop :=
  match req with
  | Makefile _ => True
  | Ping _ _ currentTime stamp => currentTime <= stamp
  end.

(** The databases reached by serving requests one at a time, each to its
    end before the next begins, with the clocks in step. *)
Inductive served_in_turn (tick : Z) (env : Env) : db -> Prop :=
  | served_none : served_in_turn tick env empty_db
  | served_next (d : db) (req : WriteRequest) :
      served_in_turn tick env d -> in_step req ->
      served_in_turn tick env (serve tick env req d).

(** A POST to [/api/ping] that carries an address awaits the database three
    times, for [upsertIp], for the last-ping query and for the INSERT, with
    no transaction around them: between two awaits other requests run.  A
    request in flight has arrived, or knows its identifier, or has read the
    clock and decided, or has answered. *)
Inductive PingFlight : Set :=
  | Arrived (ip : string)
  | Registered (ipHmac : string)
  | Decided (ipHmac : string) (shouldRecordPing : bool)
  | Answered (response : Response).

(** The request runs to its next await; [currentTime] is read by
    [new Date()] when the last-ping query has answered. *)
Definition continue (tick : Z) (env : Env) (currentTime stamp : Z) (flight : PingFlight)
  : D1 PingFlight :=
  match flight with
  | Arrived ip =>
      r <- upsertIp ip env ;; ret (Registered (hmac r))
  | Registered ipHmac =>
      lastPingResult <- selectLastPing ipHmac ;;
      ret (Decided ipHmac (shouldRecordPing lastPingResult currentTime))
  | Decided ipHmac true =>
      _ <- insertPing tick stamp ipHmac ;;
      ret (Answered {| status := 200;
                       body := PingResponse true "Ping recorded successfully";
                       cors := false |})
  | Decided ipHmac false =>
      ret (Answered {| status := 200;
                       body := PingResponse false
                                 "Ping not recorded - less than 30 minutes since last ping";
                       cors := false |})
  | Answered response => ret (Answered response)
  end.

(** The [i]-th of the requests in flight runs to its next await. *)
Fixpoint continueNth (tick : Z) (env : Env) (currentTime stamp : Z) (i : nat)
    (flights : list PingFlight) : D1 (list PingFlight) :=
  match flights, i with
  | [], _ => ret []
  | flight :: others, O =>
      flight' <- continue tick env currentTime stamp flight ;; ret (flight' :: others)
  | flight :: others, S i' =>
      others' <- continueNth tick env currentTime stamp i' others ;; ret (flight :: others')
  end.

(** Requests in flight run as a schedule says: each entry names the request
    that runs to its next await, and what the two clocks read then. *)
Fixpoint interleave (tick : Z) (env : Env) (schedule : list (nat * Z * Z))
    (flights : list PingFlight) : D1 (list PingFlight) :=
  match schedule with
  | [] => ret flights
  | (i, currentTime, stamp) :: later =>
      flights' <- continueNth tick env currentTime stamp i flights ;;
      interleave tick env later flights'
  end.

(** Each timestamp of [ts] is at least [interval] after the one before it. *)
Fixpoint spaced (interval : Z) (ts : list Z) : Prop :=
  match ts with
  | [] => True
  | t :: rest =>
      match rest with
      | [] => True
      | t' :: _ => interval <= t' - t
      end /\ spaced interval rest
  end.

(** The timestamps stored for an identifier, in insertion order. *)
Definition timestampsOf (ipHmac : string) (d : db) : list Z :=
  map ping_timestamp (pingsOf ipHmac (ip_pings d)).


(** What the handler answers and does to the log when it records a ping of
    [ipHmac] at [now]. *)
Definition recorded (tick now : Z) (ipHmac : string) (d : db) (out : Response * db) : Prop :=
  fst out = {| status := 200;
               body := PingResponse true "Ping recorded successfully";
               cors := false |}
  /\ ip_pings (snd out) =
     (ip_pings d ++ [{| ip_hmac := ipHmac;
                        ping_timestamp := ping_timestamp_default tick now |}])%list.


(** Hex encoding in the words of the specification: two lowercase
    hexadecimal digits for each byte, the high half first. *)
Definition hexDigit (n : Z) : ascii :=
  match String.get (Z.to_nat n) "0123456789abcdef" with
  | Some c => c
  | None => "0"%char
  end.

Definition hex_encode (bs : list byte) : string :=
  fold_right
    (fun b acc =>
       String (hexDigit (Crypto.byteZ b / 16))
         (String (hexDigit (Crypto.byteZ b mod 16)) acc))
    EmptyString bs.

(** The identifier in the words of the specification: the hex encoding of
    the HMAC-SHA-256, keyed by the pepper, of the hex-encoded SHA-256 digest
    of the UTF-8 address. *)
Definition two_stage_identifier (address pepper : string) : string :=
  hex_encode
    (Crypto.HMAC_SHA256 (list_byte_of_string pepper)
       (list_byte_of_string
          (hex_encode (Crypto.SHA256 (list_byte_of_string address))))).

(** The invariant of the log: every timestamp is a multiple of the
    resolution, and the timestamps of each identifier are spaced. *)
Definition log_invariant (tick : Z) (d : db) : Prop :=
  (forall r, In r (ip_pings d) -> (tick | ping_timestamp r))
  /\ forall id, spaced MIN_INTERVAL (timestampsOf id d).

(** A deployment and a visitor to run the handlers on: the column keeps
    seconds, the visitor pings at 5 s, again twenty minutes later and again
    thirty minutes after the first ping. *)
Definition sample_env : Env := {| IP_HASH_PEPPER := "pepper" |}.
Definition sample_ip : string := "203.0.113.7".
Definition sample_id : string := generateDoubleHash sample_ip (IP_HASH_PEPPER sample_env).

Definition sample_db : db :=
  serve 1000 sample_env (Ping "POST" (Some sample_ip) 5000 5000) empty_db.

Definition sample_db3 : db :=
  serve 1000 sample_env (Ping "POST" (Some sample_ip) (5000 + 1800000) (5000 + 1800000))
    (serve 1000 sample_env (Ping "POST" (Some sample_ip) (5000 + 1200000) (5000 + 1200000))
       sample_db).

(** Two pings of the visitor stored less than the interval apart: by a
    second request half an hour after the first whose row the database
    stamps two seconds behind the worker's clock; and by two requests of the
    same instant whose round trips overlap, both reading the log before
    either writes to it. *)
Definition sample_lagging : db :=
  serve 1000 sample_env
    (Ping "POST" (Some sample_ip) (5000 + 1800000) (5000 + 1800000 - 2000)) sample_db.

Definition sample_race : db :=
  snd (interleave 1000 sample_env
         [(0%nat, 5000, 5000); (1%nat, 5000, 5000);
          (0%nat, 5100, 5100); (1%nat, 5200, 5200);
          (0%nat, 5300, 5300); (1%nat, 5400, 5400)]
         [Arrived sample_ip; Arrived sample_ip] empty_db).

(* ------------------------------------------------------------------ *)
(** * The other routes and the dispatch                                *)
(* ------------------------------------------------------------------ *)

(** [SELECT count(id) as total FROM ip_registry]; every row has an [id]. *)
Definition selectRegistryTotal : D1 Z :=
  fun d => (Z.of_nat (List.length (ip_registry d)), d).

(** [SELECT ip_hmac, ping_timestamp FROM ip_pings ORDER BY ping_timestamp
    DESC], [.all()] *)
Definition selectAllPings : D1 (list PingRow) :=
  fun d =>
    (sortRows (fun a b => ping_timestamp b <=? ping_timestamp a) (ip_pings d), d).

(** A row of [SELECT ip_hmac, COUNT( * ) as ping_count ... GROUP BY ip_hmac]. *)
Record PingCount : Set := { pc_ip_hmac : string; ping_count : Z }.

Definition pingCounts (rows : list PingRow) : list PingCount :=
  map (fun ip => {| pc_ip_hmac := ip;
                    ping_count := Z.of_nat (List.length (pingsOf ip rows)) |})
      (distinctIps [] rows).

(** [SELECT COUNT( * ) as totalPings FROM ip_pings], [.first()] *)
Definition totalPingsQuery : D1 (option Z) :=
  fun d => (Some (Z.of_nat (List.length (ip_pings d))), d).

(** [SELECT COUNT(DISTINCT ip_hmac) as totalUniqueUsers FROM ip_pings],
    [.first()] *)
Definition totalUniqueUsersQuery : D1 (option Z) :=
  fun d => (Some (Z.of_nat (List.length (distinctIps [] (ip_pings d)))), d).

(** [... GROUP BY ip_hmac ORDER BY ping_count DESC LIMIT 1], [.first()]:
    [None] is the [null] of a result without rows.  Among identifiers with
    the same count the engine is free; the model takes the one seen
    first. *)
Definition mostActiveUserQuery : D1 (option PingCount) :=
  fun d =>
    (hd_error (sortRows (fun a b => ping_count b <=? ping_count a)
                 (pingCounts (ip_pings d))), d).

Record MostActiveUser : Set := { ipHmac : string; pingCount : Z }.

Record Release : Set := { tag_name : string; html_url : string }.
Record ReleaseItem : Set := { tag : string; url : string }.

(** The bodies of all the routes: those of the ping and aggregation
    endpoints, [null], and the JSON of the other routes. *)
Inductive Payload : Set :=
  | Core (b : Body)
  | NoBody
  | StatsResponse (total : Z)
  | ReleasesResponse (items : list ReleaseItem)
  | LatestReleaseResponse (item : ReleaseItem)
  | PingsResponse (rows : list PingRow)
  | SummaryStatsResponse (totalPings totalUniqueUsers : Z)
      (mostActiveUser : option MostActiveUser).

Record Reply : Set := { reply_status : Z; payload : Payload; reply_cors : bool }.

Definition reply (r : Response) : Reply :=
  {| reply_status := status r; payload := Core (body r); reply_cors := cors r |}.

(** [x ?? fallback] *)
Definition nullish {A : Type} (x : option A) (fallback : A) : A :=
  match x with
  | Some a => a
  | None => fallback
  end.

(** [case "/api/stats"] *)
Definition handle_api_stats : D1 Reply :=
  total <- selectRegistryTotal ;;
  ret {| reply_status := 200; payload := StatsResponse total; reply_cors := false |}.

(** [case "/api/pings"] *)
Definition handle_api_pings (method : string) : D1 Reply :=
  if negb (String.eqb method "GET") then ret (reply methodNotAllowed)
  else
    results <- selectAllPings ;;
    ret {| reply_status := 200; payload := PingsResponse results; reply_cors := true |}.

(** [case "/api/stats/summary"] *)
Definition handle_api_stats_summary (method : string) : D1 Reply :=
  if negb (String.eqb method "GET") then ret (reply methodNotAllowed)
  else
    totalPingsResult <- totalPingsQuery ;;
    totalUniqueUsersResult <- totalUniqueUsersQuery ;;
    mostActiveUserResult <- mostActiveUserQuery ;;
    ret {| reply_status := 200;
           payload :=
             SummaryStatsResponse
               (nullish totalPingsResult 0)
               (nullish totalUniqueUsersResult 0)
               (option_map
                  (fun m => {| ipHmac := pc_ip_hmac m; pingCount := ping_count m |})
                  mostActiveUserResult);
           reply_cors := true |}.

(** What the dispatch reads of a request: its method, the path of its URL,
    the [cf-connecting-ip] header and the search parameters of its URL. *)
Record Request : Set :=
  { req_method : string;
    req_pathname : string;
    req_ip : option string;
    req_search : string -> option string }.

Section Fetch.

(** The resolution of the timestamp column, the storage engine on the
    grouped statement, and the answers of the GitHub API to the two release
    requests. *)
Variable tick : Z.
Variable all : Statement -> db -> option (list GroupedPing).
Variable releases : list Release.
Variable release : Release.

(** [fetch(request, env, ctx)]; [now] is what the worker's clock reads
    during the request, [stamp] what the database's clock reads when it
    stamps a row. *)
Definition fetch (request : Request) (env : Env) (now stamp : Z) : D1 (completion Reply) :=
  if String.eqb (req_method request) "OPTIONS" then
    ret (Normal {| reply_status := 200; payload := NoBody; reply_cors := true |})
  else
    let pathname := req_pathname request in
    if String.eqb pathname "/makefile" then
      r <- handle_makefile env (req_ip request) ;; ret (Normal (reply r))
    else if String.eqb pathname "/api/stats" then
      r <- handle_api_stats ;; ret (Normal r)
    else if String.eqb pathname "/api/releases" then
      ret (Normal
             {| reply_status := 200;
                payload :=
                  ReleasesResponse
                    (map (fun release => {| tag := tag_name release;
                                            url := html_url release |}) releases);
                reply_cors := true |})
    else if String.eqb pathname "/api/latest-release" then
      ret (Normal
             {| reply_status := 200;
                payload := LatestReleaseResponse
                             {| tag := tag_name release; url := html_url release |};
                reply_cors := true |})
    else if String.eqb pathname "/api/ping" then
      r <- handle_api_ping tick env (req_method request) (req_ip request) now stamp ;;
      ret (Normal (reply r))
    else if String.eqb pathname "/api/pings" then
      r <- handle_api_pings (req_method request) ;; ret (Normal r)
    else if String.eqb pathname "/api/stats/summary" then
      r <- handle_api_stats_summary (req_method request) ;; ret (Normal r)
    else if String.eqb pathname "/api/pings/grouped" then
      r <- handle_api_pings_grouped all (req_method request)
             (req_search request "period") (req_search request "countType")
             (Some now) ;;
      ret match r with
          | Normal r => Normal (reply r)
          | Throw => Throw
          end
    else if String.eqb pathname "/api/pings/unique-activity" then
      r <- handle_api_pings_unique_activity (req_method request)
             (req_search request "page") (req_search request "pageSize")
             (req_search request "sortBy") (req_search request "sortOrder") ;;
      ret (Normal (reply r))
    else
      ret (Normal {| reply_status := 404;
                     payload := Core (Text "Page not found!");
                     reply_cors := true |}).

End Fetch.

(** The rows and the pagination of a unique-activity response; none for any
    other response. *)
Definition responseData (r : Response) : list UniqueActivityRecord :=
  match body r with
  | UniqueActivityResponse data _ => data
  | _ => []
  end.

Definition responsePagination (r : Response) : option PaginationInfo :=
  match body r with
  | UniqueActivityResponse _ pagination => Some pagination
  | _ => None
  end.

(** The column of a row that the resolved [sortBy] names. *)
Definition sortKey (sortBy : string) : UniqueActivityRecord -> Z :=
  if String.eqb sortBy "total_pings" then total_pings else first_seen.

(** The number of stored pings of an identifier. *)
Definition pingsCount (ip : string) (d : db) : Z :=
  Z.of_nat (List.length (pingsOf ip (ip_pings d))).

(** A clock inside the range of a Date, with room for the longest window. *)
Definition clock_in_range (now : Z) : Prop :=
  - ESDate.maxTime + 184 * ESDate.msPerDay <= now <= ESDate.maxTime.

(** The value of a lowercase hexadecimal digit, and the bytes that a text
    of such digits, two for each byte, stands for. *)
Definition hexDigitValue (c : ascii) : option Z :=
  let n := Z.of_N (JS.code c) in
  if andb (48 <=? n) (n <=? 57) then Some (n - 48)
  else if andb (97 <=? n) (n <=? 102) then Some (n - 87)
  else None.

Fixpoint hex_decode (s : string) : option (list byte) :=
  match s with
  | EmptyString => Some []
  | String _ EmptyString => None
  | String high (String low rest) =>
      match hexDigitValue high, hexDigitValue low, hex_decode rest with
      | Some a, Some b, Some bs => Some (Crypto.Zbyte (16 * a + b) :: bs)
      | _, _, _ => None
      end
  end.

(* ------------------------------------------------------------------ *)
(** * The earlier revisions of the worker kept in [index.ts]           *)
(* ------------------------------------------------------------------ *)

(** The revision that keys both tables by the plain SHA-256 of the address
    (column [ip_hash]) and throttles by the hour. *)
Module Revision2.

Definition shouldRecordPing (lastPingResult : option PingRow) (currentTime : Z) : bool :=
  match lastPingResult with
  | Some last =>
      let lastPingTime := ping_timestamp last in
      let hoursDifference :=
        (inject_Z (currentTime - lastPingTime) / inject_Z (durationToMs 1 hours))%Q in
      Qle_bool 1 hoursDifference
  | None => true
  end.

(** [case "/api/ping"]; the rows of [ip_registry] are their [ip_hash], and
    the identifier of a row of [ip_pings] is its [ip_hash]. *)
Definition handle_api_ping (tick : Z) (method : string) (ip : option string)
    (currentTime stamp : Z) : D1 Response :=
  if negb (String.eqb method "POST") then
    ret {| status := 405; body := Text "Method Not Allowed"; cors := false |}
  else
    match JS.whenTruthy ip with
    | Some ip =>
        let ipHash := generate256Hash ip in
        _ <- insertRegistryOnConflictDoNothing ipHash ;;
        lastPingResult <- selectLastPing ipHash ;;
        if shouldRecordPing lastPingResult currentTime then
          _ <- insertPing tick stamp ipHash ;;
          ret {| status := 200;
                 body := PingResponse true "Ping recorded successfully";
                 cors := false |}
        else
          ret {| status := 200;
                 body := PingResponse false
                           "Ping not recorded - less than 1 hour since last ping";
                 cors := false |}
    | None =>
        ret {| status := 400;
               body := PingResponse false "IP address not found in request";
               cors := false |}
    end.

End Revision2.

(** The revision whose registry holds both the SHA-256 of the address
    ([ip_hash], the key) and its HMAC ([ip_hmac]), and rewrites the HMAC on
    conflict. *)
Module Revision3.

Record Hashes : Set := { sha : string; hmac : string }.

Definition generateDoubleHash (ip secret : string) : Hashes :=
  let sha := generate256Hash ip in
  let hmac := generateHMAC256 sha secret in
  {| sha := sha; hmac := hmac |}.

Record RegistryRow : Set := { ip_hash : string; ip_hmac : string }.

(** [INSERT INTO ip_registry (ip_hash, ip_hmac) VALUES (?, ?)
     ON CONFLICT(ip_hash) DO UPDATE SET ip_hmac = EXCLUDED.ip_hmac] *)
Definition upsertRow (sha hmac : string) (registry : list RegistryRow) : list RegistryRow :=
  if existsb (fun row => String.eqb (ip_hash row) sha) registry
  then map (fun row => if String.eqb (ip_hash row) sha
                       then {| ip_hash := ip_hash row; ip_hmac := hmac |}
                       else row) registry
  else registry ++ [{| ip_hash := sha; ip_hmac := hmac |}].

(** [upsertIp(ip, env)], on the registry: the registry after the call and
    the hashes returned. *)
Definition upsertIp (ip : string) (env : Env) (registry : list RegistryRow)
  : Hashes * list RegistryRow :=
  let hashes := generateDoubleHash ip (IP_HASH_PEPPER env) in
  (hashes, upsertRow (sha hashes) (hmac hashes) registry).

End Revision3.

(** [Number.MAX_SAFE_INTEGER]: up to it a JS number holds every integer
    exactly, so that the integers of the model are those of the program. *)
Definition MAX_SAFE_INTEGER : Z := 2 ^ 53 - 1.

(** Sample data for the instances: a second visitor, who downloads the
    makefile and pings once; a pepper after a change; requests without a
    query string; a storage engine that fails; a release. *)
Definition sample_other : string := "198.51.100.23".

Definition sample_visitors : db :=
  serve 1000 sample_env (Ping "POST" (Some sample_other) 9000 9000)
    (serve 1000 sample_env (Makefile (Some sample_other)) sample_db3).

Definition sample_row : UniqueActivityRecord :=
  {| ua_ip_hmac := sample_id; first_seen := 5000; last_seen := 1805000; total_pings := 2 |}.


Definition sample_request (method pathname : string) (ip : option string) : Request :=
  {| req_method := method; req_pathname := pathname; req_ip := ip;
     req_search := fun _ => None |}.

Definition sample_all : Statement -> db -> option (list GroupedPing) := fun _ _ => None.

Definition sample_release : Release :=
  {| tag_name := "v1.0.0";
     html_url := "https://github.com/zane-ops/zane-ops/releases/tag/v1.0.0" |}.

Definition sample_now : Z := 1700000000000.

(* ------------------------------------------------------------------ *)
(** * Test vectors                                                     *)
(* ------------------------------------------------------------------ *)

(** The ends of the table of constants and of the initial hash value, as
    FIPS 180-4 prints them. *)
Example sha256_constants :
  nth 0 Crypto.K256 0 = 0x428a2f98 /\ nth 1 Crypto.K256 0 = 0x71374491
  /\ nth 63 Crypto.K256 0 = 0xc67178f2 /\ List.length Crypto.K256 = 64%nat
  /\ Crypto.sa Crypto.H256_init = 0x6a09e667
  /\ Crypto.sh Crypto.H256_init = 0x5be0cd19.
Proof. repeat split; vm_compute; reflexivity. Qed.

(** FIPS 180-4, the one-block message. *)
Example sha256_abc :
  generate256Hash "abc"
  = "ba7816bf8f01cfea414140de5dae2223b00361a396177a9cb410ff61f20015ad".
Proof. vm_compute. reflexivity. Qed.

Example sha256_empty :
  generate256Hash ""
  = "e3b0c44298fc1c149afbf4c8996fb92427ae41e4649b934ca495991b7852b855".
Proof. vm_compute. reflexivity. Qed.

(** FIPS 180-4, the two-block message. *)
Example sha256_two_blocks :
  generate256Hash "abcdbcdecdefdefgefghfghighijhijkijkljklmklmnlmnomnopnopq"
  = "248d6a61d20638b8e5c026930c3e6039a33ce45964ff2167f6ecedd419db06c1".
Proof. vm_compute. reflexivity. Qed.

(** RFC 4231, test case 2. *)
Example hmac_rfc4231_2 :
  generateHMAC256 "what do ya want for nothing?" "Jefe"
  = "5bdcc146bf60754e6a042426089575c75a003f089d2739839dec58b964ec3843".
Proof. vm_compute. reflexivity. Qed.

Example parseInt_examples :
  JS.parseInt "42" = Some 42 /\ JS.parseInt "  -12abc" = Some (-12)
  /\ JS.parseInt "+7" = Some 7 /\ JS.parseInt "abc" = None
  /\ JS.parseInt "" = None /\ JS.parseInt "-" = None /\ JS.parseInt "1e3" = Some 1
  /\ JS.parseInt "0x10" = Some 0 /\ JS.parseInt "3.9" = Some 3.
Proof. repeat split; reflexivity. Qed.

Example isoString_examples :
  ESDate.isoString 1704164645123 = "2024-01-02T03:04:05.123Z"
  /\ ESDate.isoString 0 = "1970-01-01T00:00:00.000Z"
  /\ ESDate.isoString (-1) = "1969-12-31T23:59:59.999Z"
  /\ ESDate.isoString 951782400000 = "2000-02-29T00:00:00.000Z"
  /\ ESDate.isoString 4107542400000 = "2100-03-01T00:00:00.000Z"
  /\ ESDate.isoString 8640000000000000 = "+275760-09-13T00:00:00.000Z"
  /\ ESDate.isoString (-8640000000000000) = "-271821-04-20T00:00:00.000Z".
Proof. repeat split; vm_compute; reflexivity. Qed.

(** The windows of the grouped endpoint on 2 January 2024, 03:04:05.123. *)
Example getDateRange_examples :
  getDateRange "24h" (Some 1704164645123)
  = Normal (Some {| startISO := "2024-01-01T03:04:05.123Z";
                    endISO := "2024-01-02T03:04:05.123Z" |})
  /\ getDateRange "7d" (Some 1704164645123)
  = Normal (Some {| startISO := "2023-12-26T00:00:00.000Z";
                    endISO := "2024-01-02T03:04:05.123Z" |})
  /\ getDateRange "6month" (Some 1704164645123)
  = Normal (Some {| startISO := "2023-07-02T00:00:00.000Z";
                    endISO := "2024-01-02T03:04:05.123Z" |})
  /\ getDateRange "all" (Some 1704164645123) = Normal None.
Proof. repeat split; vm_compute; reflexivity. Qed.

(* ------------------------------------------------------------------ *)
(** * The throttle                                                     *)
(* ------------------------------------------------------------------ *)

Lemma MIN_INTERVAL_value : MIN_INTERVAL = 1800000.
Proof. reflexivity. Qed.

(** The quotient test of the handler is the comparison of the elapsed time
    with the interval. *)
Lemma shouldRecordPing_Some (r : PingRow) (now : Z) :
  shouldRecordPing (Some r) now = (MIN_INTERVAL <=? now - ping_timestamp r).
Proof.
  unfold shouldRecordPing, MIN_INTERVAL.
  change (durationToMs 30 minutes) with 1800000.
  unfold Qle_bool, Qdiv, Qmult, Qinv, inject_Z; cbn.
  destruct (Z.leb_spec 1800000 ((now - ping_timestamp r) * 1));
    destruct (Z.leb_spec 1800000 (now - ping_timestamp r)); lia.
Qed.

Lemma whenTruthy_Some (s : string) : s <> "" -> JS.whenTruthy (Some s) = Some s.
Proof. destruct s; [congruence | reflexivity]. Qed.

Lemma upsertIp_run (ip : string) (env : Env) (d : db) :
  upsertIp ip env d =
  ({| hmac := generateDoubleHash ip (IP_HASH_PEPPER env) |},
   snd (insertRegistryOnConflictDoNothing (generateDoubleHash ip (IP_HASH_PEPPER env)) d)).
Proof.
  unfold upsertIp, bind, ret.
  destruct (insertRegistryOnConflictDoNothing _ d) as [[] d']; reflexivity.
Qed.

Lemma insertRegistry_pings (id : string) (d : db) :
  ip_pings (snd (insertRegistryOnConflictDoNothing id d)) = ip_pings d.
Proof.
  unfold insertRegistryOnConflictDoNothing.
  destruct (existsb _ _); reflexivity.
Qed.

(** The ping handler on a POST that carries an address, step by step. *)
Lemma handle_api_ping_run (tick : Z) (env : Env) (ip : string) (now stamp : Z) (d : db) :
  ip <> "" ->
  let id := generateDoubleHash ip (IP_HASH_PEPPER env) in
  let d1 := snd (insertRegistryOnConflictDoNothing id d) in
  handle_api_ping tick env "POST" (Some ip) now stamp d =
  if shouldRecordPing (latest (pingsOf id (ip_pings d))) now
  then ({| status := 200; body := PingResponse true "Ping recorded successfully";
           cors := false |},
        snd (insertPing tick stamp id d1))
  else ({| status := 200;
           body := PingResponse false
                     "Ping not recorded - less than 30 minutes since last ping";
           cors := false |}, d1).
Proof.
  intros Hip id d1.
  unfold handle_api_ping.
  change (negb (String.eqb "POST" "POST")) with false. cbv iota.
  rewrite (whenTruthy_Some ip Hip).
  unfold bind at 1. rewrite upsertIp_run. fold id. fold d1. cbn [hmac].
  unfold bind at 1. unfold selectLastPing.
  assert (Hp : ip_pings d1 = ip_pings d) by apply insertRegistry_pings.
  rewrite Hp.
  destruct (shouldRecordPing _ now); reflexivity.
Qed.

(** [latest] answers with a row of the list whose timestamp is the greatest,
    and with nothing only on the empty list. *)
Lemma latest_fold_max (rows : list PingRow) (best : option PingRow) :
  let step := fun (best : option PingRow) r =>
                match best with
                | None => Some r
                | Some b => if ping_timestamp b <? ping_timestamp r then Some r else Some b
                end in
  match fold_left step rows best with
  | Some m =>
      (In m rows \/ best = Some m)
      /\ (forall r, In r rows -> ping_timestamp r <= ping_timestamp m)
      /\ (forall b, best = Some b -> ping_timestamp b <= ping_timestamp m)
  | None => rows = [] /\ best = None
  end.
Proof.
  intros step. revert best.
  induction rows as [|r rows IH]; intros best; cbn [fold_left].
  - destruct best as [b|]; [|auto].
    split; [auto|]. split; [intros ? []|]. intros b' [= ->]; lia.
  - specialize (IH (step best r)).
    destruct (fold_left step rows (step best r)) as [m|].
    + destruct IH as (Hin & Hmax & Hbest).
      assert (Hr : ping_timestamp r <= ping_timestamp m
                   /\ forall b, best = Some b -> ping_timestamp b <= ping_timestamp m).
      { destruct best as [b|]; cbn [step] in Hbest.
        - destruct (Z.ltb_spec (ping_timestamp b) (ping_timestamp r)).
          + specialize (Hbest r eq_refl). split; [lia|]. intros b' [= <-]; lia.
          + specialize (Hbest b eq_refl). split; [lia|]. intros b' [= <-]; lia.
        - specialize (Hbest r eq_refl). split; [lia|]. intros b' [=]. }
      destruct Hr as [Hr Hb].
      split; [|split].
      * destruct Hin as [Hin|Hin]; [left; right; exact Hin|].
        destruct best as [b|]; cbn [step] in Hin.
        -- destruct (ping_timestamp b <? ping_timestamp r); injection Hin as <-;
             [left; left; reflexivity | right; reflexivity].
        -- injection Hin as <-. left; left; reflexivity.
      * intros r' [<-|Hr']; [exact Hr | apply Hmax, Hr'].
      * exact Hb.
    + destruct IH as [_ Hstep]. destruct best as [b|]; cbn [step] in Hstep;
        [destruct (ping_timestamp b <? ping_timestamp r)|]; discriminate.
Qed.

Lemma latest_Some (rows : list PingRow) (m : PingRow) :
  latest rows = Some m ->
  In m rows /\ forall r, In r rows -> ping_timestamp r <= ping_timestamp m.
Proof.
  intros H. pose proof (latest_fold_max rows None) as L. cbv zeta in L.
  unfold latest in H. rewrite H in L. destruct L as ([Hin|Hin] & Hmax & _);
    [auto | discriminate].
Qed.

Lemma latest_None (rows : list PingRow) : latest rows = None <-> rows = [].
Proof.
  split.
  - intros H. pose proof (latest_fold_max rows None) as L. cbv zeta in L.
    unfold latest in H. rewrite H in L. apply L.
  - intros ->. reflexivity.
Qed.


(** ** C1 *)



(* ------------------------------------------------------------------ *)
(** * The registry                                                     *)
(* ------------------------------------------------------------------ *)

Lemma existsb_eqb_In (id : string) (l : list string) :
  existsb (String.eqb id) l = true <-> In id l.
Proof.
  rewrite existsb_exists. split.
  - intros (x & Hin & Heq). apply String.eqb_eq in Heq. now subst.
  - intros Hin. exists id. split; [exact Hin | apply String.eqb_refl].
Qed.

Lemma insertRegistry_present (id : string) (d : db) :
  In id (ip_registry d) -> snd (insertRegistryOnConflictDoNothing id d) = d.
Proof.
  intros Hin. unfold insertRegistryOnConflictDoNothing.
  apply existsb_eqb_In in Hin. rewrite Hin. reflexivity.
Qed.

Lemma insertRegistry_absent (id : string) (d : db) :
  ~ In id (ip_registry d) ->
  snd (insertRegistryOnConflictDoNothing id d)
  = {| ip_registry := ip_registry d ++ [id]; ip_pings := ip_pings d |}.
Proof.
  intros Hin. unfold insertRegistryOnConflictDoNothing.
  destruct (existsb (String.eqb id) (ip_registry d)) eqn:E; [|reflexivity].
  apply existsb_eqb_In in E. contradiction.
Qed.

Lemma insertRegistry_In (id : string) (d : db) :
  In id (ip_registry (snd (insertRegistryOnConflictDoNothing id d))).
Proof.
  destruct (in_dec string_dec id (ip_registry d)) as [Hin|Hin].
  - rewrite insertRegistry_present; assumption.
  - rewrite insertRegistry_absent by assumption. cbn. apply in_or_app. right. now left.
Qed.

Lemma insertRegistry_keeps (id x : string) (d : db) :
  In x (ip_registry d) -> In x (ip_registry (snd (insertRegistryOnConflictDoNothing id d))).
Proof.
  intros Hx. destruct (in_dec string_dec id (ip_registry d)) as [Hin|Hin].
  - rewrite insertRegistry_present; assumption.
  - rewrite insertRegistry_absent by assumption. cbn. apply in_or_app. now left.
Qed.

Lemma insertRegistry_NoDup (id : string) (d : db) :
  NoDup (ip_registry d) -> NoDup (ip_registry (snd (insertRegistryOnConflictDoNothing id d))).
Proof.
  intros Hnd. destruct (in_dec string_dec id (ip_registry d)) as [Hin|Hin].
  - rewrite insertRegistry_present; assumption.
  - rewrite insertRegistry_absent by assumption. cbn.
    apply NoDup_app; [exact Hnd | repeat constructor; intros [] | ].
    intros x Hx [<-|[]]. contradiction.
Qed.


(** ** C9 *)


(* ------------------------------------------------------------------ *)
(** * Reachable states                                                 *)
(* ------------------------------------------------------------------ *)

(** What serving one request does to the database: nothing, a registry
    upsert, or a registry upsert followed by the insert of a ping that the
    throttle approved. *)
Lemma serve_cases (tick : Z) (env : Env) (req : WriteRequest) (d : db) :
  serve tick env req d = d
  \/ (exists id, serve tick env req d = snd (insertRegistryOnConflictDoNothing id d))
  \/ (exists id method ip now stamp,
        req = Ping method ip now stamp
        /\ shouldRecordPing (latest (pingsOf id (ip_pings d))) now = true
        /\ serve tick env req d
           = snd (insertPing tick stamp id (snd (insertRegistryOnConflictDoNothing id d)))).
Proof.
  destruct req as [ip | method ip now stamp]; cbn [serve].
  - unfold handle_makefile. destruct (JS.whenTruthy ip) as [a|]; [|left; reflexivity].
    right; left. exists (generateDoubleHash a (IP_HASH_PEPPER env)).
    unfold bind. rewrite upsertIp_run. reflexivity.
  - destruct (String.eqb method "POST") eqn:Em.
    + apply String.eqb_eq in Em. subst method.
      destruct ip as [[|c ip]|]; [left; reflexivity| |left; reflexivity].
      rewrite handle_api_ping_run by discriminate.
      destruct (shouldRecordPing _ now) eqn:Es.
      * right; right. eexists; exists "POST", (Some (String c ip)), now, stamp.
        split; [reflexivity|]. split; [exact Es | reflexivity].
      * right; left. eexists. reflexivity.
    + left. unfold handle_api_ping. rewrite Em. reflexivity.
Qed.

(** The identifiers of a reachable registry are unique, and every stored
    ping belongs to a registered identifier. *)
Lemma reachable_registry (tick : Z) (env : Env) (d : db) :
  reachable tick env d ->
  NoDup (ip_registry d)
  /\ forall r, In r (ip_pings d) -> In (ip_hmac r) (ip_registry d).
Proof.
  induction 1 as [|d req Hd [IHnd IHreg]].
  - split; [constructor | intros ? []].
  - destruct (serve_cases tick env req d)
      as [-> | [(id & ->) | (id & method & ip & now & stamp & _ & _ & ->)]].
    + auto.
    + split; [apply insertRegistry_NoDup, IHnd|].
      intros r Hr. rewrite insertRegistry_pings in Hr.
      apply insertRegistry_keeps, IHreg, Hr.
    + cbn [insertPing snd ip_registry ip_pings]. split; [apply insertRegistry_NoDup, IHnd|].
      intros r Hr. rewrite insertRegistry_pings in Hr.
      apply in_app_or in Hr. destruct Hr as [Hr | [<- | []]].
      * apply insertRegistry_keeps, IHreg, Hr.
      * cbn [ip_hmac]. apply insertRegistry_In.
Qed.

Lemma pingsOf_app (id : string) (rows rows' : list PingRow) :
  pingsOf id (rows ++ rows') = (pingsOf id rows ++ pingsOf id rows')%list.
Proof. apply filter_app. Qed.

Lemma timestampsOf_insertPing (tick now : Z) (id id' : string) (d : db) :
  timestampsOf id' (snd (insertPing tick now id d))
  = (timestampsOf id' d
     ++ if String.eqb id id' then [ping_timestamp_default tick now] else [])%list.
Proof.
  unfold timestampsOf. cbn [insertPing snd ip_pings].
  rewrite pingsOf_app, map_app. f_equal.
  cbn [pingsOf filter ip_hmac]. destruct (String.eqb id id'); reflexivity.
Qed.

Lemma timestampsOf_insertRegistry (id id' : string) (d : db) :
  timestampsOf id' (snd (insertRegistryOnConflictDoNothing id d)) = timestampsOf id' d.
Proof. unfold timestampsOf. now rewrite insertRegistry_pings. Qed.

Lemma spaced_snoc (interval t : Z) (ts : list Z) :
  spaced interval ts ->
  (forall t', In t' ts -> interval <= t - t') ->
  spaced interval (ts ++ [t]).
Proof.
  induction ts as [|a ts IH]; intros Hs Hall.
  - cbn. auto.
  - cbn [spaced] in Hs. destruct Hs as [Hhead Htail].
    change ((a :: ts) ++ [t])%list with (a :: (ts ++ [t]))%list. cbn [spaced].
    split.
    + destruct ts as [|b ts]; cbn [app].
      * apply Hall. now left.
      * exact Hhead.
    + apply IH; [exact Htail|]. intros t' Ht'. apply Hall. now right.
Qed.

Lemma spaced_last_two (interval a b : Z) (ts : list Z) :
  spaced interval (ts ++ [a; b]) -> interval <= b - a.
Proof.
  induction ts as [|c ts IH]; cbn [app spaced].
  - intros [H _]. exact H.
  - intros [_ H]. apply IH, H.
Qed.

(** The column default rounds down to the resolution of the column, so an
    insert that the throttle approved lands a full interval after a stored
    timestamp when the interval is a multiple of the resolution. *)
Lemma ping_timestamp_default_spaced (tick now last : Z) :
  0 < tick -> (tick | MIN_INTERVAL) -> (tick | last) ->
  MIN_INTERVAL <= now - last ->
  MIN_INTERVAL <= ping_timestamp_default tick now - last.
Proof.
  intros Htick [j Hj] [k Hk] Hle. unfold ping_timestamp_default.
  rewrite Hj, Hk in *.
  assert (j + k <= now / tick) by (apply Z.div_le_lower_bound; lia).
  nia.
Qed.

Lemma log_invariant_serve (tick : Z) (env : Env) (req : WriteRequest) (d : db) :
  0 < tick -> (tick | MIN_INTERVAL) -> in_step req ->
  log_invariant tick d -> log_invariant tick (serve tick env req d).
Proof.
  intros Htick Hdiv Hstep [Hmult Hspaced].
  destruct (serve_cases tick env req d)
    as [-> | [(id & ->) | (id & method & ip & now & stamp & -> & Hrec & ->)]].
  - split; assumption.
  - split.
    + intros r Hr. rewrite insertRegistry_pings in Hr. auto.
    + intros id'. rewrite timestampsOf_insertRegistry. auto.
  - split.
    + intros r Hr. cbn [insertPing snd ip_pings] in Hr.
      rewrite insertRegistry_pings in Hr. apply in_app_or in Hr.
      destruct Hr as [Hr | [<- | []]]; [auto|].
      cbn [ping_timestamp]. exists (stamp / tick). unfold ping_timestamp_default. lia.
    + intros id'. rewrite timestampsOf_insertPing, timestampsOf_insertRegistry.
      destruct (String.eqb id id') eqn:E; [|rewrite app_nil_r; auto].
      apply String.eqb_eq in E. subst id'.
      apply spaced_snoc; [auto|].
      intros t' Ht'. unfold timestampsOf in Ht'. apply in_map_iff in Ht'.
      destruct Ht' as (r & <- & Hr).
      destruct (latest (pingsOf id (ip_pings d))) as [m|] eqn:El.
      * apply latest_Some in El. destruct El as [Hm Hmax].
        rewrite shouldRecordPing_Some in Hrec. apply Z.leb_le in Hrec.
        assert (Hdm : (tick | ping_timestamp m)).
        { apply Hmult. unfold pingsOf in Hm. apply filter_In in Hm. apply Hm. }
        cbn [in_step] in Hstep.
        assert (Hstamp : MIN_INTERVAL <= stamp - ping_timestamp m) by lia.
        pose proof (ping_timestamp_default_spaced tick stamp _ Htick Hdiv Hdm Hstamp).
        specialize (Hmax r Hr). lia.
      * apply latest_None in El. rewrite El in Hr. destruct Hr.
Qed.

Lemma served_in_turn_log_invariant (tick : Z) (env : Env) (d : db) :
  0 < tick -> (tick | MIN_INTERVAL) -> served_in_turn tick env d -> log_invariant tick d.
Proof.
  intros Htick Hdiv. induction 1 as [|d req Hd IH Hstep].
  - split; [intros ? [] | intros id; exact I].
  - apply log_invariant_serve; assumption.
Qed.

Lemma served_in_turn_reachable (tick : Z) (env : Env) (d : db) :
  served_in_turn tick env d -> reachable tick env d.
Proof. induction 1; [apply reachable_empty | now apply reachable_serve]. Qed.

(** Run to its end without another request in between, a ping request in
    flight does what the handler does. *)
Lemma handle_api_ping_round_trips (tick : Z) (env : Env) (ip : string)
    (now stamp t0 t1 s0 s1 : Z) (d : db) :
  ip <> "" ->
  interleave tick env [(0%nat, t0, s0); (0%nat, now, s1); (0%nat, t1, stamp)] [Arrived ip] d
  = ([Answered (fst (handle_api_ping tick env "POST" (Some ip) now stamp d))],
     snd (handle_api_ping tick env "POST" (Some ip) now stamp d)).
Proof.
  intros Hip. rewrite (handle_api_ping_run tick env ip now stamp d Hip).
  cbn [interleave continueNth continue].
  unfold bind, ret. rewrite upsertIp_run. cbn [continue hmac].
  unfold bind, ret, selectLastPing. rewrite insertRegistry_pings.
  destruct (shouldRecordPing _ now); cbn [continue]; unfold bind, ret; reflexivity.
Qed.

(** ** C2 *)

(** C2, as amended.  In every database reached by serving requests one at
    a time, with the database stamping each ping no earlier than the worker
    read its clock, the timestamps stored for an identifier, in the order of
    their insertion, are each at least [MIN_INTERVAL] after the one before;
    the resolution of the timestamp column is positive and divides the
    interval.  The table itself does not enforce this: two plain inserts for
    the identifier break it. *)
Theorem stored_pings_spaced (tick : Z) (env : Env) (d : db) (id : string) :
  0 < tick -> (tick | MIN_INTERVAL) -> served_in_turn tick env d ->
  spaced MIN_INTERVAL (timestampsOf id d)
  /\ ~ spaced MIN_INTERVAL
         (timestampsOf id (snd (insertPing tick 0 id (snd (insertPing tick 0 id d))))).
Proof.
  intros Htick Hdiv Hreach. split.
  - apply (served_in_turn_log_invariant tick env d Htick Hdiv Hreach).
  - rewrite !timestampsOf_insertPing, String.eqb_refl, <- app_assoc.
    intros Hs. apply spaced_last_two in Hs.
    rewrite MIN_INTERVAL_value in Hs. lia.
Qed.

(** C2 as stated fails on requests that are served in a sequence while the
    database clock is behind the worker's, and on requests whose round trips
    overlap: in both samples the log holds two pings of the visitor less
    than [MIN_INTERVAL] apart; in the second both requests read an empty log
    before either row is written. *)
Lemma stored_pings_closer_than_interval :
  reachable 1000 sample_env sample_lagging
  /\ timestampsOf sample_id sample_lagging = [5000; 1803000]
  /\ ~ spaced MIN_INTERVAL (timestampsOf sample_id sample_lagging)
  /\ timestampsOf sample_id sample_race = [5000; 5000]
  /\ ~ spaced MIN_INTERVAL (timestampsOf sample_id sample_race)
  /\ ~ (forall d id, reachable 1000 sample_env d ->
                     spaced MIN_INTERVAL (timestampsOf id d)).
Proof.
  assert (Hreach : reachable 1000 sample_env sample_lagging).
  { unfold sample_lagging, sample_db. do 2 apply reachable_serve. apply reachable_empty. }
  assert (Hlag : timestampsOf sample_id sample_lagging = [5000; 1803000])
    by (vm_compute; reflexivity).
  assert (Hrace : timestampsOf sample_id sample_race = [5000; 5000])
    by (vm_compute; reflexivity).
  assert (Hclose : ~ spaced MIN_INTERVAL [5000; 1803000]).
  { rewrite MIN_INTERVAL_value. cbn [spaced]. lia. }
  split; [exact Hreach|]. split; [exact Hlag|]. split; [now rewrite Hlag|].
  split; [exact Hrace|]. split.
  - rewrite Hrace, MIN_INTERVAL_value. cbn [spaced]. lia.
  - intros Hall. apply Hclose. rewrite <- Hlag. apply Hall, Hreach.
Qed.

(** ** C8 *)


(* ------------------------------------------------------------------ *)
(** * The identity hasher                                              *)
(* ------------------------------------------------------------------ *)

(** Every byte prints as two hexadecimal digits. *)
Lemma hex_byte_length (b : byte) :
  String.length (JS.padStart (JS.toString16 (Byte.to_N b)) 2 "0") = 2%nat.
Proof. destruct b; reflexivity. Qed.

Lemma string_app_nil (s : string) : s ++ "" = s.
Proof. induction s as [|c s IH]; cbn; [|rewrite IH]; reflexivity. Qed.

Lemma string_app_length (s t : string) :
  String.length (s ++ t) = (String.length s + String.length t)%nat.
Proof. induction s as [|c s IH]; cbn; [|rewrite IH]; reflexivity. Qed.

Lemma hexOfBytes_cons (b : byte) (bs : list byte) :
  hexOfBytes (b :: bs)
  = JS.padStart (JS.toString16 (Byte.to_N b)) 2 "0" ++ hexOfBytes bs.
Proof.
  unfold hexOfBytes, JS.join_empty. cbn [map String.concat].
  destruct (map _ bs) eqn:E; cbn [String.concat].
  - now rewrite string_app_nil.
  - reflexivity.
Qed.

Lemma hexOfBytes_length (bs : list byte) :
  String.length (hexOfBytes bs) = (2 * List.length bs)%nat.
Proof.
  induction bs as [|b bs IH]; [reflexivity|].
  rewrite hexOfBytes_cons, string_app_length, hex_byte_length, IH.
  cbn [List.length]. lia.
Qed.

Lemma SHA256_length (msg : list byte) : List.length (Crypto.SHA256 msg) = 32%nat.
Proof. reflexivity. Qed.

(** The identifier is a string of 64 hexadecimal digits, whatever the
    address and the pepper. *)
Lemma generateDoubleHash_length (ip secret : string) :
  String.length (generateDoubleHash ip secret) = 64%nat.
Proof.
  unfold generateDoubleHash, generateHMAC256.
  rewrite hexOfBytes_length. unfold Crypto.HMAC_SHA256.
  rewrite SHA256_length. reflexivity.
Qed.

(** The digits printed by [toString(16)] and [padStart] are the two halves
    of the byte. *)
Lemma hex_byte_digits (b : byte) :
  JS.padStart (JS.toString16 (Byte.to_N b)) 2 "0"
  = String (hexDigit (Crypto.byteZ b / 16))
      (String (hexDigit (Crypto.byteZ b mod 16)) EmptyString).
Proof. destruct b; reflexivity. Qed.

Lemma hexOfBytes_hex_encode (bs : list byte) : hexOfBytes bs = hex_encode bs.
Proof.
  induction bs as [|b bs IH]; [reflexivity|].
  rewrite hexOfBytes_cons, hex_byte_digits, IH. reflexivity.
Qed.

(** ** C3 *)

(** With a secret that is not empty the key import succeeds and the helpers
    return the values of [generateHMAC256] and [generateDoubleHash]; with the
    empty secret they throw. *)
Lemma Subtle_generateDoubleHash_run (ip secret : string) :
  Subtle.generateDoubleHash ip secret
  = match secret with
    | EmptyString => Throw
    | String _ _ => Normal (generateDoubleHash ip secret)
    end.
Proof. destruct secret; reflexivity. Qed.

(** C3, as amended.  Under a pepper that is not empty, the identifier of an
    address is the hex encoding of the HMAC-SHA-256, keyed by the pepper, of
    the hex-encoded SHA-256 digest of the UTF-8 address, a text of 64
    digits.  It is that function of the address and the pepper and of
    nothing else: [upsertIp] returns it whatever the database holds.  Under
    the empty pepper the key import throws and there is no identifier. *)
Theorem generateDoubleHash_two_stage (address pepper : string) :
  (pepper <> "" ->
   Subtle.generateDoubleHash address pepper = Normal (two_stage_identifier address pepper)
   /\ String.length (two_stage_identifier address pepper) = 64%nat
   /\ forall env d,
        IP_HASH_PEPPER env = pepper ->
        fst (upsertIp address env d) = {| hmac := two_stage_identifier address pepper |})
  /\ (pepper = "" -> Subtle.generateDoubleHash address pepper = Throw).
Proof.
  assert (Hspec : generateDoubleHash address pepper = two_stage_identifier address pepper).
  { unfold generateDoubleHash, generateHMAC256, generate256Hash, two_stage_identifier,
      JS.TextEncoder_encode.
    now rewrite !hexOfBytes_hex_encode. }
  rewrite Subtle_generateDoubleHash_run. split.
  - intros Hpepper. destruct pepper as [|c pepper']; [congruence|].
    split; [now rewrite Hspec|]. split.
    + rewrite <- Hspec. apply generateDoubleHash_length.
    + intros env d E. rewrite upsertIp_run, E, Hspec. reflexivity.
  - intros ->. reflexivity.
Qed.

(** C3 as stated, for every pepper, fails at the empty pepper: the helper
    throws for every address. *)
Lemma empty_pepper_gives_no_identifier :
  Subtle.generateDoubleHash sample_ip "" = Throw
  /\ ~ (forall address pepper,
          Subtle.generateDoubleHash address pepper
          = Normal (two_stage_identifier address pepper)).
Proof.
  split; [reflexivity|]. intros Hall. specialize (Hall sample_ip ""). discriminate Hall.
Qed.

(* ------------------------------------------------------------------ *)
(** * Query parameters                                                 *)
(* ------------------------------------------------------------------ *)

Lemma includes_In (arr : list string) (v : string) :
  JS.includes arr v = true <-> In v arr.
Proof.
  induction arr as [|x arr IH]; cbn [JS.includes In].
  - split; [discriminate | intros []].
  - destruct (String.eqb_spec x v) as [->|Hne].
    + split; auto.
    + rewrite IH. split; [auto | intros [?|?]; [contradiction | assumption]].
Qed.

(** A value outside the allowed ones, an empty one or a missing one gives
    the default. *)
Lemma parseQueryParam_default (value : option string) (default : string)
    (allowed : list string) :
  (forall v, value = Some v -> ~ In v allowed) ->
  parseQueryParam value default (Some allowed) = default.
Proof.
  intros Hout. unfold parseQueryParam, JS.whenTruthy.
  destruct value as [[|c v]|]; cbn [JS.truthy]; try reflexivity.
  destruct (JS.includes allowed (String c v)) eqn:E; [|reflexivity].
  apply includes_In in E. exfalso. exact (Hout _ eq_refl E).
Qed.

(** An allowed value that is not empty is kept. *)
Lemma parseQueryParam_keep (v default : string) (allowed : list string) :
  v <> "" -> In v allowed -> parseQueryParam (Some v) default (Some allowed) = v.
Proof.
  intros Hne Hin. unfold parseQueryParam. rewrite whenTruthy_Some by exact Hne.
  apply includes_In in Hin. now rewrite Hin.
Qed.

(** With an allow-list that holds the default, the result is allowed. *)
Lemma parseQueryParam_allowed (value : option string) (default : string)
    (allowed : list string) :
  In default allowed -> In (parseQueryParam value default (Some allowed)) allowed.
Proof.
  intros Hd. unfold parseQueryParam. destruct (JS.whenTruthy value) as [v|]; [|exact Hd].
  destruct (JS.includes allowed v) eqn:E; [apply includes_In, E | exact Hd].
Qed.

Lemma resolveSortBy_cases (sortByParam : option string) :
  resolveSortBy sortByParam = "first_seen" \/ resolveSortBy sortByParam = "total_pings".
Proof.
  pose proof (parseQueryParam_allowed sortByParam "first_seen" sortByValues) as H.
  unfold resolveSortBy. cbn [sortByValues In] in H.
  destruct H as [H|[H|[]]]; auto.
Qed.

Lemma resolveSortOrder_cases (sortOrderParam : option string) :
  resolveSortOrder sortOrderParam = "asc" \/ resolveSortOrder sortOrderParam = "desc".
Proof.
  pose proof (parseQueryParam_allowed sortOrderParam "desc" sortOrderValues) as H.
  unfold resolveSortOrder. cbn [sortOrderValues In] in H.
  destruct H as [H|[H|[]]]; auto.
Qed.

(** ** C7 *)

(** C7. The [ORDER BY] line of the data query is one of four fixed texts,
    built from the allow-lists only; a [sortBy] or [sortOrder] outside its
    allow-list is replaced by its default, [first_seen] or [desc], before the
    query is built; and the text of the query is the one built from the
    resolved values: the caller's text never enters it. *)
Theorem order_by_allow_listed (sortByParam sortOrderParam : option string) :
  In (orderByClause sortByParam sortOrderParam)
     ["ORDER BY first_seen ASC"; "ORDER BY first_seen DESC";
      "ORDER BY total_pings ASC"; "ORDER BY total_pings DESC"]
  /\ In (resolveSortBy sortByParam) sortByValues
  /\ In (resolveSortOrder sortOrderParam) sortOrderValues
  /\ ((forall v, sortByParam = Some v -> ~ In v sortByValues) ->
      resolveSortBy sortByParam = "first_seen")
  /\ ((forall v, sortOrderParam = Some v -> ~ In v sortOrderValues) ->
      resolveSortOrder sortOrderParam = "desc")
  /\ ((forall v, sortByParam = Some v -> ~ In v sortByValues) ->
      (forall v, sortOrderParam = Some v -> ~ In v sortOrderValues) ->
      orderByClause sortByParam sortOrderParam = "ORDER BY first_seen DESC")
  /\ dataQuerySQL sortByParam sortOrderParam
     = dataQuerySQL (Some (resolveSortBy sortByParam))
         (Some (resolveSortOrder sortOrderParam)).
Proof.
  assert (Hby : forall p, (forall v, p = Some v -> ~ In v sortByValues) ->
                          resolveSortBy p = "first_seen")
    by (intros p; apply parseQueryParam_default).
  assert (Hord : forall p, (forall v, p = Some v -> ~ In v sortOrderValues) ->
                           resolveSortOrder p = "desc")
    by (intros p; apply parseQueryParam_default).
  repeat split.
  - unfold orderByClause.
    destruct (resolveSortBy_cases sortByParam) as [-> | ->];
      destruct (resolveSortOrder_cases sortOrderParam) as [-> | ->];
      cbn; auto.
  - apply parseQueryParam_allowed. now left.
  - apply parseQueryParam_allowed. right; now left.
  - apply Hby.
  - apply Hord.
  - intros H1 H2. unfold orderByClause. rewrite (Hby _ H1), (Hord _ H2). reflexivity.
  - unfold dataQuerySQL, orderByClause.
    assert (Eby : resolveSortBy (Some (resolveSortBy sortByParam))
                  = resolveSortBy sortByParam)
      by (destruct (resolveSortBy_cases sortByParam) as [-> | ->]; reflexivity).
    assert (Eord : resolveSortOrder (Some (resolveSortOrder sortOrderParam))
                   = resolveSortOrder sortOrderParam)
      by (destruct (resolveSortOrder_cases sortOrderParam) as [-> | ->]; reflexivity).
    now rewrite Eby, Eord.
Qed.

(* ------------------------------------------------------------------ *)
(** * Pagination                                                       *)
(* ------------------------------------------------------------------ *)

(** The quotient rounded up, in integer arithmetic. *)
Lemma Math_ceil_div (n m : Z) :
  0 < m -> Math_ceil (inject_Z n / inject_Z m)%Q = - ((- n) / m).
Proof.
  intros Hm. unfold Math_ceil, Qceiling, Qfloor, Qdiv, Qmult, Qinv, Qopp, inject_Z.
  destruct m as [|p|p]; try lia. cbn [Qnum Qden].
  f_equal. f_equal; lia.
Qed.

(** [Math.ceil(n / m)] is the least number of pages of [m] rows that hold
    [n] rows. *)
Lemma Math_ceil_spec (n m : Z) :
  0 < m ->
  let pages := Math_ceil (inject_Z n / inject_Z m)%Q in
  (pages - 1) * m < n <= pages * m.
Proof.
  intros Hm pages. unfold pages. rewrite Math_ceil_div by exact Hm.
  pose proof (Z.div_mod (- n) m ltac:(lia)).
  pose proof (Z.mod_pos_bound (- n) m Hm). nia.
Qed.

Lemma resolvePage_range (pageParam : option string) : 1 <= resolvePage pageParam.
Proof.
  unfold resolvePage.
  destruct (match JS.whenTruthy pageParam with Some p => JS.parseInt p | None => Some 1 end)
    as [n|]; [|lia].
  destruct (Z.ltb_spec n 1); lia.
Qed.

Lemma resolvePageSize_range (pageSizeParam : option string) :
  1 <= resolvePageSize pageSizeParam <= 100.
Proof.
  unfold resolvePageSize.
  destruct (match JS.whenTruthy pageSizeParam with Some p => JS.parseInt p | None => Some 10 end)
    as [n|].
  - destruct (Z.ltb_spec n 1); [cbn; lia|]. destruct (Z.ltb_spec 100 n); lia.
  - cbn. lia.
Qed.

Lemma insertBy_length {A : Type} (le : A -> A -> bool) (x : A) (l : list A) :
  List.length (insertBy le x l) = S (List.length l).
Proof.
  induction l as [|y l IH]; cbn [insertBy]; [reflexivity|].
  destruct (le x y); cbn [List.length]; [reflexivity | now rewrite IH].
Qed.

Lemma sortRows_length {A : Type} (le : A -> A -> bool) (l : list A) :
  List.length (sortRows le l) = List.length l.
Proof.
  induction l as [|x l IH]; [reflexivity|].
  unfold sortRows in *. cbn [fold_right]. now rewrite insertBy_length, IH.
Qed.

Lemma groupByIp_length (rows : list PingRow) :
  List.length (groupByIp rows) = List.length (distinctIps [] rows).
Proof. unfold groupByIp. apply length_map. Qed.

(** The engine accepts the statement for every sort parameter of the
    caller. *)
Lemma orderingOf_resolved (sortByParam sortOrderParam : option string) :
  exists le,
    orderingOf (JS.interpolate (property validSortByColumns (resolveSortBy sortByParam)))
      (JS.toUpperCase (resolveSortOrder sortOrderParam)) = Some le.
Proof.
  destruct (resolveSortBy_cases sortByParam) as [-> | ->];
    destruct (resolveSortOrder_cases sortOrderParam) as [-> | ->];
    eexists; reflexivity.
Qed.

(** The unique-activity handler on a GET, step by step. *)
Lemma handle_unique_activity_run
    (pageParam pageSizeParam sortByParam sortOrderParam : option string) (d : db) :
  let page := resolvePage pageParam in
  let size := resolvePageSize pageSizeParam in
  let items := Z.of_nat (List.length (distinctIps [] (ip_pings d))) in
  exists le,
    orderingOf (JS.interpolate (property validSortByColumns (resolveSortBy sortByParam)))
      (JS.toUpperCase (resolveSortOrder sortOrderParam)) = Some le
    /\ handle_api_pings_unique_activity "GET"
         pageParam pageSizeParam sortByParam sortOrderParam d
       = (addCors
            {| status := 200;
               body :=
                 UniqueActivityResponse
                   (firstn (Z.to_nat size)
                      (skipn (Z.to_nat ((page - 1) * size))
                         (sortRows le (groupByIp (ip_pings d)))))
                   {| totalItems := items;
                      currentPage := page;
                      pageSize := size;
                      totalPages := Math_ceil (inject_Z items / inject_Z size)%Q |};
               cors := false |}, d).
Proof.
  intros page size items.
  destruct (orderingOf_resolved sortByParam sortOrderParam) as [le Hle].
  exists le. split; [exact Hle|].
  unfold handle_api_pings_unique_activity.
  change (negb (String.eqb "GET" "GET")) with false. cbv iota.
  unfold bind, allDataQuery, firstCountQuery, ret. rewrite Hle. reflexivity.
Qed.

(** ** The numbers of the runtime *)

Lemma ofZ_exact (n : Z) : Z.abs n <= 2 ^ 53 -> Double.ofZ n = Double.Finite n.
Proof.
  intros H. unfold Double.ofZ. now destruct (Z.leb_spec (Z.abs n) (2 ^ 53)); [|lia].
Qed.

(** Beyond [2 ^ 53] the nearest double keeps the sign and stays beyond. *)
Lemma ofZ_large (n : Z) :
  2 ^ 53 < Z.abs n ->
  (exists v, Double.ofZ n = Double.Finite (Z.sgn n * v) /\ 2 ^ 53 <= v)
  \/ Double.ofZ n = Double.Infinity (n <? 0).
Proof.
  intros H. unfold Double.ofZ.
  destruct (Z.leb_spec (Z.abs n) (2 ^ 53)) as [Hle|_]; [lia|].
  set (a := Z.abs n) in *. clearbody a.
  set (e := Z.log2 a - 52).
  assert (H53 : 2 ^ 53 = 9007199254740992) by reflexivity.
  assert (Ha : 0 < a) by lia.
  destruct (Z.log2_spec a Ha) as [Hlo _].
  assert (Hlog : 53 <= Z.log2 a) by (apply Z.log2_le_pow2; lia).
  assert (He : 1 <= e) by (unfold e; lia).
  assert (Hsplit : 2 ^ Z.log2 a = 2 ^ 52 * 2 ^ e).
  { rewrite <- Z.pow_add_r by lia. f_equal. unfold e. lia. }
  assert (Hpow : 2 <= 2 ^ e).
  { change 2 with (2 ^ 1) at 1. apply Z.pow_le_mono_r; lia. }
  assert (Hq : 2 ^ 52 <= a / 2 ^ e).
  { apply Z.div_le_lower_bound; lia. }
  clearbody e.
  set (q := a / 2 ^ e) in *. clearbody q.
  set (m := if orb _ _ then q + 1 else q).
  assert (Hm : q <= m) by (unfold m; destruct (orb _ _); lia).
  clearbody m.
  destruct (2 ^ 1024 <=? m * 2 ^ e); [right; reflexivity|].
  left. exists (m * 2 ^ e). split; [reflexivity|].
  assert (H52 : 2 ^ 52 = 4503599627370496) by reflexivity.
  rewrite H53. rewrite H52 in Hq. nia.
Qed.

(** The guards of the pagination see the nearest double as they would see
    the integer. *)
Lemma ofZ_guards (n k : Z) :
  - 2 ^ 53 < k < 2 ^ 53 ->
  Double.isNaN (Double.ofZ n) = false
  /\ Double.lt (Double.ofZ n) k = (n <? k)
  /\ Double.gt (Double.ofZ n) k = (k <? n).
Proof.
  intros Hk.
  assert (H53 : 2 ^ 53 = 9007199254740992) by reflexivity. rewrite H53 in Hk.
  destruct (Z.le_gt_cases (Z.abs n) (2 ^ 53)) as [Hn|Hn].
  - rewrite (ofZ_exact n Hn). auto.
  - destruct (ofZ_large n Hn) as [(v & -> & Hv) | ->]; rewrite H53 in *;
      cbn [Double.isNaN Double.lt Double.gt].
    + split; [reflexivity|].
      destruct (Z.ltb_spec n k), (Z.ltb_spec k n), (Z.ltb_spec (Z.sgn n * v) k),
        (Z.ltb_spec k (Z.sgn n * v)); split; try reflexivity; exfalso; nia.
    + split; [reflexivity|].
      destruct (Z.ltb_spec n 0), (Z.ltb_spec n k), (Z.ltb_spec k n);
        split; try reflexivity; exfalso; lia.
Qed.

(** The page size is an integer from 1 to 100 whatever the text: the one
    that the reading over the integers gives. *)
Lemma Double_resolvePageSize (pageSizeParam : option string) :
  Double.resolvePageSize pageSizeParam = Double.Finite (resolvePageSize pageSizeParam).
Proof.
  unfold Double.resolvePageSize, resolvePageSize, Double.parseInt.
  destruct (JS.whenTruthy pageSizeParam) as [p|]; [|reflexivity].
  destruct (JS.parseInt p) as [n|]; [|reflexivity].
  assert (H1 : - 2 ^ 53 < 1 < 2 ^ 53) by (split; reflexivity).
  assert (H100 : - 2 ^ 53 < 100 < 2 ^ 53) by (split; reflexivity).
  destruct (ofZ_guards n 1 H1) as (-> & -> & _). cbn [orb].
  destruct (Z.ltb_spec n 1) as [Hlt|Hge]; [reflexivity|].
  destruct (ofZ_guards n 100 H100) as (_ & _ & ->).
  destruct (Z.ltb_spec 100 n) as [Hgt|Hle]; [reflexivity|].
  rewrite ofZ_exact; [reflexivity|].
  assert (H53 : 2 ^ 53 = 9007199254740992) by reflexivity. rewrite H53. lia.
Qed.

(** The page: 1 without a readable page of at least 1, else the double
    nearest to the integer that the text spells. *)
Lemma Double_resolvePage (pageParam : option string) :
  Double.resolvePage pageParam
  = match JS.whenTruthy pageParam with
    | Some p =>
        match JS.parseInt p with
        | Some n => if n <? 1 then Double.Finite 1 else Double.ofZ n
        | None => Double.Finite 1
        end
    | None => Double.Finite 1
    end.
Proof.
  unfold Double.resolvePage, Double.parseInt.
  destruct (JS.whenTruthy pageParam) as [p|]; [|reflexivity].
  destruct (JS.parseInt p) as [n|]; [|reflexivity].
  assert (H1 : - 2 ^ 53 < 1 < 2 ^ 53) by (split; reflexivity).
  destruct (ofZ_guards n 1 H1) as (-> & -> & _). reflexivity.
Qed.

(** The unique-activity handler over the numbers of the runtime on a GET,
    step by step: it answers 500 when the offset is no 64-bit integer. *)
Lemma Double_handle_unique_activity_run
    (pageParam pageSizeParam sortByParam sortOrderParam : option string) (d : db) :
  let page := Double.resolvePage pageParam in
  let size := resolvePageSize pageSizeParam in
  let items := Z.of_nat (List.length (distinctIps [] (ip_pings d))) in
  let offset := Double.times (Double.minusOne page) (Double.Finite size) in
  exists le,
    Double.handle_api_pings_unique_activity "GET"
      pageParam pageSizeParam sortByParam sortOrderParam d
    = (match Double.boundInteger offset with
       | Some k =>
           {| Double.status := 200;
              Double.body :=
                Double.UniqueActivityResponse
                  (firstn (Z.to_nat size)
                     (skipn (Z.to_nat k) (sortRows le (groupByIp (ip_pings d)))))
                  {| Double.totalItems := items;
                     Double.currentPage := page;
                     Double.pageSize := Double.Finite size;
                     Double.totalPages :=
                       Double.Finite (Math_ceil (inject_Z items / inject_Z size)%Q) |};
              Double.cors := true |}
       | None =>
           {| Double.status := 500;
              Double.body := Double.Text "Error querying database";
              Double.cors := true |}
       end, d).
Proof.
  intros page size items offset.
  destruct (orderingOf_resolved sortByParam sortOrderParam) as [le Hle].
  exists le.
  pose proof (resolvePageSize_range pageSizeParam) as Hsize. fold size in Hsize.
  unfold Double.handle_api_pings_unique_activity.
  change (negb (String.eqb "GET" "GET")) with false. cbv iota.
  rewrite Double_resolvePageSize. fold page size offset.
  unfold Double.allDataQuery.
  assert (Hlimit : Double.boundInteger (Double.Finite size) = Some size).
  { cbn [Double.boundInteger].
    destruct (Z.leb_spec (- 2 ^ 63) size) as [_|Hlo];
      [|assert (H63 : 2 ^ 63 = 9223372036854775808) by reflexivity; lia].
    destruct (Z.ltb_spec size (2 ^ 63)) as [_|Hhi];
      [reflexivity|assert (H63 : 2 ^ 63 = 9223372036854775808) by reflexivity; lia]. }
  rewrite Hlimit.
  destruct (Double.boundInteger offset) as [k|].
  - unfold bind, allDataQuery, firstCountQuery, ret. rewrite Hle.
    cbn [Double.ceilOfQuotient].
    destruct (Z.eqb_spec size 0) as [E|_]; [lia | reflexivity].
  - unfold bind, firstCountQuery, ret. reflexivity.
Qed.

(** The doubles agree with the integers while the offset is an integer that
    a double holds exactly: the page is then the integer read, and the
    handler slices the sorted groups at the offset. *)
Lemma Double_resolvePage_exact (pageParam : option string) :
  resolvePage pageParam <= 2 ^ 53 ->
  Double.resolvePage pageParam = Double.Finite (resolvePage pageParam).
Proof.
  rewrite Double_resolvePage. unfold resolvePage.
  destruct (JS.whenTruthy pageParam) as [p|]; [|reflexivity].
  destruct (JS.parseInt p) as [n|]; [|reflexivity].
  destruct (Z.ltb_spec n 1); [reflexivity|].
  intros Hn. apply ofZ_exact. lia.
Qed.

Lemma Double_handle_unique_activity_exact
    (pageParam pageSizeParam sortByParam sortOrderParam : option string) (d : db) :
  let page := resolvePage pageParam in
  let size := resolvePageSize pageSizeParam in
  let items := Z.of_nat (List.length (distinctIps [] (ip_pings d))) in
  (page - 1) * size <= MAX_SAFE_INTEGER ->
  exists le,
    Double.handle_api_pings_unique_activity "GET"
      pageParam pageSizeParam sortByParam sortOrderParam d
    = ({| Double.status := 200;
          Double.body :=
            Double.UniqueActivityResponse
              (firstn (Z.to_nat size)
                 (skipn (Z.to_nat ((page - 1) * size))
                    (sortRows le (groupByIp (ip_pings d)))))
              {| Double.totalItems := items;
                 Double.currentPage := Double.Finite page;
                 Double.pageSize := Double.Finite size;
                 Double.totalPages :=
                   Double.Finite (Math_ceil (inject_Z items / inject_Z size)%Q) |};
          Double.cors := true |}, d).
Proof.
  intros page size items Hexact.
  assert (Hsafe : MAX_SAFE_INTEGER = 9007199254740991) by reflexivity.
  assert (H53 : 2 ^ 53 = 9007199254740992) by reflexivity.
  assert (H63 : 2 ^ 63 = 9223372036854775808) by reflexivity.
  pose proof (resolvePage_range pageParam) as Hpage. fold page in Hpage.
  pose proof (resolvePageSize_range pageSizeParam) as Hsize. fold size in Hsize.
  destruct (Double_handle_unique_activity_run pageParam pageSizeParam sortByParam
              sortOrderParam d) as [le Hrun].
  exists le. cbv zeta in Hrun. rewrite Hrun. fold size items.
  rewrite Double_resolvePage_exact by (fold page; nia). fold page.
  cbn [Double.minusOne]. rewrite ofZ_exact by nia.
  cbn [Double.times]. rewrite ofZ_exact by nia.
  cbn [Double.boundInteger].
  destruct (Z.leb_spec (- 2 ^ 63) ((page - 1) * size)); [|nia].
  destruct (Z.ltb_spec ((page - 1) * size) (2 ^ 63)); [reflexivity | nia].
Qed.

(** ** C4 *)

(** C4 as stated fails twice.  The page size requested as ["0"] is below
    the range and becomes the default 10, not the nearer bound 1: page sizes
    below 1 are not clamped to 1.  And far out the offset is not
    [(page - 1) * pageSize]: for the page [2 ^ 53 + 1] and the default size
    the handler binds the offset 90071992547409904, which is that product
    neither for the page read nor for the double that holds it. *)
Lemma pagination_not_as_stated :
  JS.parseInt "0" = Some 0
  /\ Double.resolvePageSize (Some "0") = Double.Finite 10
  /\ resolvePageSize (Some "0") = 10
  /\ ~ (forall p n, JS.parseInt p = Some n -> n < 1 ->
                    Double.resolvePageSize (Some p) = Double.Finite 1)
  /\ JS.parseInt "9007199254740993" = Some (2 ^ 53 + 1)
  /\ Double.resolvePage (Some "9007199254740993") = Double.Finite (2 ^ 53)
  /\ Double.times (Double.minusOne (Double.resolvePage (Some "9007199254740993")))
       (Double.resolvePageSize None)
     = Double.Finite 90071992547409904
  /\ 90071992547409904 <> (2 ^ 53 + 1 - 1) * 10
  /\ 90071992547409904 <> (2 ^ 53 - 1) * 10.
Proof.
  split; [reflexivity|]. split; [reflexivity|]. split; [reflexivity|]. split.
  - intros H. specialize (H "0" 0 eq_refl ltac:(lia)). discriminate H.
  - repeat split; try (vm_compute; reflexivity); vm_compute; discriminate.
Qed.

(** C4, amended. The page is at least 1: a missing or empty [page], one that
    [parseInt] cannot read, and one below 1 give 1; a page of at least 1 is
    the double nearest to the integer read, that integer itself up to
    [2 ^ 53].  The page size is within 1..100 for every text: a missing or
    empty [pageSize], one that [parseInt] cannot read and one below 1 give
    the default 10, one above 100 gives 100.  While the offset
    [(page - 1) * pageSize] is an integer that a number holds exactly, the
    rows of the answer are those from that offset on, at most [pageSize] of
    them, and [totalPages] is the ceiling of [totalItems / pageSize]: the
    least number of pages that hold the items. *)
Theorem pagination_resolution
    (pageParam pageSizeParam sortByParam sortOrderParam : option string) (d : db) :
  let page := resolvePage pageParam in
  let size := resolvePageSize pageSizeParam in
  let items := Z.of_nat (List.length (distinctIps [] (ip_pings d))) in
  let pages := Math_ceil (inject_Z items / inject_Z size)%Q in
  (1 <= page
   /\ (JS.whenTruthy pageParam = None -> page = 1)
   /\ (forall p, JS.whenTruthy pageParam = Some p -> JS.parseInt p = None -> page = 1)
   /\ (forall p n, JS.whenTruthy pageParam = Some p -> JS.parseInt p = Some n ->
                   page = Z.max 1 n)
   /\ Double.resolvePage pageParam
      = (if page =? 1 then Double.Finite 1 else Double.ofZ page)
   /\ (page <= 2 ^ 53 -> Double.resolvePage pageParam = Double.Finite page))
  /\ (1 <= size <= 100
      /\ Double.resolvePageSize pageSizeParam = Double.Finite size
      /\ (JS.whenTruthy pageSizeParam = None -> size = 10)
      /\ (forall p, JS.whenTruthy pageSizeParam = Some p -> JS.parseInt p = None ->
                    size = 10)
      /\ (forall p n, JS.whenTruthy pageSizeParam = Some p -> JS.parseInt p = Some n ->
                      size = if n <? 1 then 10 else Z.min 100 n))
  /\ ((page - 1) * size <= MAX_SAFE_INTEGER ->
      exists le,
        Double.handle_api_pings_unique_activity "GET"
          pageParam pageSizeParam sortByParam sortOrderParam d
        = ({| Double.status := 200;
              Double.body :=
                Double.UniqueActivityResponse
                  (firstn (Z.to_nat size)
                     (skipn (Z.to_nat ((page - 1) * size))
                        (sortRows le (groupByIp (ip_pings d)))))
                  {| Double.totalItems := items;
                     Double.currentPage := Double.Finite page;
                     Double.pageSize := Double.Finite size;
                     Double.totalPages := Double.Finite pages |};
              Double.cors := true |}, d))
  /\ (pages - 1) * size < items <= pages * size.
Proof.
  intros page size items pages.
  split; [|split; [|split]].
  - split; [apply resolvePage_range|]. unfold page.
    split; [unfold resolvePage; intros ->; reflexivity|]. split; [|split; [|split]].
    + unfold resolvePage. intros p -> ->. reflexivity.
    + unfold resolvePage. intros p n -> ->. destruct (Z.ltb_spec n 1); lia.
    + rewrite Double_resolvePage. unfold resolvePage.
      destruct (JS.whenTruthy pageParam) as [p|]; [|reflexivity].
      destruct (JS.parseInt p) as [n|]; [|reflexivity].
      destruct (Z.ltb_spec n 1); [reflexivity|].
      destruct (Z.eqb_spec n 1) as [->|]; reflexivity.
    + apply Double_resolvePage_exact.
  - split; [apply resolvePageSize_range|]. split; [apply Double_resolvePageSize|].
    unfold size, resolvePageSize.
    split; [intros ->; reflexivity|]. split.
    + intros p -> ->. reflexivity.
    + intros p n -> ->. destruct (Z.ltb_spec n 1); [reflexivity|].
      destruct (Z.ltb_spec 100 n); lia.
  - apply Double_handle_unique_activity_exact.
  - apply Math_ceil_spec. pose proof (resolvePageSize_range pageSizeParam). fold size in H. lia.
Qed.

(** ** C10 *)

(** C10, as amended.  When the resolved page is beyond the last page of the
    log and its offset is an integer that a number holds exactly, the handler
    still answers 200: the rows are empty, [currentPage] is the resolved page
    itself, and [totalItems] and [totalPages] are those of every other such
    page of the same size. *)
Theorem page_beyond_last
    (pageParam pageSizeParam sortByParam sortOrderParam : option string) (d : db) :
  let page := resolvePage pageParam in
  let size := resolvePageSize pageSizeParam in
  let items := Z.of_nat (List.length (distinctIps [] (ip_pings d))) in
  let pages := Math_ceil (inject_Z items / inject_Z size)%Q in
  pages < page ->
  (page - 1) * size <= MAX_SAFE_INTEGER ->
  Double.handle_api_pings_unique_activity "GET"
    pageParam pageSizeParam sortByParam sortOrderParam d
  = ({| Double.status := 200;
        Double.body :=
          Double.UniqueActivityResponse []
            {| Double.totalItems := items;
               Double.currentPage := Double.Finite page;
               Double.pageSize := Double.Finite size;
               Double.totalPages := Double.Finite pages |};
        Double.cors := true |}, d)
  /\ forall otherPage,
       (resolvePage otherPage - 1) * size <= MAX_SAFE_INTEGER ->
       exists rows,
         Double.handle_api_pings_unique_activity "GET"
           otherPage pageSizeParam sortByParam sortOrderParam d
         = ({| Double.status := 200;
               Double.body :=
                 Double.UniqueActivityResponse rows
                   {| Double.totalItems := items;
                      Double.currentPage := Double.Finite (resolvePage otherPage);
                      Double.pageSize := Double.Finite size;
                      Double.totalPages := Double.Finite pages |};
               Double.cors := true |}, d).
Proof.
  intros page size items pages Hbeyond Hexact. split.
  - destruct (Double_handle_unique_activity_exact pageParam pageSizeParam sortByParam
                sortOrderParam d Hexact) as (le & ->).
    fold page size items pages.
    assert (Hsize : 1 <= size <= 100) by apply resolvePageSize_range.
    assert (Hceil : (pages - 1) * size < items <= pages * size)
      by (apply Math_ceil_spec; lia).
    assert (Hskip : skipn (Z.to_nat ((page - 1) * size))
                      (sortRows le (groupByIp (ip_pings d))) = []).
    { apply skipn_all2. rewrite sortRows_length, groupByIp_length.
      fold items in Hceil. unfold items in Hceil. nia. }
    rewrite Hskip, firstn_nil. reflexivity.
  - intros otherPage Hother.
    destruct (Double_handle_unique_activity_exact otherPage pageSizeParam sortByParam
                sortOrderParam d Hother) as (le & ->).
    eexists. reflexivity.
Qed.

(** C10 as stated, for every page beyond the last, fails far out: the page
    [2 ^ 63] is beyond the one page of the sample log and the handler answers
    500, its offset being no 64-bit integer; and for the page [2 ^ 53 + 1]
    the answer names the page [2 ^ 53], the double nearest to it. *)
Lemma page_beyond_last_far_out :
  Math_ceil (inject_Z (Z.of_nat (List.length (distinctIps [] (ip_pings sample_db3))))
             / inject_Z (resolvePageSize None))%Q = 1
  /\ resolvePage (Some "9223372036854775808") = 2 ^ 63
  /\ fst (Double.handle_api_pings_unique_activity "GET" (Some "9223372036854775808")
            None None None sample_db3)
     = {| Double.status := 500;
          Double.body := Double.Text "Error querying database";
          Double.cors := true |}
  /\ resolvePage (Some "9007199254740993") = 2 ^ 53 + 1
  /\ exists rows pagination,
       fst (Double.handle_api_pings_unique_activity "GET" (Some "9007199254740993")
              None None None sample_db3)
       = {| Double.status := 200;
            Double.body := Double.UniqueActivityResponse rows pagination;
            Double.cors := true |}
       /\ Double.currentPage pagination = Double.Finite (2 ^ 53).
Proof.
  split; [vm_compute; reflexivity|]. split; [vm_compute; reflexivity|]. split; [|split].
  - destruct (Double_handle_unique_activity_run (Some "9223372036854775808") None None None
                sample_db3) as [le Hrun].
    cbv zeta in Hrun. rewrite Hrun. cbn [fst].
    assert (Hoffset : Double.boundInteger
                        (Double.times
                           (Double.minusOne (Double.resolvePage (Some "9223372036854775808")))
                           (Double.Finite (resolvePageSize None))) = None)
      by (vm_compute; reflexivity).
    rewrite Hoffset. reflexivity.
  - vm_compute. reflexivity.
  - destruct (Double_handle_unique_activity_run (Some "9007199254740993") None None None
                sample_db3) as [le Hrun].
    cbv zeta in Hrun. rewrite Hrun. cbn [fst].
    assert (Hoffset : Double.boundInteger
                        (Double.times
                           (Double.minusOne (Double.resolvePage (Some "9007199254740993")))
                           (Double.Finite (resolvePageSize None)))
                      = Some 90071992547409904)
      by (vm_compute; reflexivity).
    rewrite Hoffset. eexists. eexists. split; [reflexivity|].
    cbn [Double.currentPage]. vm_compute. reflexivity.
Qed.

(* ------------------------------------------------------------------ *)
(** * The calendar                                                     *)
(* ------------------------------------------------------------------ *)

Module ESDateFacts.
Import ESDate.

Lemma Day_TimeWithinDay (t : Z) :
  t = msPerDay * Day t + TimeWithinDay t /\ 0 <= TimeWithinDay t < msPerDay.
Proof.
  unfold Day, TimeWithinDay, msPerDay. split.
  - apply Z.div_mod. lia.
  - apply Z.mod_pos_bound. lia.
Qed.

(** The time within the day is made of its hour, minute, second and
    millisecond. *)
Lemma TimeWithinDay_fields (t : Z) :
  MakeTime (HourFromTime t) (MinFromTime t) (SecFromTime t) (msFromTime t)
  = TimeWithinDay t.
Proof.
  unfold MakeTime, HourFromTime, MinFromTime, SecFromTime, msFromTime, TimeWithinDay,
    msPerHour, msPerMinute, msPerSecond, msPerDay.
  Z.div_mod_to_equations. lia.
Qed.

Lemma Day_shift (t n : Z) : Day (t + n * msPerDay) = Day t + n.
Proof. unfold Day, msPerDay. apply Z.div_add. lia. Qed.

Lemma Day_midnight (d : Z) : Day (msPerDay * d) = d /\ TimeWithinDay (msPerDay * d) = 0.
Proof.
  unfold Day, TimeWithinDay, msPerDay. split.
  - rewrite Z.mul_comm. apply Z.div_mul. lia.
  - rewrite Z.mul_comm. apply Z.mod_mul. lia.
Qed.

Lemma DaysInYear_cases (y : Z) : DaysInYear y = 365 \/ DaysInYear y = 366.
Proof.
  unfold DaysInYear.
  destruct (y mod 4 =? 0), (y mod 100 =? 0), (y mod 400 =? 0); cbn; auto.
Qed.

(** A year is as long as the distance between its first day and the first
    day of the next. *)
Lemma DayFromYear_succ (y : Z) : DayFromYear (y + 1) = DayFromYear y + DaysInYear y.
Proof.
  unfold DayFromYear, DaysInYear.
  destruct (Z.eqb_spec (y mod 4) 0), (Z.eqb_spec (y mod 100) 0),
    (Z.eqb_spec (y mod 400) 0); cbn [negb];
    Z.div_mod_to_equations; lia.
Qed.

Lemma DayFromYear_cycle (y c : Z) :
  DayFromYear (y + 400 * c) = DayFromYear y + daysPer400Years * c.
Proof.
  unfold DayFromYear, daysPer400Years. Z.div_mod_to_equations. lia.
Qed.

Lemma DayFromYear_lt (y y' : Z) : y < y' -> DayFromYear y < DayFromYear y'.
Proof.
  intros H. unfold DayFromYear. Z.div_mod_to_equations. lia.
Qed.

(** [YearFromTime] is the year whose days hold the day of [t]. *)
Lemma YearFromTime_bounds (t : Z) :
  DayFromYear (YearFromTime t) <= Day t < DayFromYear (YearFromTime t + 1).
Proof.
  unfold YearFromTime. cbv zeta.
  set (d := Day t).
  pose proof (Z.div_mod d daysPer400Years ltac:(unfold daysPer400Years; lia)) as Hd.
  pose proof (Z.mod_pos_bound d daysPer400Years ltac:(unfold daysPer400Years; lia)) as Hr.
  set (c := d / daysPer400Years) in *. set (r := d mod daysPer400Years) in *.
  assert (Hk : 0 <= r / 365 <= 400)
    by (unfold daysPer400Years in Hr; Z.div_mod_to_equations; lia).
  set (k0 := r / 365) in *.
  assert (Hk0 : 365 * k0 <= r < 365 * k0 + 365)
    by (unfold k0; Z.div_mod_to_equations; lia).
  clearbody k0 r c.
  assert (E : forall k, DayFromYear (1970 + 400 * c + k)
                        = DayFromYear (1970 + k) + daysPer400Years * c).
  { intros k. rewrite <- DayFromYear_cycle. f_equal. lia. }
  destruct (Z.ltb_spec r (DayFromYear (1970 + k0))) as [Hlt|Hge].
  - replace (1970 + 400 * c + (k0 - 1) + 1) with (1970 + 400 * c + k0) by lia.
    rewrite !E.
    assert (DayFromYear (1970 + (k0 - 1)) <= r)
      by (unfold DayFromYear; Z.div_mod_to_equations; lia).
    lia.
  - replace (1970 + 400 * c + k0 + 1) with (1970 + 400 * c + (k0 + 1)) by lia.
    rewrite !E.
    assert (r < DayFromYear (1970 + (k0 + 1)))
      by (unfold DayFromYear; Z.div_mod_to_equations; lia).
    lia.
Qed.

(** The year is determined by these bounds. *)
Lemma YearFromTime_unique (t y : Z) :
  DayFromYear y <= Day t < DayFromYear (y + 1) -> YearFromTime t = y.
Proof.
  intros Hy. pose proof (YearFromTime_bounds t) as Ht.
  destruct (Z.lt_trichotomy (YearFromTime t) y) as [Hlt|[Heq|Hgt]]; [|exact Heq|].
  - assert (DayFromYear (YearFromTime t + 1) <= DayFromYear y).
    { destruct (Z.eq_dec (YearFromTime t + 1) y) as [->|]; [lia|].
      apply Z.lt_le_incl, DayFromYear_lt. lia. }
    lia.
  - assert (DayFromYear (y + 1) <= DayFromYear (YearFromTime t)).
    { destruct (Z.eq_dec (y + 1) (YearFromTime t)) as [->|]; [lia|].
      apply Z.lt_le_incl, DayFromYear_lt. lia. }
    lia.
Qed.

Lemma InLeapYear_DaysInYear (t : Z) : DaysInYear (YearFromTime t) = 365 + InLeapYear t.
Proof.
  unfold InLeapYear. destruct (DaysInYear_cases (YearFromTime t)) as [-> | ->]; reflexivity.
Qed.

Lemma InLeapYear_cases (t : Z) : InLeapYear t = 0 \/ InLeapYear t = 1.
Proof. unfold InLeapYear. destruct (_ =? 366); auto. Qed.

Lemma DayWithinYear_bounds (t : Z) : 0 <= DayWithinYear t < 365 + InLeapYear t.
Proof.
  unfold DayWithinYear. pose proof (YearFromTime_bounds t) as H.
  rewrite DayFromYear_succ, InLeapYear_DaysInYear in H. lia.
Qed.

Lemma monthOfDay_range (leap dwy : Z) : 0 <= monthOfDay leap dwy <= 11.
Proof.
  unfold monthOfDay.
  repeat match goal with |- context [if ?b then _ else _] => destruct b end; lia.
Qed.

(** The day within the year lies in the month that [monthOfDay] names. *)
Lemma monthOfDay_bounds (leap dwy : Z) :
  0 <= leap <= 1 -> 0 <= dwy < 365 + leap ->
  monthStart leap (monthOfDay leap dwy) <= dwy
  < monthStart leap (monthOfDay leap dwy + 1).
Proof.
  intros Hleap Hd. unfold monthOfDay.
  assert (Hl : leap = 0 \/ leap = 1) by lia.
  destruct Hl as [-> | ->]; cbn [Z.add Pos.add Pos.succ Pos.add_carry];
    repeat match goal with
           | |- context [if ?a <? ?b then _ else _] => destruct (Z.ltb_spec a b)
           end; cbn; lia.
Qed.

(** Conversely, a day within month [m] has [m] as its month. *)
Lemma monthOfDay_unique (leap dwy m : Z) :
  0 <= leap <= 1 -> 0 <= m <= 11 ->
  monthStart leap m <= dwy < monthStart leap (m + 1) ->
  monthOfDay leap dwy = m.
Proof.
  intros Hleap Hm Hd.
  assert (Hl : leap = 0 \/ leap = 1) by lia.
  assert (Hcases : m = 0 \/ m = 1 \/ m = 2 \/ m = 3 \/ m = 4 \/ m = 5 \/ m = 6
                   \/ m = 7 \/ m = 8 \/ m = 9 \/ m = 10 \/ m = 11) by lia.
  unfold monthOfDay.
  destruct Hl as [-> | ->];
    repeat destruct Hcases as [-> | Hcases]; try subst m;
    cbn in Hd |- *;
    repeat match goal with
           | |- context [if ?a <? ?b then _ else _] => destruct (Z.ltb_spec a b)
           end; lia.
Qed.

Lemma DateFromTime_lower (t : Z) : 1 <= DateFromTime t.
Proof.
  unfold DateFromTime, MonthFromTime.
  pose proof (monthOfDay_bounds (InLeapYear t) (DayWithinYear t)
                ltac:(destruct (InLeapYear_cases t); lia) (DayWithinYear_bounds t)).
  lia.
Qed.

(** Counting days from the date of [t] within its month and year. *)
Lemma MakeDay_same_month (t date : Z) :
  MakeDay (YearFromTime t) (MonthFromTime t) date = Day t + (date - DateFromTime t).
Proof.
  unfold MakeDay, DateFromTime.
  pose proof (monthOfDay_range (InLeapYear t) (DayWithinYear t)) as Hm.
  fold (MonthFromTime t) in Hm.
  rewrite (Z.div_small (MonthFromTime t) 12), (Z.mod_small (MonthFromTime t) 12) by lia.
  rewrite Z.add_0_r. change (leapOf (YearFromTime t)) with (InLeapYear t).
  unfold DayWithinYear. lia.
Qed.

Lemma leapOf_cases (y : Z) : leapOf y = 0 \/ leapOf y = 1.
Proof. unfold leapOf. destruct (_ =? 366); auto. Qed.

Lemma DaysInYear_leapOf (y : Z) : DaysInYear y = 365 + leapOf y.
Proof. unfold leapOf. destruct (DaysInYear_cases y) as [-> | ->]; reflexivity. Qed.

Lemma MakeDay_in_year (y m date : Z) :
  0 <= m <= 11 ->
  MakeDay y m date = DayFromYear y + monthStart (leapOf y) m + date - 1.
Proof.
  intros Hm. unfold MakeDay.
  rewrite (Z.div_small m 12), (Z.mod_small m 12) by lia. now rewrite Z.add_0_r.
Qed.

(** The day of [t], from the fields of its date. *)
Lemma Day_from_fields (t : Z) :
  Day t = MakeDay (YearFromTime t) (MonthFromTime t) (DateFromTime t).
Proof. rewrite MakeDay_same_month. lia. Qed.

(** Six months back: the month and the year that [MakeDay] reaches. *)
Lemma MakeDay_six_months_back (y m date : Z) :
  0 <= m <= 11 ->
  MakeDay y (m - 6) date
  = MakeDay (if m <? 6 then y - 1 else y) (if m <? 6 then m + 6 else m - 6) date.
Proof.
  intros Hm. destruct (Z.ltb_spec m 6).
  - unfold MakeDay.
    replace ((m - 6) / 12) with (-1) by (Z.div_mod_to_equations; lia).
    replace ((m - 6) mod 12) with (m + 6) by (Z.div_mod_to_equations; lia).
    rewrite (Z.div_small (m + 6) 12), (Z.mod_small (m + 6) 12) by lia.
    replace (y + -1) with (y - 1) by lia. now rewrite Z.add_0_r.
  - reflexivity.
Qed.

(** Six consecutive months have 181 to 184 days. *)
Lemma monthStart_half_year (lp lq m : Z) :
  0 <= lp <= 1 -> 0 <= lq <= 1 -> 0 <= m <= 11 ->
  (6 <= m -> 181 <= monthStart lp m - monthStart lp (m - 6) <= 184)
  /\ (m < 6 -> 181 <= 365 + lq + monthStart lp m - monthStart lq (m + 6) <= 184).
Proof.
  intros Hp Hq Hm.
  assert (Ep : lp = 0 \/ lp = 1) by lia. assert (Eq : lq = 0 \/ lq = 1) by lia.
  assert (Hcases : m = 0 \/ m = 1 \/ m = 2 \/ m = 3 \/ m = 4 \/ m = 5 \/ m = 6
                   \/ m = 7 \/ m = 8 \/ m = 9 \/ m = 10 \/ m = 11) by lia.
  destruct Ep as [-> | ->], Eq as [-> | ->];
    repeat destruct Hcases as [-> | Hcases]; try subst m; cbn; lia.
Qed.

(** The day six months before is 181 to 184 days back. *)
Lemma six_months_distance (t : Z) :
  181 <= Day t - MakeDay (YearFromTime t) (MonthFromTime t - 6) (DateFromTime t) <= 184.
Proof.
  pose proof (monthOfDay_range (InLeapYear t) (DayWithinYear t)) as Hm.
  fold (MonthFromTime t) in Hm.
  pose proof (Day_from_fields t) as Hday.
  rewrite MakeDay_six_months_back by exact Hm.
  set (y := YearFromTime t) in *. set (m := MonthFromTime t) in *.
  set (date := DateFromTime t) in *. set (d := Day t) in *. clearbody y m date d.
  rewrite (MakeDay_in_year y m) in Hday by exact Hm.
  pose proof (DayFromYear_succ (y - 1)) as Hy.
  replace (y - 1 + 1) with y in Hy by lia. rewrite DaysInYear_leapOf in Hy.
  pose proof (monthStart_half_year (leapOf y) (leapOf (y - 1)) m
                ltac:(destruct (leapOf_cases y); lia)
                ltac:(destruct (leapOf_cases (y - 1)); lia) Hm) as [Hsame Hprev].
  destruct (Z.ltb_spec m 6); rewrite MakeDay_in_year by lia; lia.
Qed.

(** A date that exists in its month is the date of the midnight that
    [MakeDay] gives. *)
Lemma fields_of_MakeDay (y m date : Z) :
  0 <= m <= 11 -> 1 <= date <= DaysInMonth y m ->
  let t := msPerDay * MakeDay y m date in
  YearFromTime t = y /\ MonthFromTime t = m /\ DateFromTime t = date.
Proof.
  intros Hm Hdate t.
  assert (Hday : Day t = MakeDay y m date) by apply Day_midnight.
  rewrite MakeDay_in_year in Hday by exact Hm.
  unfold DaysInMonth in Hdate.
  assert (Hstart : 0 <= monthStart (leapOf y) m
                   /\ monthStart (leapOf y) (m + 1) <= 365 + leapOf y).
  { assert (Hcases : m = 0 \/ m = 1 \/ m = 2 \/ m = 3 \/ m = 4 \/ m = 5 \/ m = 6
                     \/ m = 7 \/ m = 8 \/ m = 9 \/ m = 10 \/ m = 11) by lia.
    destruct (leapOf_cases y) as [-> | ->];
      repeat destruct Hcases as [-> | Hcases]; try subst m; cbn; lia. }
  assert (Hy : YearFromTime t = y).
  { apply YearFromTime_unique. rewrite DayFromYear_succ, DaysInYear_leapOf. lia. }
  assert (Hleap : InLeapYear t = leapOf y).
  { unfold InLeapYear. rewrite Hy. reflexivity. }
  assert (Hw : DayWithinYear t = monthStart (leapOf y) m + date - 1).
  { unfold DayWithinYear. rewrite Hy. lia. }
  assert (Hmonth : MonthFromTime t = m).
  { unfold MonthFromTime. rewrite Hleap, Hw.
    apply monthOfDay_unique; [destruct (leapOf_cases y); lia | exact Hm | lia]. }
  split; [exact Hy|]. split; [exact Hmonth|].
  unfold DateFromTime. rewrite Hmonth, Hleap, Hw. lia.
Qed.

Lemma TimeClip_valid (t : Z) : - maxTime <= t <= maxTime -> TimeClip t = Some t.
Proof.
  intros H. unfold TimeClip. destruct (Z.ltb_spec maxTime (Z.abs t)); [lia | reflexivity].
Qed.

(** A midnight is a valid time value when its day is within the range of
    days of a Date. *)
Lemma midnight_valid (d : Z) :
  - maxTime <= msPerDay * d + msPerDay - 1 -> msPerDay * d <= maxTime ->
  TimeClip (msPerDay * d) = Some (msPerDay * d).
Proof.
  intros Hlo Hhi. apply TimeClip_valid. unfold maxTime, msPerDay in *. lia.
Qed.

Lemma local_is_UTC (t : Z) : LocalTime t = t /\ UTC t = t.
Proof. unfold LocalTime, UTC, LocalTZA. lia. Qed.

(** [start.setHours(start.getHours() - 24)] *)
Lemma setHours_back_24 (now : Z) :
  - maxTime + 24 * msPerHour <= now <= maxTime ->
  setHours (Some now) (option_map (fun h => h - 24) (getHours (Some now)))
  = Some (now - 24 * msPerHour).
Proof.
  intros Hnow. unfold setHours, getHours, option_map.
  destruct (local_is_UTC now) as [-> _].
  rewrite (proj2 (local_is_UTC _)).
  replace (MakeDate (Day now)
             (MakeTime (HourFromTime now - 24) (MinFromTime now) (SecFromTime now)
                (msFromTime now)))
    with (now - 24 * msPerHour).
  - apply TimeClip_valid. unfold msPerHour in *. lia.
  - pose proof (TimeWithinDay_fields now) as Hf.
    pose proof (Day_TimeWithinDay now) as [Hd _].
    unfold MakeDate, MakeTime in *. lia.
Qed.

(** A Date moved to another day, up to 184 days back, and then set to
    midnight by [setHours(0, 0, 0, 0)]. *)
Lemma moved_then_snapped (now day : Z) :
  - maxTime + 184 * msPerDay <= now <= maxTime ->
  0 <= Day now - day <= 184 ->
  setHours4 (TimeClip (UTC (MakeDate day (TimeWithinDay now)))) 0 0 0 0
  = Some (msPerDay * day).
Proof.
  intros Hnow Hday.
  rewrite (proj2 (local_is_UTC _)).
  pose proof (Day_TimeWithinDay now) as [Hd Hw].
  assert (Hmoved : - maxTime <= MakeDate day (TimeWithinDay now) <= maxTime).
  { unfold MakeDate. unfold maxTime, msPerDay in *. lia. }
  rewrite (TimeClip_valid _ Hmoved).
  unfold setHours4. rewrite (proj1 (local_is_UTC _)), (proj2 (local_is_UTC _)).
  assert (Hsame : Day (MakeDate day (TimeWithinDay now)) = day).
  { unfold MakeDate, Day. rewrite Z.div_add_l by (unfold msPerDay; lia).
    rewrite (Z.div_small _ _ Hw). lia. }
  rewrite Hsame.
  assert (Hmid : MakeDate day (MakeTime 0 0 0 0) = msPerDay * day).
  { unfold MakeDate, MakeTime. lia. }
  rewrite Hmid.
  apply midnight_valid; unfold maxTime, msPerDay in *; lia.
Qed.

(** [start.setDate(start.getDate() - n); start.setHours(0, 0, 0, 0)] *)
Lemma setDate_back_snapped (now n : Z) :
  0 <= n <= 184 -> - maxTime + 184 * msPerDay <= now <= maxTime ->
  setHours4 (setDate (Some now) (option_map (fun d => d - n) (getDate (Some now))))
    0 0 0 0
  = Some (msPerDay * (Day now - n)).
Proof.
  intros Hn Hnow. unfold setDate, getDate, option_map.
  rewrite (proj1 (local_is_UTC now)), MakeDay_same_month.
  replace (Day now + (DateFromTime now - n - DateFromTime now)) with (Day now - n) by lia.
  apply moved_then_snapped; [exact Hnow | lia].
Qed.

(** [start.setMonth(start.getMonth() - 6); start.setHours(0, 0, 0, 0)] *)
Lemma setMonth_back_snapped (now : Z) :
  - maxTime + 184 * msPerDay <= now <= maxTime ->
  setHours4 (setMonth (Some now) (option_map (fun m => m - 6) (getMonth (Some now))))
    0 0 0 0
  = Some (msPerDay * MakeDay (YearFromTime now) (MonthFromTime now - 6) (DateFromTime now)).
Proof.
  intros Hnow. unfold setMonth, getMonth, option_map.
  pose proof (six_months_distance now) as Hdist.
  rewrite (proj1 (local_is_UTC now)).
  apply moved_then_snapped; [exact Hnow | lia].
Qed.

(** Midnight prints as the time [00:00:00.000]. *)
Lemma isoTime_midnight (d : Z) : isoTime (msPerDay * d) = "00:00:00.000".
Proof.
  unfold isoTime.
  assert (Hh : HourFromTime (msPerDay * d) = 0)
    by (unfold HourFromTime, msPerDay, msPerHour; Z.div_mod_to_equations; lia).
  assert (Hm : MinFromTime (msPerDay * d) = 0)
    by (unfold MinFromTime, msPerDay, msPerMinute; Z.div_mod_to_equations; lia).
  assert (Hs : SecFromTime (msPerDay * d) = 0)
    by (unfold SecFromTime, msPerDay, msPerSecond; Z.div_mod_to_equations; lia).
  assert (Hms : msFromTime (msPerDay * d) = 0)
    by (unfold msFromTime, msPerDay, msPerSecond; Z.div_mod_to_equations; lia).
  rewrite Hh, Hm, Hs, Hms. reflexivity.
Qed.

End ESDateFacts.

(* ------------------------------------------------------------------ *)
(** * Period resolution and the grouped endpoint                       *)
(* ------------------------------------------------------------------ *)

Section Periods.
Import ESDate ESDateFacts.

(** The branches of the [switch] of [getDateRange]. *)
Lemma getDateRange_branches (d : Date) :
  getDateRange "24h" d
  = isoRange (setHours d (option_map (fun h => h - 24) (getHours d))) d
  /\ getDateRange "7d" d
     = isoRange (setHours4 (setDate d (option_map (fun x => x - 7) (getDate d))) 0 0 0 0) d
  /\ getDateRange "30d" d
     = isoRange (setHours4 (setDate d (option_map (fun x => x - 30) (getDate d))) 0 0 0 0) d
  /\ getDateRange "6month" d
     = isoRange (setHours4 (setMonth d (option_map (fun m => m - 6) (getMonth d))) 0 0 0 0) d
  /\ getDateRange "all" d = Normal None.
Proof. repeat split; reflexivity. Qed.

(** [getDateRange] gives no range only for a period outside the first
    four. *)
Lemma getDateRange_30d_not_unbounded (d : Date) :
  getDateRange "30d" d = Throw
  \/ exists s e, getDateRange "30d" d = Normal (Some {| startISO := s; endISO := e |}).
Proof.
  destruct (getDateRange_branches d) as (_ & _ & -> & _).
  unfold isoRange.
  destruct (toISOString (setHours4 _ 0 0 0 0)) as [s|]; [|now left].
  destruct (toISOString d) as [e|]; [|now left].
  right. exists s, e. reflexivity.
Qed.

Lemma parsedPeriod_default (periodParam : option string) :
  (forall v, periodParam = Some v -> ~ In v periodValues) ->
  parseQueryParam periodParam "30d" (Some periodValues) = "30d".
Proof. apply parseQueryParam_default. Qed.

Variable all : Statement -> db -> option (list GroupedPing).

(** ** C5 *)

(** C5. A [period] that is missing or is none of 24h, 7d, 30d, 6month and
    all makes the grouped endpoint build the statement of, and answer as
    for, [period=30d]: the resolver replaces it before the range is
    resolved.  That statement carries the two bounds of a range, where the
    statement for [all] carries none. *)
Theorem unrecognised_period_is_default (method : string)
    (periodParam countTypeParam : option string) (now : Date) (d : db) :
  (forall v, periodParam = Some v -> ~ In v periodValues) ->
  groupedStatement periodParam countTypeParam now
  = groupedStatement (Some "30d") countTypeParam now
  /\ handle_api_pings_grouped all method periodParam countTypeParam now d
     = handle_api_pings_grouped all method (Some "30d") countTypeParam now d
  /\ (forall stmt, groupedStatement periodParam countTypeParam now = Normal stmt ->
                   exists s e, bindings stmt = [s; e])
  /\ (exists stmt, groupedStatement (Some "all") countTypeParam now = Normal stmt
                   /\ bindings stmt = [])
  /\ groupedStatement periodParam countTypeParam now
     <> groupedStatement (Some "all") countTypeParam now.
Proof.
  intros Hout.
  assert (Hstmt : groupedStatement periodParam countTypeParam now
                  = groupedStatement (Some "30d") countTypeParam now).
  { unfold groupedStatement. rewrite (parsedPeriod_default _ Hout). reflexivity. }
  assert (Hbind : forall stmt, groupedStatement (Some "30d") countTypeParam now = Normal stmt ->
                               exists s e, bindings stmt = [s; e]).
  { intros stmt. unfold groupedStatement.
    change (parseQueryParam (Some "30d") "30d" (Some periodValues)) with "30d".
    destruct (getDateRange_30d_not_unbounded now) as [-> | (s & e & ->)]; [discriminate|].
    intros [= <-]. exists s, e. reflexivity. }
  assert (Hall : exists stmt, groupedStatement (Some "all") countTypeParam now = Normal stmt
                              /\ bindings stmt = []).
  { unfold groupedStatement.
    change (parseQueryParam (Some "all") "30d" (Some periodValues)) with "all".
    rewrite (proj2 (proj2 (proj2 (proj2 (getDateRange_branches now))))).
    eexists. split; reflexivity. }
  split; [exact Hstmt|]. split; [|split; [|split]].
  - unfold handle_api_pings_grouped. rewrite Hstmt. reflexivity.
  - rewrite Hstmt. exact Hbind.
  - exact Hall.
  - rewrite Hstmt. destruct Hall as (stmt & Eall & Hnil). rewrite Eall.
    destruct (groupedStatement (Some "30d") countTypeParam now) as [stmt'|] eqn:E;
      [|discriminate].
    destruct (Hbind stmt' eq_refl) as (s & e & Hse).
    intros [= ->]. rewrite Hnil in Hse. discriminate.
Qed.

(** ** C6 *)

(** C6. For a clock [now] whose windows lie within the range of a Date: the
    window of [24h] starts exactly 24 hours before [now], at the same time of
    day; the windows of [7d] and [30d] start at 00:00:00.000 of the day 7
    and 30 days before the day of [now]; the window of [6month] starts at
    00:00:00.000 of the day that [setMonth] reaches six months back, 181 to
    184 days before, which has the date of [now] in the sixth month before
    whenever that month has such a date; every window ends at [now]; and
    [all] gives no range, and a statement without bound values. *)
Theorem period_resolution (now : Z) :
  - maxTime + 184 * msPerDay <= now <= maxTime ->
  let window := fun start =>
    Normal (Some {| startISO := isoString start; endISO := isoString now |}) in
  let y := YearFromTime now in
  let m := MonthFromTime now in
  let date := DateFromTime now in
  let start6 := msPerDay * MakeDay y (m - 6) date in
  (getDateRange "24h" (Some now) = window (now - 24 * msPerHour)
   /\ TimeWithinDay (now - 24 * msPerHour) = TimeWithinDay now)
  /\ (getDateRange "7d" (Some now) = window (msPerDay * (Day now - 7))
      /\ isoTime (msPerDay * (Day now - 7)) = "00:00:00.000")
  /\ (getDateRange "30d" (Some now) = window (msPerDay * (Day now - 30))
      /\ isoTime (msPerDay * (Day now - 30)) = "00:00:00.000")
  /\ (getDateRange "6month" (Some now) = window start6
      /\ isoTime start6 = "00:00:00.000"
      /\ 181 <= Day now - Day start6 <= 184
      /\ (date <= DaysInMonth (if m <? 6 then y - 1 else y) (if m <? 6 then m + 6 else m - 6) ->
          YearFromTime start6 = (if m <? 6 then y - 1 else y)
          /\ MonthFromTime start6 = (if m <? 6 then m + 6 else m - 6)
          /\ DateFromTime start6 = date))
  /\ getDateRange "all" (Some now) = Normal None
  /\ (forall countTypeParam, exists stmt,
        groupedStatement (Some "all") countTypeParam (Some now) = Normal stmt
        /\ bindings stmt = []).
Proof.
  intros Hnow window y m date start6.
  destruct (getDateRange_branches (Some now)) as (E24 & E7 & E30 & E6 & Eall).
  assert (Hm : 0 <= m <= 11) by apply monthOfDay_range.
  split; [|split; [|split; [|split; [|split]]]].
  - split.
    + rewrite E24, setHours_back_24 by (unfold msPerHour, msPerDay in *; lia).
      reflexivity.
    + unfold TimeWithinDay.
      replace (now - 24 * msPerHour) with (now + (-1) * msPerDay)
        by (unfold msPerHour, msPerDay; lia).
      apply Z.mod_add. unfold msPerDay. lia.
  - split; [|apply isoTime_midnight].
    rewrite E7, setDate_back_snapped by lia. reflexivity.
  - split; [|apply isoTime_midnight].
    rewrite E30, setDate_back_snapped by lia. reflexivity.
  - split; [|split; [apply isoTime_midnight|split]].
    + rewrite E6, setMonth_back_snapped by exact Hnow. reflexivity.
    + unfold start6. rewrite (proj1 (Day_midnight _)). apply six_months_distance.
    + intros Hfits. unfold start6.
      rewrite MakeDay_six_months_back by exact Hm.
      apply fields_of_MakeDay.
      * destruct (Z.ltb_spec m 6); lia.
      * split; [apply DateFromTime_lower | exact Hfits].
  - exact Eall.
  - intros countTypeParam. unfold groupedStatement.
    change (parseQueryParam (Some "all") "30d" (Some periodValues)) with "all".
    rewrite Eall. eexists. split; reflexivity.
Qed.

End Periods.

(* ------------------------------------------------------------------ *)
(** * The theorems at work on the sample deployment                    *)
(* ------------------------------------------------------------------ *)

Example sample_db_value :
  timestampsOf sample_id sample_db3 = [5000; 1805000]
  /\ sample_id = "b56143ed31676d2cdde8e222587c509bcf4bc763f69f588bab78c36d538ccafc".
Proof. split; vm_compute; reflexivity. Qed.

Lemma sample_ip_not_empty : sample_ip <> "".
Proof. discriminate. Defined.

Lemma sample_db3_reachable : reachable 1000 sample_env sample_db3.
Proof. repeat apply reachable_serve. apply reachable_empty. Defined.

Lemma sample_db3_served : served_in_turn 1000 sample_env sample_db3.
Proof.
  unfold sample_db3, sample_db.
  repeat (apply served_next; [|cbn [in_step]; lia]). apply served_none.
Defined.


Lemma stored_pings_spaced_witness :
  spaced MIN_INTERVAL (timestampsOf sample_id sample_db3).
Proof.
  assert (Htick : 0 < 1000) by lia.
  assert (Hdiv : (1000 | MIN_INTERVAL)) by (exists 1800; reflexivity).
  exact (proj1 (stored_pings_spaced 1000 sample_env sample_db3 sample_id
                  Htick Hdiv sample_db3_served)).
Defined.

Lemma generateDoubleHash_two_stage_witness :
  Subtle.generateDoubleHash sample_ip "pepper"
  = Normal (two_stage_identifier sample_ip "pepper")
  /\ String.length (two_stage_identifier sample_ip "pepper") = 64%nat
  /\ fst (upsertIp sample_ip sample_env sample_db)
     = {| hmac := two_stage_identifier sample_ip "pepper" |}
  /\ Subtle.generateDoubleHash sample_ip "" = Throw.
Proof.
  destruct (generateDoubleHash_two_stage sample_ip "pepper") as [Hset _].
  destruct (generateDoubleHash_two_stage sample_ip "") as [_ Hempty].
  destruct Hset as (Hid & Hlen & Hupsert); [discriminate|].
  split; [exact Hid|]. split; [exact Hlen|].
  split; [exact (Hupsert sample_env sample_db eq_refl) | exact (Hempty eq_refl)].
Defined.

Lemma pagination_resolution_witness :
  resolvePage (Some "0") = Z.max 1 0
  /\ resolvePageSize (Some "500") = (if 500 <? 1 then 10 else Z.min 100 500)
  /\ resolvePageSize (Some "abc") = 10
  /\ Double.resolvePage (Some "0") = Double.Finite (resolvePage (Some "0"))
  /\ exists rows,
       Double.handle_api_pings_unique_activity "GET" (Some "0") (Some "500") None None
         sample_db3
       = ({| Double.status := 200;
             Double.body :=
               Double.UniqueActivityResponse rows
                 {| Double.totalItems := 1;
                    Double.currentPage := Double.Finite 1;
                    Double.pageSize := Double.Finite 100;
                    Double.totalPages := Double.Finite 1 |};
             Double.cors := true |}, sample_db3).
Proof.
  pose proof (pagination_resolution (Some "0") (Some "500") None None sample_db3) as Hbig.
  pose proof (pagination_resolution None (Some "abc") None None sample_db3) as Hnan.
  cbv zeta in Hbig, Hnan.
  destruct Hbig as ((_ & _ & _ & Hpage & _ & Hexact) & (_ & _ & _ & _ & Hsize) & Hrun & _).
  destruct Hnan as (_ & (_ & _ & _ & Hnan & _) & _).
  split; [apply (Hpage "0" 0); reflexivity|].
  split; [apply (Hsize "500" 500); reflexivity|].
  split; [apply (Hnan "abc"); reflexivity|].
  split; [apply Hexact; vm_compute; discriminate|].
  destruct Hrun as [le Hrun]; [vm_compute; discriminate|].
  eexists. rewrite Hrun. vm_compute. reflexivity.
Defined.

Lemma bogus_not_a_period (v : string) : Some "bogus" = Some v -> ~ In v periodValues.
Proof.
  intros [= <-] H. cbn in H.
  repeat (destruct H as [H|H]; [discriminate H|]). exact H.
Defined.

Lemma unrecognised_period_is_default_witness :
  groupedStatement (Some "bogus") None (Some 1704164645123)
  = groupedStatement (Some "30d") None (Some 1704164645123).
Proof.
  exact (proj1 (unrecognised_period_is_default (fun _ _ => None) "GET" (Some "bogus")
                  None (Some 1704164645123) empty_db bogus_not_a_period)).
Defined.

Lemma period_resolution_witness :
  getDateRange "7d" (Some 1704164645123)
  = Normal (Some {| startISO := ESDate.isoString (ESDate.msPerDay * (ESDate.Day 1704164645123 - 7));
                    endISO := ESDate.isoString 1704164645123 |}).
Proof.
  assert (Hnow : - ESDate.maxTime + 184 * ESDate.msPerDay <= 1704164645123
                 <= ESDate.maxTime)
    by (unfold ESDate.maxTime, ESDate.msPerDay; lia).
  destruct (period_resolution 1704164645123 Hnow) as (_ & (H7 & _) & _).
  exact H7.
Defined.

Lemma drop_table_not_a_column (v : string) : Some "drop table" = Some v -> ~ In v sortByValues.
Proof.
  intros [= <-] H. cbn in H.
  repeat (destruct H as [H|H]; [discriminate H|]). exact H.
Defined.

Lemma order_by_allow_listed_witness :
  resolveSortBy (Some "drop table") = "first_seen".
Proof.
  destruct (order_by_allow_listed (Some "drop table") None) as (_ & _ & _ & Hby & _).
  exact (Hby drop_table_not_a_column).
Defined.



Lemma page_beyond_last_witness :
  Double.handle_api_pings_unique_activity "GET" (Some "5") None None None sample_db3
  = ({| Double.status := 200;
        Double.body :=
          Double.UniqueActivityResponse []
            {| Double.totalItems := 1;
               Double.currentPage := Double.Finite 5;
               Double.pageSize := Double.Finite 10;
               Double.totalPages := Double.Finite 1 |};
        Double.cors := true |}, sample_db3).
Proof.
  destruct (page_beyond_last (Some "5") None None None sample_db3) as [Hempty _].
  - vm_compute. reflexivity.
  - vm_compute. discriminate.
  - rewrite Hempty. vm_compute. reflexivity.
Defined.

(* ------------------------------------------------------------------ *)
(** * Sorting and grouping                                             *)
(* ------------------------------------------------------------------ *)

Section SortRows.
Context {A : Type} (le : A -> A -> bool).

Lemma insertBy_perm (x : A) (l : list A) : Permutation (insertBy le x l) (x :: l).
Proof.
  induction l as [|y l IH]; cbn [insertBy]; [reflexivity|].
  destruct (le x y); [reflexivity|].
  rewrite IH. apply perm_swap.
Qed.

Lemma sortRows_perm (l : list A) : Permutation (sortRows le l) l.
Proof.
  induction l as [|x l IH]; [reflexivity|].
  unfold sortRows in *. cbn [fold_right]. rewrite insertBy_perm. now constructor.
Qed.

Hypothesis le_total : forall a b, le a b = true \/ le b a = true.
Hypothesis le_trans : forall a b c, le a b = true -> le b c = true -> le a c = true.

Lemma insertBy_sorted (x : A) (l : list A) :
  StronglySorted (fun a b => le a b = true) l ->
  StronglySorted (fun a b => le a b = true) (insertBy le x l).
Proof.
  induction 1 as [|y l Hs IH Hall]; cbn [insertBy].
  - repeat constructor.
  - destruct (le x y) eqn:E.
    + constructor; [now constructor|].
      constructor; [exact E|].
      rewrite Forall_forall in *. intros z Hz. apply (le_trans x y z E), Hall, Hz.
    + constructor; [exact IH|].
      assert (Hyx : le y x = true) by (destruct (le_total x y); congruence).
      rewrite Forall_forall in *. intros z Hz.
      apply (Permutation_in _ (insertBy_perm x l)) in Hz.
      destruct Hz as [<-|Hz]; [exact Hyx | apply Hall, Hz].
Qed.

Lemma sortRows_sorted (l : list A) :
  StronglySorted (fun a b => le a b = true) (sortRows le l).
Proof.
  induction l as [|x l IH]; [constructor|].
  unfold sortRows in *. cbn [fold_right]. now apply insertBy_sorted.
Qed.

End SortRows.

Lemma In_firstn {A : Type} (n : nat) (l : list A) (x : A) :
  In x (firstn n l) -> In x l.
Proof. intros H. rewrite <- (firstn_skipn n l). apply in_or_app. now left. Qed.

Lemma In_skipn {A : Type} (n : nat) (l : list A) (x : A) :
  In x (skipn n l) -> In x l.
Proof. intros H. rewrite <- (firstn_skipn n l). apply in_or_app. now right. Qed.

Lemma StronglySorted_skipn {A : Type} (R : A -> A -> Prop) (n : nat) (l : list A) :
  StronglySorted R l -> StronglySorted R (skipn n l).
Proof.
  revert l. induction n as [|n IH]; intros l Hs; [exact Hs|].
  destruct l as [|x l]; [constructor|]. cbn [skipn]. apply IH.
  now inversion Hs.
Qed.

Lemma StronglySorted_firstn {A : Type} (R : A -> A -> Prop) (n : nat) (l : list A) :
  StronglySorted R l -> StronglySorted R (firstn n l).
Proof.
  revert l. induction n as [|n IH]; intros l Hs; [constructor|].
  destruct l as [|x l]; [constructor|]. cbn [firstn].
  inversion Hs as [|? ? Hs' Hall]; subst. constructor; [now apply IH|].
  rewrite Forall_forall in *. intros z Hz. apply Hall. eapply In_firstn, Hz.
Qed.

Lemma StronglySorted_impl {A : Type} (R R' : A -> A -> Prop) (l : list A) :
  (forall a b, R a b -> R' a b) -> StronglySorted R l -> StronglySorted R' l.
Proof.
  intros Himp. induction 1 as [|x l Hs IH Hall]; constructor; [exact IH|].
  rewrite Forall_forall in *. intros z Hz. apply Himp, Hall, Hz.
Qed.

(** The order by a key, ascending or descending, sorts. *)
Lemma sortRows_by_key {A : Type} (key : A -> Z) (l : list A) :
  StronglySorted (fun a b => key a <= key b) (sortRows (fun a b => key a <=? key b) l)
  /\ StronglySorted (fun a b => key b <= key a) (sortRows (fun a b => key b <=? key a) l).
Proof.
  split.
  - apply (StronglySorted_impl (fun a b => (key a <=? key b) = true)).
    + intros a b. apply Z.leb_le.
    + apply sortRows_sorted.
      * intros a b. rewrite !Z.leb_le. lia.
      * intros a b c. rewrite !Z.leb_le. lia.
  - apply (StronglySorted_impl (fun a b => (key b <=? key a) = true)).
    + intros a b. apply Z.leb_le.
    + apply sortRows_sorted.
      * intros a b. rewrite !Z.leb_le. lia.
      * intros a b c. rewrite !Z.leb_le. lia.
Qed.

(** [distinctIps] lists the identifiers of the rows that are not in [seen],
    each once. *)
Lemma distinctIps_spec (rows : list PingRow) (seen : list string) :
  NoDup (distinctIps seen rows)
  /\ forall ip, In ip (distinctIps seen rows)
                <-> In ip (map ip_hmac rows) /\ ~ In ip seen.
Proof.
  revert seen. induction rows as [|r rows IH]; intros seen; cbn [distinctIps map].
  - split; [constructor|]. intros ip. cbn. tauto.
  - destruct (existsb (String.eqb (ip_hmac r)) seen) eqn:E.
    + apply existsb_eqb_In in E. destruct (IH seen) as [Hnd Hin].
      split; [exact Hnd|]. intros ip. rewrite Hin. cbn [In].
      split; [tauto|]. intros [[<-|H] Hs]; [contradiction | tauto].
    + assert (Hr : ~ In (ip_hmac r) seen).
      { intros H. apply existsb_eqb_In in H. congruence. }
      destruct (IH (ip_hmac r :: seen)) as [Hnd Hin]. split.
      * constructor; [|exact Hnd]. rewrite Hin. cbn [In]. tauto.
      * intros ip. cbn [In]. rewrite Hin. cbn [In].
        destruct (string_dec (ip_hmac r) ip) as [<-|Hne]; tauto.
Qed.

Lemma distinctIps_In (rows : list PingRow) (ip : string) :
  In ip (distinctIps [] rows) <-> exists r, In r rows /\ ip_hmac r = ip.
Proof.
  rewrite (proj2 (distinctIps_spec rows [])), in_map_iff. cbn [In].
  split; [intros [(r & E & H) _]; eauto | intros (r & H & E); split; eauto].
Qed.

Lemma pingsOf_In (ip : string) (rows : list PingRow) (r : PingRow) :
  In r (pingsOf ip rows) <-> In r rows /\ ip_hmac r = ip.
Proof. unfold pingsOf. rewrite filter_In, String.eqb_eq. tauto. Qed.

Lemma pingsOf_cons (ip : string) (r : PingRow) (rows : list PingRow) :
  pingsOf ip (r :: rows)
  = if String.eqb (ip_hmac r) ip then r :: pingsOf ip rows else pingsOf ip rows.
Proof. reflexivity. Qed.

(** Every row is counted for exactly one of a list of distinct identifiers
    that holds its own. *)
Lemma pingsOf_partition (ids : list string) (rows : list PingRow) :
  NoDup ids -> (forall r, In r rows -> In (ip_hmac r) ids) ->
  fold_right (fun ip n => (List.length (pingsOf ip rows) + n)%nat) 0%nat ids
  = List.length rows.
Proof.
  intros Hnd. induction rows as [|r rows IH]; intros Hall.
  - clear. induction ids as [|ip ids IHi]; [reflexivity|].
    cbn [fold_right]. rewrite IHi. reflexivity.
  - cbn [List.length]. rewrite <- IH by (intros; apply Hall; now right).
    assert (Hone : forall l : list string, NoDup l ->
              fold_right (fun ip n => (List.length (pingsOf ip (r :: rows)) + n)%nat) 0%nat l
              = ((if in_dec string_dec (ip_hmac r) l then 1 else 0)
                 + fold_right (fun ip n => (List.length (pingsOf ip rows) + n)%nat) 0%nat l)%nat).
    { clear. induction l as [|ip l IHl]; intros Hnd; [reflexivity|].
      inversion Hnd as [|? ? Hnotin Hnd']; subst. cbn [fold_right]. rewrite (IHl Hnd').
      rewrite pingsOf_cons.
      destruct (String.eqb_spec (ip_hmac r) ip) as [E|E].
      - subst ip. destruct (in_dec string_dec (ip_hmac r) l); [contradiction|].
        destruct (in_dec string_dec (ip_hmac r) (ip_hmac r :: l)) as [_|n0];
          [|exfalso; apply n0; now left].
        cbn [List.length]. lia.
      - destruct (in_dec string_dec (ip_hmac r) l) as [i|n];
          destruct (in_dec string_dec (ip_hmac r) (ip :: l)) as [i'|n'].
        + lia.
        + exfalso. apply n'. now right.
        + destruct i' as [E'|i']; [congruence | contradiction].
        + lia. }
    rewrite (Hone ids Hnd).
    destruct (in_dec string_dec (ip_hmac r) ids) as [_|n]; [reflexivity|].
    exfalso. apply n, Hall. now left.
Qed.

(* ------------------------------------------------------------------ *)
(** * The listing and summary endpoints                                *)
(* ------------------------------------------------------------------ *)

(** X1. [/api/pings] never writes; on a GET it answers 200 with the whole
    log, each ping once, latest first; on any other method it answers 405
    without reading the log. *)
Theorem api_pings_latest_first (method : string) (d : db) :
  snd (handle_api_pings method d) = d
  /\ (method = "GET" ->
      exists rows,
        fst (handle_api_pings method d)
        = {| reply_status := 200; payload := PingsResponse rows; reply_cors := true |}
        /\ Permutation rows (ip_pings d)
        /\ StronglySorted (fun a b => ping_timestamp b <= ping_timestamp a) rows)
  /\ (method <> "GET" -> fst (handle_api_pings method d) = reply methodNotAllowed).
Proof.
  unfold handle_api_pings. split; [|split].
  - destruct (String.eqb method "GET"); reflexivity.
  - intros ->. eexists. split; [reflexivity|]. split.
    + apply sortRows_perm.
    + apply (sortRows_by_key ping_timestamp).
  - intros Hne. apply String.eqb_neq in Hne. now rewrite Hne.
Qed.

Lemma api_pings_reads (method : string) (d : db) : snd (handle_api_pings method d) = d.
Proof. unfold handle_api_pings. destruct (String.eqb method "GET"); reflexivity. Qed.

Lemma distinctIps_length (rows : list PingRow) :
  (List.length (distinctIps [] rows) <= List.length rows)%nat.
Proof.
  rewrite <- (length_map ip_hmac rows).
  apply NoDup_incl_length; [apply distinctIps_spec|].
  intros ip Hin. now apply (proj2 (distinctIps_spec rows [])) in Hin.
Qed.

Lemma distinctIps_nil (rows : list PingRow) : distinctIps [] rows = [] <-> rows = [].
Proof.
  split; [|intros ->; reflexivity].
  destruct rows as [|r rows]; [reflexivity|]. intros H.
  assert (Hin : In (ip_hmac r) (distinctIps [] (r :: rows)))
    by (apply distinctIps_In; exists r; split; [now left | reflexivity]).
  rewrite H in Hin. destruct Hin.
Qed.

Lemma pingCounts_In (rows : list PingRow) (c : PingCount) :
  In c (pingCounts rows) ->
  In (pc_ip_hmac c) (distinctIps [] rows)
  /\ ping_count c = Z.of_nat (List.length (pingsOf (pc_ip_hmac c) rows)).
Proof.
  unfold pingCounts. rewrite in_map_iff. intros (ip & <- & Hin). now split.
Qed.

(** The head of a list sorted downwards by a key has the greatest key. *)
Lemma hd_sorted_desc {A : Type} (key : A -> Z) (l : list A) (m : A) :
  hd_error (sortRows (fun a b => key b <=? key a) l) = Some m ->
  In m l /\ forall x, In x l -> key x <= key m.
Proof.
  intros Hhd.
  pose proof (sortRows_perm (fun a b => key b <=? key a) l) as Hperm.
  pose proof (proj2 (sortRows_by_key key l)) as Hsorted.
  destruct (sortRows (fun a b => key b <=? key a) l) as [|h t]; [discriminate|].
  injection Hhd as ->. split.
  - apply (Permutation_in _ Hperm). now left.
  - intros x Hx. apply (Permutation_in _ (Permutation_sym Hperm)) in Hx.
    destruct Hx as [<-|Hx]; [lia|].
    inversion Hsorted as [|? ? _ Hall]; subst. rewrite Forall_forall in Hall. now apply Hall.
Qed.

Lemma fold_right_count_bound (ids : list string) (rows : list PingRow) (bound : nat) :
  (forall ip, In ip ids -> (List.length (pingsOf ip rows) <= bound)%nat) ->
  (fold_right (fun ip n => (List.length (pingsOf ip rows) + n)%nat) 0%nat ids
   <= List.length ids * bound)%nat.
Proof.
  induction ids as [|ip ids IH]; intros Hb; [cbn; lia|].
  cbn [fold_right List.length].
  specialize (IH (fun x Hx => Hb x (or_intror Hx))).
  specialize (Hb ip (or_introl eq_refl)). lia.
Qed.

(** X2. [/api/stats/summary] on a GET never writes and answers 200 with:
    the number of stored pings; the number of distinct identifiers, which is
    at most the number of pings; and the most active identifier, which is
    [null] exactly when the log is empty and otherwise an identifier of the
    log with its number of pings, at least 1 and at least that of every
    other identifier, so that the pings are at most the product of the two
    numbers. *)
Theorem summary_statistics (d : db) :
  exists ids most,
    handle_api_stats_summary "GET" d
    = ({| reply_status := 200;
          payload := SummaryStatsResponse
                       (Z.of_nat (List.length (ip_pings d)))
                       (Z.of_nat (List.length ids)) most;
          reply_cors := true |}, d)
    /\ NoDup ids
    /\ (forall ip, In ip ids <-> exists r, In r (ip_pings d) /\ ip_hmac r = ip)
    /\ (List.length ids <= List.length (ip_pings d))%nat
    /\ (most = None <-> ip_pings d = [])
    /\ forall m, most = Some m ->
         In (ipHmac m) ids
         /\ pingCount m = pingsCount (ipHmac m) d
         /\ 1 <= pingCount m
         /\ (forall ip, pingsCount ip d <= pingCount m)
         /\ Z.of_nat (List.length (ip_pings d)) <= Z.of_nat (List.length ids) * pingCount m.
Proof.
  exists (distinctIps [] (ip_pings d)).
  exists (option_map (fun m => {| ipHmac := pc_ip_hmac m; pingCount := ping_count m |})
            (hd_error (sortRows (fun a b => ping_count b <=? ping_count a)
                         (pingCounts (ip_pings d))))).
  split; [reflexivity|]. split; [apply distinctIps_spec|].
  split; [apply distinctIps_In|]. split; [apply distinctIps_length|].
  destruct (hd_error _) as [c|] eqn:Hhd; cbn [option_map].
  - split.
    + split; [discriminate|]. intros Hnil. rewrite Hnil in Hhd. discriminate.
    + intros m [= <-]. cbn [ipHmac pingCount].
      apply hd_sorted_desc in Hhd. destruct Hhd as [Hin Hmax].
      destruct (pingCounts_In _ _ Hin) as [Hid Hcount].
      assert (Hall : forall ip, pingsCount ip d <= ping_count c).
      { intros ip. unfold pingsCount.
        destruct (in_dec string_dec ip (distinctIps [] (ip_pings d))) as [Hip|Hip].
        - specialize (Hmax {| pc_ip_hmac := ip;
                              ping_count := Z.of_nat (List.length (pingsOf ip (ip_pings d))) |}).
          cbn [ping_count] in Hmax. apply Hmax. unfold pingCounts.
          apply in_map_iff. exists ip. now split.
        - assert (Hnone : pingsOf ip (ip_pings d) = []).
          { destruct (pingsOf ip (ip_pings d)) as [|r rest] eqn:E; [reflexivity|].
            exfalso. apply Hip, distinctIps_In. exists r.
            apply pingsOf_In. rewrite E. now left. }
          rewrite Hnone, Hcount. cbn. lia. }
      assert (Hpos : 1 <= ping_count c).
      { rewrite Hcount. apply distinctIps_In in Hid. destruct Hid as (r & Hr & Hip).
        assert (Hin' : In r (pingsOf (pc_ip_hmac c) (ip_pings d)))
          by (apply pingsOf_In; now split).
        destruct (pingsOf (pc_ip_hmac c) (ip_pings d)); [destruct Hin'|].
        cbn [List.length]. lia. }
      split; [exact Hid|]. split; [exact Hcount|]. split; [exact Hpos|].
      split; [exact Hall|].
      pose proof (pingsOf_partition (distinctIps [] (ip_pings d)) (ip_pings d)
                    (proj1 (distinctIps_spec _ _))
                    (fun r Hr => proj2 (distinctIps_In _ _) (ex_intro _ r (conj Hr eq_refl))))
        as Hsum.
      pose proof (fold_right_count_bound (distinctIps [] (ip_pings d)) (ip_pings d)
                    (Z.to_nat (ping_count c))) as Hbound.
      rewrite Hsum in Hbound.
      assert (Hle : (List.length (ip_pings d)
                     <= List.length (distinctIps [] (ip_pings d)) * Z.to_nat (ping_count c))%nat).
      { apply Hbound. intros ip _. specialize (Hall ip). unfold pingsCount in Hall. lia. }
      nia.
  - split; [|discriminate]. split; [|reflexivity]. intros _.
    assert (Hnil : pingCounts (ip_pings d) = []).
    { pose proof (sortRows_perm (fun a b => ping_count b <=? ping_count a)
                    (pingCounts (ip_pings d))) as Hperm.
      destruct (sortRows _ (pingCounts (ip_pings d))); [|discriminate].
      now apply Permutation_nil in Hperm. }
    unfold pingCounts in Hnil. apply map_eq_nil in Hnil. now apply distinctIps_nil.
Qed.

(** X3. In every database reached by serving requests, the identifiers of
    the registry are distinct, every stored ping belongs to a registered
    identifier, and so the distinct identifiers that [/api/stats/summary]
    counts are at most the total that [/api/stats] reports. *)
Theorem registry_covers_pinging_visitors (tick : Z) (env : Env) (d : db) :
  reachable tick env d ->
  NoDup (ip_registry d)
  /\ (forall r, In r (ip_pings d) -> In (ip_hmac r) (ip_registry d))
  /\ exists total unique most,
       handle_api_stats d
       = ({| reply_status := 200; payload := StatsResponse total; reply_cors := false |}, d)
       /\ fst (handle_api_stats_summary "GET" d)
          = {| reply_status := 200;
               payload := SummaryStatsResponse (Z.of_nat (List.length (ip_pings d)))
                            unique most;
               reply_cors := true |}
       /\ unique <= total.
Proof.
  intros Hreach. destruct (reachable_registry tick env d Hreach) as [Hnd Hreg].
  split; [exact Hnd|]. split; [exact Hreg|].
  do 3 eexists. split; [reflexivity|]. split; [reflexivity|].
  apply Nat2Z.inj_le. apply NoDup_incl_length; [apply distinctIps_spec|].
  intros ip Hin. apply distinctIps_In in Hin. destruct Hin as (r & Hr & <-). now apply Hreg.
Qed.

(* ------------------------------------------------------------------ *)
(** * The rows of the unique-activity endpoint                         *)
(* ------------------------------------------------------------------ *)

Lemma fold_min_lower (ts : list Z) (t : Z) :
  (forall x, In x ts -> t <= x) -> fold_left Z.min ts t = t.
Proof.
  revert t. induction ts as [|a ts IH]; intros t Hall; [reflexivity|].
  cbn [fold_left]. rewrite Z.min_l by (apply Hall; now left).
  apply IH. intros x Hx. apply Hall. now right.
Qed.

(** [minimum] and [maximum] of a list that is not empty are members of it
    and bound it. *)
Lemma fold_min_spec (ts : list Z) (t : Z) :
  In (fold_left Z.min ts t) (t :: ts)
  /\ forall x, In x (t :: ts) -> fold_left Z.min ts t <= x.
Proof.
  revert t. induction ts as [|a ts IH]; intros t; cbn [fold_left].
  - split; [now left | intros x [<-|[]]; lia].
  - destruct (IH (Z.min t a)) as [Hin Hle]. split.
    + destruct Hin as [Hin|Hin]; [|right; right; exact Hin].
      rewrite <- Hin. destruct (Z.min_spec t a) as [[_ ->]|[_ ->]]; cbn; auto.
    + intros x [Hx|[Hx|Hx]]; [| |apply Hle; now right];
        specialize (Hle (Z.min t a) (or_introl eq_refl)); lia.
Qed.

Lemma fold_max_spec (ts : list Z) (t : Z) :
  In (fold_left Z.max ts t) (t :: ts)
  /\ forall x, In x (t :: ts) -> x <= fold_left Z.max ts t.
Proof.
  revert t. induction ts as [|a ts IH]; intros t; cbn [fold_left].
  - split; [now left | intros x [<-|[]]; lia].
  - destruct (IH (Z.max t a)) as [Hin Hle]. split.
    + destruct Hin as [Hin|Hin]; [|right; right; exact Hin].
      rewrite <- Hin. destruct (Z.max_spec t a) as [[_ ->]|[_ ->]]; cbn; auto.
    + intros x [Hx|[Hx|Hx]]; [| |apply Hle; now right];
        specialize (Hle (Z.max t a) (or_introl eq_refl)); lia.
Qed.

(** Spaced timestamps span at least one interval for each step. *)
Lemma spaced_span (interval t : Z) (ts : list Z) :
  0 <= interval -> spaced interval (t :: ts) ->
  Z.of_nat (List.length ts) * interval <= maximum (t :: ts) - minimum (t :: ts).
Proof.
  intros Hi. cbn [maximum minimum].
  enough (H : spaced interval (t :: ts) ->
              Z.of_nat (List.length ts) * interval <= fold_left Z.max ts t - t
              /\ forall x, In x ts -> t <= x).
  { intros Hs. destruct (H Hs) as [Hspan Hlow]. rewrite (fold_min_lower ts t Hlow). exact Hspan. }
  revert t. induction ts as [|a ts IH]; intros t Hs.
  - cbn. split; [lia | intros x []].
  - cbn [spaced] in Hs. destruct Hs as [Hstep Hrest].
    destruct (IH a Hrest) as [Hspan Hlow].
    cbn [fold_left List.length]. rewrite Z.max_r by lia. split; [lia|].
    intros x [<-|Hx]; [lia|]. specialize (Hlow x Hx). lia.
Qed.

(** The rows of [GROUP BY ip_hmac]: the aggregates of each identifier. *)
Lemma groupByIp_In (rows : list PingRow) (row : UniqueActivityRecord) :
  In row (groupByIp rows) ->
  let ts := map ping_timestamp (pingsOf (ua_ip_hmac row) rows) in
  ts <> []
  /\ first_seen row = minimum ts
  /\ last_seen row = maximum ts
  /\ total_pings row = Z.of_nat (List.length ts).
Proof.
  unfold groupByIp. rewrite in_map_iff. intros (ip & <- & Hin). cbn.
  split; [|auto]. apply distinctIps_In in Hin. destruct Hin as (r & Hr & Hip).
  assert (Hin : In r (pingsOf ip rows)) by (apply pingsOf_In; now split).
  destruct (pingsOf ip rows); [destruct Hin | discriminate].
Qed.

Lemma groupByIp_ids (rows : list PingRow) :
  map ua_ip_hmac (groupByIp rows) = distinctIps [] rows.
Proof.
  unfold groupByIp. rewrite map_map. cbn [ua_ip_hmac]. apply map_id.
Qed.

(** The rows of a page are rows of the grouping. *)
Lemma responseData_incl
    (pageParam pageSizeParam sortByParam sortOrderParam : option string) (d : db)
    (row : UniqueActivityRecord) :
  In row (responseData (fst (handle_api_pings_unique_activity "GET"
                               pageParam pageSizeParam sortByParam sortOrderParam d))) ->
  In row (groupByIp (ip_pings d)).
Proof.
  destruct (handle_unique_activity_run pageParam pageSizeParam sortByParam
              sortOrderParam d) as (le & _ & ->).
  cbn [fst responseData addCors body]. intros Hin.
  apply In_firstn, In_skipn in Hin.
  now apply (Permutation_in _ (sortRows_perm le _)) in Hin.
Qed.

(** X4. Every row of a unique-activity response describes an identifier of
    the log: [total_pings] is the number of its stored pings, at least 1,
    and [first_seen] and [last_seen] are the least and the greatest of
    their timestamps. *)
Theorem activity_row_aggregates
    (pageParam pageSizeParam sortByParam sortOrderParam : option string) (d : db)
    (row : UniqueActivityRecord) :
  In row (responseData (fst (handle_api_pings_unique_activity "GET"
                               pageParam pageSizeParam sortByParam sortOrderParam d))) ->
  let ts := timestampsOf (ua_ip_hmac row) d in
  total_pings row = pingsCount (ua_ip_hmac row) d
  /\ 1 <= total_pings row
  /\ In (first_seen row) ts /\ In (last_seen row) ts
  /\ (forall t, In t ts -> first_seen row <= t <= last_seen row).
Proof.
  intros Hin. apply responseData_incl, groupByIp_In in Hin. cbv zeta in *.
  change (map ping_timestamp (pingsOf (ua_ip_hmac row) (ip_pings d)))
    with (timestampsOf (ua_ip_hmac row) d) in Hin.
  destruct Hin as (Hne & Hfirst & Hlast & Htotal).
  assert (Hlen : List.length (timestampsOf (ua_ip_hmac row) d)
                 = List.length (pingsOf (ua_ip_hmac row) (ip_pings d)))
    by (unfold timestampsOf; apply length_map).
  unfold pingsCount. rewrite Hfirst, Hlast, Htotal, <- Hlen. clear Hfirst Hlast Htotal Hlen.
  destruct (timestampsOf (ua_ip_hmac row) d) as [|t0 rest]; [congruence|].
  split; [reflexivity|]. split; [cbn [List.length]; lia|]. cbn [minimum maximum].
  destruct (fold_min_spec rest t0) as [Hmin_in Hmin], (fold_max_spec rest t0) as [Hmax_in Hmax].
  split; [exact Hmin_in|]. split; [exact Hmax_in|].
  intros t Ht. split; [apply Hmin, Ht | apply Hmax, Ht].
Qed.

(** X5. In every database reached by serving requests one at a time with
    the database stamping each ping no earlier than the worker read its
    clock (the resolution of the timestamp column positive and dividing the
    interval), every row of a unique-activity response obeys the throttle:
    an identifier seen [total_pings] times was seen over at least
    [total_pings - 1] intervals.  Requests that overlap, or a database clock
    behind the worker's, can store pings closer than that. *)
Theorem activity_rows_respect_throttle (tick : Z) (env : Env) (d : db)
    (pageParam pageSizeParam sortByParam sortOrderParam : option string)
    (row : UniqueActivityRecord) :
  0 < tick -> (tick | MIN_INTERVAL) -> served_in_turn tick env d ->
  In row (responseData (fst (handle_api_pings_unique_activity "GET"
                               pageParam pageSizeParam sortByParam sortOrderParam d))) ->
  (total_pings row - 1) * MIN_INTERVAL <= last_seen row - first_seen row.
Proof.
  intros Htick Hdiv Hreach Hin. apply responseData_incl, groupByIp_In in Hin.
  cbv zeta in Hin. fold (timestampsOf (ua_ip_hmac row) d) in Hin.
  destruct Hin as (Hne & -> & -> & ->).
  destruct (served_in_turn_log_invariant tick env d Htick Hdiv Hreach) as [_ Hspaced].
  specialize (Hspaced (ua_ip_hmac row)).
  destruct (timestampsOf (ua_ip_hmac row) d) as [|t0 rest]; [congruence|].
  pose proof (spaced_span MIN_INTERVAL t0 rest ltac:(rewrite MIN_INTERVAL_value; lia) Hspaced).
  cbn [List.length]. lia.
Qed.

(** X6. The rows of a unique-activity response come in the order asked for:
    by the resolved column, [first_seen] or [total_pings], upwards for [asc]
    and downwards for [desc], which is also the order without or with an
    unknown [sortOrder]. *)
Theorem activity_rows_ordered
    (pageParam pageSizeParam sortByParam sortOrderParam : option string) (d : db) :
  let key := sortKey (resolveSortBy sortByParam) in
  let data := responseData (fst (handle_api_pings_unique_activity "GET"
                                   pageParam pageSizeParam sortByParam sortOrderParam d)) in
  (resolveSortOrder sortOrderParam = "asc" ->
   StronglySorted (fun a b => key a <= key b) data)
  /\ (resolveSortOrder sortOrderParam <> "asc" ->
      StronglySorted (fun a b => key b <= key a) data).
Proof.
  intros key data.
  destruct (handle_unique_activity_run pageParam pageSizeParam sortByParam
              sortOrderParam d) as (le & Hle & Hrun).
  unfold data. rewrite Hrun. cbn [fst responseData addCors body].
  assert (Hcases :
            (resolveSortOrder sortOrderParam = "asc"
             /\ le = (fun a b => key a <=? key b))
            \/ (resolveSortOrder sortOrderParam = "desc"
                /\ le = (fun a b => key b <=? key a))).
  { unfold key.
    destruct (resolveSortBy_cases sortByParam) as [Eb|Eb];
      destruct (resolveSortOrder_cases sortOrderParam) as [Eo|Eo];
      rewrite Eb, Eo in Hle |- *; cbn in Hle; injection Hle as <-; auto. }
  split; intros Horder.
  - destruct Hcases as [[_ ->]|[E _]]; [|congruence].
    apply StronglySorted_firstn, StronglySorted_skipn, (sortRows_by_key key).
  - destruct Hcases as [[E _]|[_ ->]]; [congruence|].
    apply StronglySorted_firstn, StronglySorted_skipn, (sortRows_by_key key).
Qed.

(* ------------------------------------------------------------------ *)
(** * Decimal text and pages                                           *)
(* ------------------------------------------------------------------ *)

Lemma isDigit_range (c : ascii) : JS.isDigit c = true <-> (48 <= JS.code c <= 57)%N.
Proof.
  unfold JS.isDigit. rewrite andb_true_iff, !N.leb_le. tauto.
Qed.

(** Text that starts with a digit has no white space to trim. *)
Lemma trimStart_digit (c : ascii) (rest : string) :
  JS.isDigit c = true -> JS.trimStart (String c rest) = String c rest.
Proof.
  intros Hd. apply isDigit_range in Hd.
  assert (H1 : JS.isWhiteSpace1 c = false).
  { unfold JS.isWhiteSpace1. apply orb_false_iff. split.
    - apply andb_false_iff. right. apply N.leb_gt. lia.
    - apply N.eqb_neq. lia. }
  assert (H2 : forall c2, JS.isWhiteSpace2 c c2 = false).
  { intros c2. unfold JS.isWhiteSpace2. apply andb_false_iff. left. apply N.eqb_neq. lia. }
  assert (H3 : forall c2 c3, JS.isWhiteSpace3 c c2 c3 = false).
  { intros c2 c3. unfold JS.isWhiteSpace3.
    assert (E1 : (JS.code c =? 225)%N = false) by (apply N.eqb_neq; lia).
    assert (E2 : (JS.code c =? 226)%N = false) by (apply N.eqb_neq; lia).
    assert (E3 : (JS.code c =? 227)%N = false) by (apply N.eqb_neq; lia).
    assert (E4 : (JS.code c =? 239)%N = false) by (apply N.eqb_neq; lia).
    change 0xE1%N with 225%N. change 0xE2%N with 226%N.
    change 0xE3%N with 227%N. change 0xEF%N with 239%N.
    now rewrite E1, E2, E3, E4. }
  cbn [JS.trimStart]. rewrite H1.
  destruct rest as [|c2 [|c3 r3]]; [reflexivity | now rewrite H2 | now rewrite H2, H3].
Qed.

Lemma digitsValue_digit (c : ascii) (rest : string) (acc : option Z) :
  JS.isDigit c = true ->
  JS.digitsValue (String c rest) acc
  = JS.digitsValue rest
      (Some (10 * match acc with Some a => a | None => 0 end + (Z.of_N (JS.code c) - 48))).
Proof. intros Hd. cbn [JS.digitsValue]. now rewrite Hd. Qed.

(** Reading the digits of a decimal numeral after the value [acc]. *)
Lemma digitsValue_uint_acc (u : Decimal.uint) (acc : positive) :
  JS.digitsValue (NilEmpty.string_of_uint u) (Some (Z.pos acc))
  = Some (Z.pos (Pos.of_uint_acc u acc)).
Proof.
  revert acc. induction u as [|u IH|u IH|u IH|u IH|u IH|u IH|u IH|u IH|u IH|u IH];
    intros acc; cbn [NilEmpty.string_of_uint Pos.of_uint_acc]; [reflexivity|..];
    rewrite digitsValue_digit by reflexivity;
    match goal with
    | |- JS.digitsValue _ (Some ?v) = Some (Z.pos (Pos.of_uint_acc _ ?p)) =>
        replace v with (Z.pos p)
          by (match goal with
              | |- context [JS.code ?c] =>
                  let k := eval vm_compute in (JS.code c) in change (JS.code c) with k
              end; lia)
    end; apply IH.
Qed.

Lemma digitsValue_uint (u : Decimal.uint) (acc : option Z) :
  u <> Decimal.Nil ->
  match acc with Some a => a | None => 0 end = 0 ->
  JS.digitsValue (NilEmpty.string_of_uint u) acc = Some (Z.of_N (Pos.of_uint u)).
Proof.
  revert acc. induction u as [|u IH|u IH|u IH|u IH|u IH|u IH|u IH|u IH|u IH|u IH];
    intros acc Hne Hacc; [congruence|..];
    cbn [NilEmpty.string_of_uint Pos.of_uint];
    rewrite digitsValue_digit by reflexivity; rewrite Hacc.
  - destruct u; [reflexivity | apply IH; [discriminate | reflexivity] ..].
  - apply (digitsValue_uint_acc u 1).
  - apply (digitsValue_uint_acc u 2).
  - apply (digitsValue_uint_acc u 3).
  - apply (digitsValue_uint_acc u 4).
  - apply (digitsValue_uint_acc u 5).
  - apply (digitsValue_uint_acc u 6).
  - apply (digitsValue_uint_acc u 7).
  - apply (digitsValue_uint_acc u 8).
  - apply (digitsValue_uint_acc u 9).
Qed.

Lemma string_of_uint_digits (u : Decimal.uint) :
  u <> Decimal.Nil ->
  exists c rest, NilEmpty.string_of_uint u = String c rest /\ JS.isDigit c = true.
Proof.
  destruct u; [congruence|..]; intros _; cbn [NilEmpty.string_of_uint];
    eexists; eexists; split; reflexivity.
Qed.

Lemma to_uint_not_Nil (n : N) : N.to_uint n <> Decimal.Nil.
Proof.
  intros H. pose proof (DecimalN.Unsigned.of_to n) as E.
  destruct n as [|p]; [discriminate|].
  rewrite H in E. discriminate.
Qed.

(** The decimal numeral of [n], as [digits] prints it without padding. *)
Lemma decimal_text (n : N) :
  exists c rest,
    NilZero.string_of_uint (N.to_uint n) = String c rest
    /\ JS.isDigit c = true
    /\ forall acc, match acc with Some a => a | None => 0 end = 0 ->
                   JS.digitsValue (String c rest) acc = Some (Z.of_N n).
Proof.
  pose proof (to_uint_not_Nil n) as Hne.
  assert (E : NilZero.string_of_uint (N.to_uint n) = NilEmpty.string_of_uint (N.to_uint n))
    by (destruct (N.to_uint n); [congruence | reflexivity ..]).
  destruct (string_of_uint_digits _ Hne) as (c & rest & Es & Hd).
  exists c, rest. rewrite E. split; [exact Es|]. split; [exact Hd|].
  intros acc Hacc. rewrite <- Es, (digitsValue_uint _ acc Hne Hacc).
  change (Pos.of_uint (N.to_uint n)) with (N.of_uint (N.to_uint n)).
  now rewrite DecimalN.Unsigned.of_to.
Qed.

(** Zeros before a numeral do not change what is read. *)
Lemma digitsValue_zeros (k : nat) (cur s : string) (acc : option Z) :
  cur = "" \/ cur = "0" ->
  match acc with Some a => a | None => 0 end = 0 ->
  JS.digitsValue (JS.repeatFill "0" cur k ++ s) acc
  = JS.digitsValue s (match k with O => acc | S _ => Some 0 end).
Proof.
  revert cur acc. induction k as [|k IH]; intros cur acc Hcur Hacc; [reflexivity|].
  assert (E : JS.repeatFill "0" cur (S k) = String "0" (JS.repeatFill "0" "" k))
    by (destruct Hcur as [-> | ->]; reflexivity).
  rewrite E. cbn [append]. rewrite digitsValue_digit by reflexivity. rewrite Hacc.
  change (10 * 0 + (Z.of_N (JS.code "0") - 48)) with 0.
  rewrite (IH ""%string (Some 0) (or_introl eq_refl) eq_refl). now destruct k.
Qed.

Lemma parseInt_digit_led (c : ascii) (rest : string) :
  JS.isDigit c = true ->
  JS.parseInt (String c rest) = JS.digitsValue (String c rest) None.
Proof.
  intros Hd. unfold JS.parseInt. rewrite (trimStart_digit c rest Hd).
  apply isDigit_range in Hd.
  assert (E45 : (JS.code c =? 45)%N = false) by (apply N.eqb_neq; lia).
  assert (E43 : (JS.code c =? 43)%N = false) by (apply N.eqb_neq; lia).
  rewrite E45, E43.
  destruct (JS.digitsValue (String c rest) None) as [v|]; [|reflexivity].
  cbn [option_map]. f_equal. lia.
Qed.

Lemma parseInt_digits (width : nat) (n : Z) :
  0 <= n ->
  JS.parseInt (ESDate.digits width n) = Some n
  /\ JS.parseInt ("-" ++ ESDate.digits width n) = Some (- n).
Proof.
  intros Hn. unfold ESDate.digits.
  destruct (decimal_text (Z.to_N n)) as (c & rest & Etext & Hd & Hread).
  rewrite Z2N.id in Hread by exact Hn. rewrite Etext.
  assert (Hpadded : exists c' rest',
             JS.padStart (String c rest) width "0" = String c' rest'
             /\ JS.isDigit c' = true
             /\ JS.digitsValue (String c' rest') None = Some n).
  { unfold JS.padStart.
    destruct (width <=? String.length (String c rest))%nat eqn:Ew.
    - exists c, rest. split; [reflexivity|]. split; [exact Hd | now apply Hread].
    - apply Nat.leb_gt in Ew.
      destruct (width - String.length (String c rest))%nat as [|k] eqn:Ek; [lia|].
      exists "0"%char, (JS.repeatFill "0" "" k ++ String c rest).
      split; [reflexivity|]. split; [reflexivity|].
      change (String "0" (JS.repeatFill "0" "" k ++ String c rest))
        with (JS.repeatFill "0" "0" (S k) ++ String c rest).
      rewrite (digitsValue_zeros (S k) "0" _ None (or_intror eq_refl) eq_refl).
      now apply Hread. }
  destruct Hpadded as (c' & rest' & -> & Hd' & Hval). split.
  - now rewrite parseInt_digit_led.
  - cbn [append]. unfold JS.parseInt.
    assert (Etrim : JS.trimStart (String "-" (String c' rest'))
                    = String "-" (String c' rest'))
      by (destruct rest'; reflexivity).
    rewrite Etrim.
    change (JS.code "-" =? 45)%N with true. cbv iota. rewrite Hval.
    reflexivity.
Qed.

(** X7. The pagination reads the decimal text of its parameters: [parseInt]
    gives back every non-negative integer from its decimal text, also behind
    the zeros that pad it to a width, and the opposite integer behind a minus
    sign (for the integers that a number holds exactly); so the text of [n]
    as [page] resolves to [n], or to 1 for 0, as [pageSize] to [n] up to
    100, to 100 above it and to 10 for 0, and the text of a negative integer
    to page 1 and page size 10. *)
Theorem parseInt_reads_decimal (width : nat) (n : Z) :
  0 <= n <= MAX_SAFE_INTEGER ->
  let text := ESDate.digits width n in
  JS.parseInt text = Some n
  /\ JS.parseInt ("-" ++ text) = Some (- n)
  /\ resolvePage (Some text) = Z.max 1 n
  /\ resolvePageSize (Some text) = (if n =? 0 then 10 else Z.min 100 n)
  /\ (0 < n -> resolvePage (Some ("-" ++ text)) = 1
              /\ resolvePageSize (Some ("-" ++ text)) = 10).
Proof.
  intros [Hn _] text.
  destruct (parseInt_digits width n Hn) as [Hpos Hneg]. fold text in Hpos, Hneg.
  split; [exact Hpos|]. split; [exact Hneg|].
  assert (Htext : JS.whenTruthy (Some text) = Some text).
  { clear Hneg. destruct text; [vm_compute in Hpos; discriminate Hpos | reflexivity]. }
  unfold resolvePage, resolvePageSize. rewrite Htext, Hpos.
  change (JS.whenTruthy (Some ("-" ++ text))) with (Some ("-" ++ text)).
  cbv beta iota. rewrite Hneg.
  split; [|split; [|intros Hn'; split]].
  - destruct (Z.ltb_spec n 1); lia.
  - destruct (Z.ltb_spec n 1); destruct (Z.eqb_spec n 0); try lia;
      [now replace n with 0 by lia|].
    destruct (Z.ltb_spec 100 n); lia.
  - destruct (Z.ltb_spec (- n) 1); lia.
  - destruct (Z.ltb_spec (- n) 1); [reflexivity | lia].
Qed.

Lemma resolvePage_decimal (k : nat) :
  resolvePage (Some (ESDate.digits 1 (Z.of_nat k + 1))) = Z.of_nat k + 1.
Proof.
  destruct (parseInt_digits 1 (Z.of_nat k + 1) ltac:(lia)) as [Hparse _].
  unfold resolvePage, JS.whenTruthy.
  destruct (ESDate.digits 1 (Z.of_nat k + 1)) as [|c rest] eqn:E; [discriminate|].
  cbn [JS.truthy]. rewrite Hparse.
  destruct (Z.ltb_spec (Z.of_nat k + 1) 1); [lia | reflexivity].
Qed.

(** Cutting a list into [m] slices of [n] gives it back when the slices are
    enough. *)
Lemma slices_concat {A : Type} (n m : nat) (l : list A) :
  (List.length l <= m * n)%nat ->
  List.concat (map (fun k => firstn n (skipn (k * n) l)) (seq 0 m)) = l.
Proof.
  revert l. induction m as [|m IH]; intros l Hlen.
  - destruct l; [reflexivity | cbn in Hlen; lia].
  - change (seq 0 (S m)) with (0%nat :: seq 1 m). rewrite <- seq_shift.
    cbn [map List.concat]. rewrite map_map.
    change (skipn (0 * n) l) with l.
    transitivity (firstn n l ++ skipn n l)%list; [|apply firstn_skipn]. f_equal.
    rewrite <- (IH (skipn n l)) by (rewrite length_skipn; lia).
    f_equal. apply map_ext. intros k.
    now rewrite skipn_skipn, Nat.add_comm.
Qed.

Lemma sum_total_pings_perm (l l' : list UniqueActivityRecord) :
  Permutation l l' ->
  fold_right (fun row n => total_pings row + n) 0 l
  = fold_right (fun row n => total_pings row + n) 0 l'.
Proof. induction 1; cbn [fold_right]; lia. Qed.

Lemma sum_total_pings_groupByIp (rows : list PingRow) :
  fold_right (fun row n => total_pings row + n) 0 (groupByIp rows)
  = Z.of_nat (List.length rows).
Proof.
  rewrite <- (pingsOf_partition (distinctIps [] rows) rows
                (proj1 (distinctIps_spec _ _))
                (fun r Hr => proj2 (distinctIps_In _ _) (ex_intro _ r (conj Hr eq_refl)))).
  unfold groupByIp.
  induction (distinctIps [] rows) as [|ip ids IH]; [reflexivity|].
  cbn [map fold_right total_pings]. rewrite IH, length_map. lia.
Qed.

(** X8. For any page size and order, the pages 1 to [totalPages] of the
    unique-activity endpoint, asked for by their decimal numbers, together
    list the rows of all identifiers of the log, each identifier on exactly
    one page, and the [total_pings] of the rows add up to the number of
    stored pings. *)
Theorem pages_cover_every_identifier
    (pageSizeParam sortByParam sortOrderParam : option string) (d : db) :
  let items := Z.of_nat (List.length (distinctIps [] (ip_pings d))) in
  let pages := Math_ceil (inject_Z items / inject_Z (resolvePageSize pageSizeParam))%Q in
  let page := fun k : nat =>
    responseData
      (fst (handle_api_pings_unique_activity "GET"
              (Some (ESDate.digits 1 (Z.of_nat k + 1)))
              pageSizeParam sortByParam sortOrderParam d)) in
  let listed := List.concat (map page (seq 0 (Z.to_nat pages))) in
  Permutation listed (groupByIp (ip_pings d))
  /\ NoDup (map ua_ip_hmac listed)
  /\ (forall ip, In ip (map ua_ip_hmac listed)
                 <-> exists r, In r (ip_pings d) /\ ip_hmac r = ip)
  /\ fold_right (fun row n => total_pings row + n) 0 listed
     = Z.of_nat (List.length (ip_pings d)).
Proof.
  intros items pages page listed.
  pose proof (resolvePageSize_range pageSizeParam) as Hsize.
  set (size := resolvePageSize pageSizeParam) in *.
  destruct (orderingOf_resolved sortByParam sortOrderParam) as [le Hle].
  set (sorted := sortRows le (groupByIp (ip_pings d))).
  assert (Hpage : forall k, page k
                            = firstn (Z.to_nat size) (skipn (k * Z.to_nat size) sorted)).
  { intros k. unfold page.
    destruct (handle_unique_activity_run (Some (ESDate.digits 1 (Z.of_nat k + 1)))
                pageSizeParam sortByParam sortOrderParam d) as (le' & Hle' & ->).
    rewrite Hle in Hle'. injection Hle' as <-.
    cbn [fst responseData addCors body]. rewrite resolvePage_decimal. fold size sorted.
    do 2 f_equal. nia. }
  assert (Hlisted : listed = sorted).
  { unfold listed. rewrite (map_ext _ _ Hpage). apply slices_concat.
    unfold sorted. rewrite sortRows_length, groupByIp_length.
    pose proof (Math_ceil_spec items size ltac:(lia)) as Hceil. cbv zeta in Hceil.
    fold pages in Hceil. unfold items in Hceil. nia. }
  assert (Hperm : Permutation listed (groupByIp (ip_pings d)))
    by (rewrite Hlisted; apply sortRows_perm).
  assert (Hids : Permutation (map ua_ip_hmac listed) (distinctIps [] (ip_pings d)))
    by (rewrite <- groupByIp_ids; now apply Permutation_map).
  split; [exact Hperm|]. split; [|split].
  - apply (Permutation_NoDup (Permutation_sym Hids)), distinctIps_spec.
  - intros ip. rewrite <- distinctIps_In. split; apply Permutation_in;
      [exact Hids | exact (Permutation_sym Hids)].
  - rewrite (sum_total_pings_perm _ _ Hperm). apply sum_total_pings_groupByIp.
Qed.

(** X9. A unique-activity response never holds more rows than the page size,
    itself at most 100; every page before the last one is full, and the last
    page is not empty. *)
Theorem page_sizes
    (pageParam pageSizeParam sortByParam sortOrderParam : option string) (d : db) :
  let page := resolvePage pageParam in
  let size := resolvePageSize pageSizeParam in
  let items := Z.of_nat (List.length (distinctIps [] (ip_pings d))) in
  let pages := Math_ceil (inject_Z items / inject_Z size)%Q in
  let rows := Z.of_nat (List.length
                (responseData
                   (fst (handle_api_pings_unique_activity "GET"
                           pageParam pageSizeParam sortByParam sortOrderParam d)))) in
  rows <= size <= 100
  /\ rows = Z.min size (Z.max 0 (items - (page - 1) * size))
  /\ (page < pages -> rows = size)
  /\ (page = pages -> 1 <= rows).
Proof.
  intros page size items pages rows.
  pose proof (resolvePageSize_range pageSizeParam) as Hsize. fold size in Hsize.
  pose proof (resolvePage_range pageParam) as Hpage. fold page in Hpage.
  pose proof (Math_ceil_spec items size ltac:(lia)) as Hceil. cbv zeta in Hceil.
  fold pages in Hceil.
  assert (Hrows : rows = Z.min size (Z.max 0 (items - (page - 1) * size))).
  { unfold rows.
    destruct (handle_unique_activity_run pageParam pageSizeParam sortByParam
                sortOrderParam d) as (le & _ & ->).
    cbn [fst responseData addCors body]. fold page size.
    rewrite length_firstn, length_skipn, sortRows_length, groupByIp_length.
    unfold items. nia. }
  split; [lia|]. split; [exact Hrows|]. split; nia.
Qed.

(* ------------------------------------------------------------------ *)
(** * Requests that are turned away, and the dispatch                  *)
(* ------------------------------------------------------------------ *)

(** X10. [/api/ping] turns away, without touching the database, every
    request that is not a POST (405, whether or not it carries an address)
    and every POST without an address or with an empty one (400,
    [success: false]). *)
Theorem ping_turned_away (tick : Z) (env : Env) (method : string)
    (ip : option string) (now stamp : Z) (d : db) :
  (method <> "POST" ->
   handle_api_ping tick env method ip now stamp d
   = ({| status := 405; body := Text "Method Not Allowed"; cors := false |}, d))
  /\ (method = "POST" -> ip = None \/ ip = Some "" ->
      handle_api_ping tick env method ip now stamp d
      = ({| status := 400;
            body := PingResponse false "IP address not found in request";
            cors := false |}, d)).
Proof.
  unfold handle_api_ping. split.
  - intros Hne. apply String.eqb_neq in Hne. now rewrite Hne.
  - intros -> [-> | ->]; reflexivity.
Qed.

Section FetchFacts.
Variable tick : Z.
Variable all : Statement -> db -> option (list GroupedPing).
Variable releases : list Release.
Variable release : Release.

(** The grouped handler leaves the database as it is. *)
Lemma handle_api_pings_grouped_reads (method : string)
    (periodParam countTypeParam : option string) (now : ESDate.Date) (d : db) :
  snd (handle_api_pings_grouped all method periodParam countTypeParam now d) = d.
Proof.
  unfold handle_api_pings_grouped.
  destruct (negb (String.eqb method "GET")); [reflexivity|].
  destruct (groupedStatement periodParam countTypeParam now) as [stmt|]; [|reflexivity].
  destruct (all stmt d); reflexivity.
Qed.

Lemma handle_unique_activity_reads (method : string)
    (pageParam pageSizeParam sortByParam sortOrderParam : option string) (d : db) :
  snd (handle_api_pings_unique_activity method
         pageParam pageSizeParam sortByParam sortOrderParam d) = d.
Proof.
  unfold handle_api_pings_unique_activity.
  destruct (negb (String.eqb method "GET")); [reflexivity|].
  unfold bind, allDataQuery, firstCountQuery.
  destruct (orderingOf _ _); reflexivity.
Qed.

Lemma bind_snd {A B : Type} (m : D1 A) (f : A -> B) (d : db) :
  snd ((x <- m ;; ret (f x)) d) = snd (m d).
Proof. unfold bind, ret. destruct (m d); reflexivity. Qed.

(** What a request can do to the database: nothing, or what the makefile
    route or a POST to the ping route does. *)
Lemma fetch_database (request : Request) (env : Env) (now stamp : Z) (d : db) :
  snd (fetch tick all releases release request env now stamp d) = d
  \/ (req_method request <> "OPTIONS"
      /\ ((req_pathname request = "/makefile"
           /\ snd (fetch tick all releases release request env now stamp d)
              = serve tick env (Makefile (req_ip request)) d)
          \/ (req_pathname request = "/api/ping" /\ req_method request = "POST"
              /\ snd (fetch tick all releases release request env now stamp d)
                 = serve tick env (Ping "POST" (req_ip request) now stamp) d))).
Proof.
  unfold fetch.
  destruct (String.eqb_spec (req_method request) "OPTIONS") as [|Hopt]; [now left|].
  destruct (String.eqb_spec (req_pathname request) "/makefile") as [Hp|_].
  { right. split; [exact Hopt|]. left. split; [exact Hp|]. now rewrite bind_snd. }
  destruct (String.eqb (req_pathname request) "/api/stats"); [now left|].
  destruct (String.eqb (req_pathname request) "/api/releases"); [now left|].
  destruct (String.eqb (req_pathname request) "/api/latest-release"); [now left|].
  destruct (String.eqb_spec (req_pathname request) "/api/ping") as [Hp|_].
  { rewrite bind_snd.
    destruct (String.eqb_spec (req_method request) "POST") as [Hm|Hm].
    - right. split; [exact Hopt|]. right. rewrite Hm. now repeat split.
    - left. unfold handle_api_ping. apply String.eqb_neq in Hm. now rewrite Hm. }
  destruct (String.eqb (req_pathname request) "/api/pings").
  { left. rewrite bind_snd. apply api_pings_reads. }
  destruct (String.eqb (req_pathname request) "/api/stats/summary").
  { left. rewrite bind_snd. unfold handle_api_stats_summary.
    destruct (negb (String.eqb (req_method request) "GET")); reflexivity. }
  destruct (String.eqb (req_pathname request) "/api/pings/grouped").
  { left. rewrite bind_snd. apply handle_api_pings_grouped_reads. }
  destruct (String.eqb (req_pathname request) "/api/pings/unique-activity").
  { left. rewrite bind_snd. apply handle_unique_activity_reads. }
  now left.
Qed.

End FetchFacts.

(** Serving a request appends at most one row to each table. *)
Lemma serve_appends (tick : Z) (env : Env) (req : WriteRequest) (d : db) :
  exists newIds newPings,
    ip_registry (serve tick env req d) = (ip_registry d ++ newIds)%list
    /\ ip_pings (serve tick env req d) = (ip_pings d ++ newPings)%list
    /\ (List.length newIds <= 1)%nat /\ (List.length newPings <= 1)%nat
    /\ (newPings <> [] -> exists ip now stamp, req = Ping "POST" ip now stamp).
Proof.
  assert (Hreg : forall id, exists newIds,
             ip_registry (snd (insertRegistryOnConflictDoNothing id d))
             = (ip_registry d ++ newIds)%list /\ (List.length newIds <= 1)%nat).
  { intros id. destruct (in_dec string_dec id (ip_registry d)) as [Hin|Hin].
    - exists []. rewrite insertRegistry_present, app_nil_r by exact Hin. auto.
    - exists [id]. rewrite insertRegistry_absent by exact Hin. auto. }
  destruct req as [ip | method ip now stamp]; cbn [serve].
  - unfold handle_makefile. destruct (JS.whenTruthy ip) as [a|].
    + unfold bind. rewrite upsertIp_run. cbn [snd ret].
      destruct (Hreg (generateDoubleHash a (IP_HASH_PEPPER env))) as (newIds & E & Hlen).
      exists newIds, []. rewrite insertRegistry_pings, app_nil_r.
      repeat split; auto. congruence.
    + exists [], []. cbn [ret snd]. rewrite !app_nil_r. repeat split; auto. congruence.
  - destruct (String.eqb_spec method "POST") as [->|Hm].
    + destruct (JS.whenTruthy ip) as [a|] eqn:Eip.
      * assert (Ha : ip = Some a /\ a <> "").
        { unfold JS.whenTruthy in Eip. destruct ip as [[|c s]|]; cbn in Eip; try discriminate.
          injection Eip as <-. split; [reflexivity | discriminate]. }
        destruct Ha as [-> Ha]. rewrite handle_api_ping_run by exact Ha.
        destruct (Hreg (generateDoubleHash a (IP_HASH_PEPPER env))) as (newIds & E & Hlen).
        destruct (shouldRecordPing _ now); cbn [snd insertPing ip_registry ip_pings].
        -- eexists newIds, [_]. rewrite insertRegistry_pings.
           repeat split; auto. intros _. eauto.
        -- exists newIds, []. rewrite insertRegistry_pings, app_nil_r.
           repeat split; auto. congruence.
      * unfold handle_api_ping. cbn [String.eqb]. change (String.eqb "POST" "POST") with true.
        cbn [negb]. rewrite Eip. exists [], []. cbn [ret snd]. rewrite !app_nil_r.
        repeat split; auto. congruence.
    + unfold handle_api_ping. apply String.eqb_neq in Hm. rewrite Hm.
      exists [], []. cbn [negb ret snd]. rewrite !app_nil_r. repeat split; auto. congruence.
Qed.

Lemma serve_changes (tick : Z) (env : Env) (req : WriteRequest) (d : db) :
  serve tick env req d <> d ->
  match req with
  | Makefile ip => JS.truthy ip = true
  | Ping method ip _ _ => method = "POST" /\ JS.truthy ip = true
  end.
Proof.
  destruct req as [ip | method ip now]; cbn [serve]; intros Hne.
  - unfold handle_makefile, JS.whenTruthy in Hne.
    destruct (JS.truthy ip); [reflexivity | now contradiction Hne].
  - unfold handle_api_ping, JS.whenTruthy in Hne.
    destruct (String.eqb_spec method "POST") as [->|]; [|now contradiction Hne].
    cbn [negb] in Hne. split; [reflexivity|].
    destruct (JS.truthy ip); [reflexivity | now contradiction Hne].
Qed.

Section Dispatch.
Variable tick : Z.
Variable all : Statement -> db -> option (list GroupedPing).
Variable releases : list Release.
Variable release : Release.

(** X11. Whatever the request, the worker only ever appends to its tables:
    at most one identifier to the registry and at most one ping to the log,
    never removing or changing a stored row; a ping is appended only by a
    POST to [/api/ping]; and the database changes at all only for a request
    that carries an address, is not an OPTIONS request, and goes to
    [/makefile] or as a POST to [/api/ping]. *)
Theorem only_two_routes_write (request : Request) (env : Env) (now stamp : Z) (d : db) :
  let d' := snd (fetch tick all releases release request env now stamp d) in
  (exists newIds newPings,
      ip_registry d' = (ip_registry d ++ newIds)%list
      /\ ip_pings d' = (ip_pings d ++ newPings)%list
      /\ (List.length newIds <= 1)%nat /\ (List.length newPings <= 1)%nat
      /\ (newPings <> [] ->
          req_pathname request = "/api/ping" /\ req_method request = "POST"))
  /\ (d' <> d ->
      req_method request <> "OPTIONS"
      /\ JS.truthy (req_ip request) = true
      /\ (req_pathname request = "/makefile"
          \/ (req_pathname request = "/api/ping" /\ req_method request = "POST"))).
Proof.
  intros d'. unfold d'.
  destruct (fetch_database tick all releases release request env now stamp d)
    as [-> | (Hopt & [(Hpath & ->) | (Hpath & Hpost & ->)])].
  - split; [|congruence]. exists [], []. rewrite !app_nil_r.
    cbn [List.length]. repeat split; try lia; congruence.
  - split.
    + destruct (serve_appends tick env (Makefile (req_ip request)) d)
        as (newIds & newPings & E1 & E2 & L1 & L2 & Hping).
      exists newIds, newPings. repeat split; auto;
        destruct (Hping H) as (? & ? & ? & ?); discriminate.
    + intros Hne. apply serve_changes in Hne. auto.
  - split.
    + destruct (serve_appends tick env (Ping "POST" (req_ip request) now stamp) d)
        as (newIds & newPings & E1 & E2 & L1 & L2 & _).
      exists newIds, newPings. repeat split; auto.
    + intros Hne. apply serve_changes in Hne. destruct Hne as [_ Hip]. auto.
Qed.

(** X12. An OPTIONS request to any path is answered 200 with the CORS
    headers and an empty body, before any route is looked at; any other
    request to a path outside the nine routes is answered 404 with the CORS
    headers; neither touches the database. *)
Theorem preflight_and_unknown_paths (request : Request) (env : Env) (now stamp : Z) (d : db) :
  (req_method request = "OPTIONS" ->
   fetch tick all releases release request env now stamp d
   = (Normal {| reply_status := 200; payload := NoBody; reply_cors := true |}, d))
  /\ (req_method request <> "OPTIONS" ->
      ~ In (req_pathname request)
          ["/makefile"; "/api/stats"; "/api/releases"; "/api/latest-release";
           "/api/ping"; "/api/pings"; "/api/stats/summary"; "/api/pings/grouped";
           "/api/pings/unique-activity"] ->
      fetch tick all releases release request env now stamp d
      = (Normal {| reply_status := 404; payload := Core (Text "Page not found!");
                   reply_cors := true |}, d)).
Proof.
  unfold fetch. split.
  - intros ->. reflexivity.
  - intros Hopt Hpath. apply String.eqb_neq in Hopt. rewrite Hopt.
    cbn [In] in Hpath.
    repeat match goal with
           | |- context [String.eqb (req_pathname request) ?p] =>
               destruct (String.eqb_spec (req_pathname request) p) as [E|_];
               [exfalso; apply Hpath; rewrite E; tauto|]
           end.
    reflexivity.
Qed.

End Dispatch.

(* ------------------------------------------------------------------ *)
(** * The grouped statement                                            *)
(* ------------------------------------------------------------------ *)

Section GroupedFacts.
Import ESDate ESDateFacts.

(** For such a clock every windowed period has a range. *)
Lemma getDateRange_windowed (period : string) (now : Z) :
  clock_in_range now -> In period ["24h"; "7d"; "30d"; "6month"] ->
  exists s e, getDateRange period (Some now) = Normal (Some {| startISO := s; endISO := e |}).
Proof.
  intros Hnow Hin. unfold clock_in_range in Hnow.
  destruct (getDateRange_branches (Some now)) as (E24 & E7 & E30 & E6 & _).
  cbn [In] in Hin. destruct Hin as [<-|[<-|[<-|[<-|[]]]]].
  - rewrite E24, setHours_back_24 by (unfold msPerHour, msPerDay in *; lia).
    eexists; eexists; reflexivity.
  - rewrite E7, setDate_back_snapped by lia. eexists; eexists; reflexivity.
  - rewrite E30, setDate_back_snapped by lia. eexists; eexists; reflexivity.
  - rewrite E6, setMonth_back_snapped by exact Hnow. eexists; eexists; reflexivity.
Qed.

Lemma getDateRange_answers (period : string) (now : Z) :
  clock_in_range now -> In period periodValues ->
  exists range, getDateRange period (Some now) = Normal range.
Proof.
  intros Hnow Hin. unfold periodValues in Hin.
  assert (Hcases : In period ["24h"; "7d"; "30d"; "6month"] \/ period = "all").
  { cbn [In] in *. destruct Hin as [H|[H|[H|[H|[H|[]]]]]]; subst; auto 10. }
  destruct Hcases as [Hw | ->].
  - destruct (getDateRange_windowed period now Hnow Hw) as (s & e & ->). eauto.
  - eexists. apply getDateRange_branches.
Qed.

Lemma groupedStatement_answers (periodParam countTypeParam : option string) (now : Z) :
  clock_in_range now ->
  exists stmt, groupedStatement periodParam countTypeParam (Some now) = Normal stmt.
Proof.
  intros Hnow. unfold groupedStatement.
  destruct (getDateRange_answers (parseQueryParam periodParam "30d" (Some periodValues)) now
              Hnow) as [range ->].
  - apply parseQueryParam_allowed. unfold periodValues. cbn. tauto.
  - destruct range; eexists; reflexivity.
Qed.

(** The text of the statement, from the count asked for and whether there is
    a range. *)
Lemma groupedStatement_sql (periodParam countTypeParam : option string) (now : Date)
    (stmt : Statement) :
  groupedStatement periodParam countTypeParam now = Normal stmt ->
  let distinct := String.eqb (parseQueryParam countTypeParam "unique" (Some countTypeValues))
                    "unique" in
  exists ranged : bool,
    (if ranged then exists s e, bindings stmt = [s; e] else bindings stmt = [])
    /\ forall stmt',
         groupedStatement (Some (if ranged then "30d" else "all"))
           (Some (if distinct then "unique" else "total")) (Some 0) = Normal stmt' ->
         sql stmt = sql stmt'.
Proof.
  intros Hstmt distinct. unfold groupedStatement in Hstmt.
  destruct (getDateRange _ now) as [[range|]|]; [| |discriminate];
    cbv beta zeta iota in Hstmt; injection Hstmt as <-.
  - exists true. split; [cbn; eauto|]. intros stmt'.
    destruct (parseQueryParam countTypeParam "unique" (Some countTypeValues) =? "unique")%string
      eqn:E; subst distinct; rewrite ?E; vm_compute; intros [= <-]; reflexivity.
  - exists false. split; [reflexivity|]. intros stmt'.
    destruct (parseQueryParam countTypeParam "unique" (Some countTypeValues) =? "unique")%string
      eqn:E; subst distinct; rewrite ?E; vm_compute; intros [= <-]; reflexivity.
Qed.

(** X13. There are four fixed texts such that, whatever the [period] and
    [countType] of the caller and whatever the clock, the statement that the
    grouped endpoint prepares has one of them as its text and binds either
    no value or the two bounds of the range: the caller's text never enters
    the statement.  A [countType] outside the allow-list counts distinct
    identifiers, as [unique] does. *)
Theorem grouped_statement_is_fixed_text :
  exists texts : list string,
    List.length texts = 4%nat
    /\ forall (periodParam countTypeParam : option string) (now : Date) (stmt : Statement),
         groupedStatement periodParam countTypeParam now = Normal stmt ->
         In (sql stmt) texts
         /\ (bindings stmt = [] \/ exists s e, bindings stmt = [s; e])
         /\ ((forall v, countTypeParam = Some v -> ~ In v countTypeValues) ->
             groupedStatement periodParam countTypeParam now
             = groupedStatement periodParam (Some "unique") now).
Proof.
  pose (text := fun period countType =>
          match groupedStatement (Some period) (Some countType) (Some 0) with
          | Normal stmt => sql stmt
          | Throw => ""
          end).
  exists [text "30d" "unique"; text "30d" "total"; text "all" "unique"; text "all" "total"].
  split; [reflexivity|]. intros periodParam countTypeParam now stmt Hstmt.
  destruct (groupedStatement_sql _ _ _ _ Hstmt) as (ranged & Hbind & Hsql). cbv zeta in Hsql.
  split; [|split].
  - assert (Hvalid : clock_in_range 0) by (unfold clock_in_range, maxTime, msPerDay; lia).
    destruct ranged;
      destruct (parseQueryParam countTypeParam "unique" (Some countTypeValues) =? "unique")%string.
    + destruct (groupedStatement_answers (Some "30d") (Some "unique") 0 Hvalid) as [stmt' E].
      rewrite (Hsql stmt' E). unfold text. rewrite E. cbn [In]. tauto.
    + destruct (groupedStatement_answers (Some "30d") (Some "total") 0 Hvalid) as [stmt' E].
      rewrite (Hsql stmt' E). unfold text. rewrite E. cbn [In]. tauto.
    + destruct (groupedStatement_answers (Some "all") (Some "unique") 0 Hvalid) as [stmt' E].
      rewrite (Hsql stmt' E). unfold text. rewrite E. cbn [In]. tauto.
    + destruct (groupedStatement_answers (Some "all") (Some "total") 0 Hvalid) as [stmt' E].
      rewrite (Hsql stmt' E). unfold text. rewrite E. cbn [In]. tauto.
  - destruct ranged; auto.
  - intros Hout. unfold groupedStatement.
    rewrite (parseQueryParam_default countTypeParam "unique" countTypeValues Hout).
    reflexivity.
Qed.

End GroupedFacts.

(* ------------------------------------------------------------------ *)
(** * The answers of the dispatch                                      *)
(* ------------------------------------------------------------------ *)

Lemma handle_api_ping_status (tick : Z) (env : Env) (method : string)
    (ip : option string) (now stamp : Z) (d : db) :
  In (status (fst (handle_api_ping tick env method ip now stamp d))) [200; 400; 405].
Proof.
  unfold handle_api_ping.
  destruct (negb (String.eqb method "POST")); [cbn; tauto|].
  destruct (JS.whenTruthy ip) as [a|]; [|cbn; tauto].
  unfold bind at 1. rewrite upsertIp_run. unfold bind at 1, selectLastPing.
  destruct (shouldRecordPing _ now); cbn; tauto.
Qed.

Lemma handle_unique_activity_status (method : string)
    (pageParam pageSizeParam sortByParam sortOrderParam : option string) (d : db) :
  In (status (fst (handle_api_pings_unique_activity method
                     pageParam pageSizeParam sortByParam sortOrderParam d))) [200; 405].
Proof.
  destruct (String.eqb_spec method "GET") as [->|Hm].
  - destruct (handle_unique_activity_run pageParam pageSizeParam sortByParam
                sortOrderParam d) as (le & _ & ->). cbn. tauto.
  - unfold handle_api_pings_unique_activity. apply String.eqb_neq in Hm. rewrite Hm.
    cbn. tauto.
Qed.

Section Answers.
Variable tick : Z.
Variable all : Statement -> db -> option (list GroupedPing).
Variable releases : list Release.
Variable release : Release.

Lemma handle_api_pings_grouped_outcome (method : string)
    (periodParam countTypeParam : option string) (now : Z) (d : db) :
  match fst (handle_api_pings_grouped all method periodParam countTypeParam (Some now) d) with
  | Normal r => In (status r) [200; 405; 500]
  | Throw => method = "GET" /\ ~ clock_in_range now
  end.
Proof.
  unfold handle_api_pings_grouped.
  destruct (String.eqb_spec method "GET") as [->|Hm]; cbn [negb]; [|cbn; tauto].
  destruct (groupedStatement periodParam countTypeParam (Some now)) as [stmt|] eqn:E.
  - destruct (all stmt d); cbn; tauto.
  - cbn. split; [reflexivity|]. intros Hnow.
    destruct (groupedStatement_answers periodParam countTypeParam now Hnow) as [stmt E'].
    congruence.
Qed.

(** X14. With the database and the GitHub API answering and a pepper that
    is not empty (an empty one makes the key import throw), the worker
    answers every request outside [/makefile] (whose answer is the
    upstream's, passed on as it is) with one of the statuses 200, 400, 404,
    405 and 500: 400 only on [/api/ping], 500 only on the two routes that
    catch a failing query, [/api/pings/grouped] and
    [/api/pings/unique-activity].  The only such request it fails on with an
    exception instead of an answer is a GET on [/api/pings/grouped] while the
    clock is outside the range in which every window is a valid Date. *)
Theorem fetch_answers (request : Request) (env : Env) (now stamp : Z) (d : db) :
  IP_HASH_PEPPER env <> "" ->
  req_pathname request <> "/makefile" ->
  match fst (fetch tick all releases release request env now stamp d) with
  | Normal r =>
      In (reply_status r) [200; 400; 404; 405; 500]
      /\ (reply_status r = 400 -> req_pathname request = "/api/ping")
      /\ (reply_status r = 500 ->
          req_pathname request = "/api/pings/grouped"
          \/ req_pathname request = "/api/pings/unique-activity")
  | Throw =>
      req_pathname request = "/api/pings/grouped" /\ req_method request = "GET"
      /\ ~ clock_in_range now
  end.
Proof.
  intros _ Hpath. unfold fetch.
  destruct (String.eqb (req_method request) "OPTIONS");
    [cbn; (split; [tauto|]); split; discriminate|].
  destruct (String.eqb_spec (req_pathname request) "/makefile") as [Hp|_];
    [contradiction|].
  destruct (String.eqb (req_pathname request) "/api/stats");
    [cbn; (split; [tauto|]); split; discriminate|].
  destruct (String.eqb (req_pathname request) "/api/releases");
    [cbn; (split; [tauto|]); split; discriminate|].
  destruct (String.eqb (req_pathname request) "/api/latest-release");
    [cbn; (split; [tauto|]); split; discriminate|].
  destruct (String.eqb_spec (req_pathname request) "/api/ping") as [Hp|_].
  { pose proof (handle_api_ping_status tick env (req_method request) (req_ip request) now stamp d)
      as Hs.
    unfold bind. destruct (handle_api_ping _ _ _ _ _ _ d) as [r d'].
    cbn [fst ret reply reply_status] in *.
    cbn [In] in *. split; [tauto|]. split; [intros _; exact Hp | intros E; rewrite E in Hs].
    destruct Hs as [H|[H|[H|[]]]]; discriminate. }
  destruct (String.eqb (req_pathname request) "/api/pings").
  { unfold bind, handle_api_pings.
    destruct (negb (String.eqb (req_method request) "GET"));
      cbn; (split; [tauto|]); split; discriminate. }
  destruct (String.eqb (req_pathname request) "/api/stats/summary").
  { unfold bind, handle_api_stats_summary.
    destruct (negb (String.eqb (req_method request) "GET"));
      cbn; (split; [tauto|]); split; discriminate. }
  destruct (String.eqb_spec (req_pathname request) "/api/pings/grouped") as [Hp|_].
  { pose proof (handle_api_pings_grouped_outcome (req_method request)
                  (req_search request "period") (req_search request "countType") now d)
      as Hs.
    unfold bind. destruct (handle_api_pings_grouped _ _ _ _ _ d) as [[r|] d'];
      cbn [fst ret reply reply_status] in *.
    - cbn [In] in *. split; [tauto|]. split; [intros E; rewrite E in Hs | intros _; left; exact Hp].
      destruct Hs as [H|[H|[H|[]]]]; discriminate.
    - destruct Hs as [Hm Hclock]. now repeat split. }
  destruct (String.eqb (req_pathname request) "/api/pings/unique-activity").
  { pose proof (handle_unique_activity_status (req_method request)
                  (req_search request "page") (req_search request "pageSize")
                  (req_search request "sortBy") (req_search request "sortOrder") d) as Hs.
    unfold bind. destruct (handle_api_pings_unique_activity _ _ _ _ _ d) as [r d'].
    cbn [fst ret reply reply_status] in *. cbn [In] in *.
    split; [tauto|]. split; intros E; rewrite E in Hs;
      destruct Hs as [H|[H|[]]]; discriminate. }
  cbn. (split; [tauto|]); split; discriminate.
Qed.

End Answers.

(* ------------------------------------------------------------------ *)
(** * Parameters, periods and windows                                  *)
(* ------------------------------------------------------------------ *)

(** X15. [parseQueryParam] normalises: its result is the default, or else
    the value given, which is then not empty and, under an allow-list,
    allowed; and resolving the result again gives the same result. *)
Theorem parseQueryParam_normalises (value : option string) (default : string)
    (allowedValues : option (list string)) :
  let result := parseQueryParam value default allowedValues in
  (result = default
   \/ (value = Some result /\ result <> ""
       /\ forall allowed, allowedValues = Some allowed -> In result allowed))
  /\ parseQueryParam (Some result) default allowedValues = result.
Proof.
  intros result.
  assert (Hshape : result = default
                   \/ (value = Some result /\ result <> ""
                       /\ forall allowed, allowedValues = Some allowed -> In result allowed)).
  { unfold result, parseQueryParam, JS.whenTruthy.
    destruct value as [[|c v]|]; cbn [JS.truthy]; auto.
    destruct allowedValues as [allowed|].
    - destruct (JS.includes allowed (String c v)) eqn:E; auto.
      right. split; [reflexivity|]. split; [discriminate|].
      intros ? [= <-]. now apply includes_In.
    - right. split; [reflexivity|]. split; [discriminate|]. discriminate. }
  split; [exact Hshape|].
  destruct Hshape as [-> | (_ & Hne & Hin)].
  - unfold parseQueryParam, JS.whenTruthy.
    destruct default as [|c v]; cbn [JS.truthy]; [reflexivity|].
    destruct allowedValues as [allowed|]; [|reflexivity].
    destruct (JS.includes allowed (String c v)); reflexivity.
  - unfold parseQueryParam. rewrite whenTruthy_Some by exact Hne.
    destruct allowedValues as [allowed|]; [|reflexivity].
    specialize (Hin allowed eq_refl). apply includes_In in Hin. now rewrite Hin.
Qed.

Section Windows.
Import ESDate ESDateFacts.

(** X16. [getDateRange] gives [null], without throwing, for every period
    that is not exactly one of 24h, 7d, 30d and 6month, whatever the Date,
    valid or not; for those four it throws on an invalid Date. *)
Theorem getDateRange_edges (period : string) (currentDate : Date) :
  (~ In period ["24h"; "7d"; "30d"; "6month"] ->
   getDateRange period currentDate = Normal None)
  /\ (In period ["24h"; "7d"; "30d"; "6month"] -> currentDate = None ->
      getDateRange period currentDate = Throw).
Proof.
  split.
  - intros Hout. cbn [In] in Hout. unfold getDateRange.
    repeat match goal with
           | |- context [String.eqb period ?p] =>
               destruct (String.eqb_spec period p) as [E|_];
               [first [ exfalso; apply Hout; rewrite E; tauto | reflexivity ]|]
           end.
    reflexivity.
  - intros Hin ->. cbn [In] in Hin.
    destruct Hin as [<-|[<-|[<-|[<-|[]]]]]; reflexivity.
Qed.

(** X17. For a clock inside the Date range the four windows all end at the
    clock and are nested, the longer period starting earlier: the start of
    [6month] is before that of [30d], before that of [7d], before that of
    [24h], before the clock.  The window of [7d] holds at least 7 and less
    than 8 days, that of [30d] at least 30 and less than 31, that of
    [6month] at least 181 and less than 185. *)
Theorem windows_nested (now : Z) :
  clock_in_range now ->
  exists s24 s7 s30 s6,
    getDateRange "24h" (Some now)
    = Normal (Some {| startISO := isoString s24; endISO := isoString now |})
    /\ getDateRange "7d" (Some now)
       = Normal (Some {| startISO := isoString s7; endISO := isoString now |})
    /\ getDateRange "30d" (Some now)
       = Normal (Some {| startISO := isoString s30; endISO := isoString now |})
    /\ getDateRange "6month" (Some now)
       = Normal (Some {| startISO := isoString s6; endISO := isoString now |})
    /\ s6 < s30 < s7 /\ s7 < s24 < now
    /\ 7 * msPerDay <= now - s7 < 8 * msPerDay
    /\ 30 * msPerDay <= now - s30 < 31 * msPerDay
    /\ 181 * msPerDay <= now - s6 < 185 * msPerDay.
Proof.
  intros Hnow. unfold clock_in_range in Hnow.
  destruct (getDateRange_branches (Some now)) as (E24 & E7 & E30 & E6 & _).
  exists (now - 24 * msPerHour), (msPerDay * (Day now - 7)), (msPerDay * (Day now - 30)),
    (msPerDay * MakeDay (YearFromTime now) (MonthFromTime now - 6) (DateFromTime now)).
  split; [rewrite E24, setHours_back_24 by (unfold msPerHour, msPerDay in *; lia);
          reflexivity|].
  split; [rewrite E7, setDate_back_snapped by lia; reflexivity|].
  split; [rewrite E30, setDate_back_snapped by lia; reflexivity|].
  split; [rewrite E6, setMonth_back_snapped by exact Hnow; reflexivity|].
  pose proof (six_months_distance now) as Hsix.
  pose proof (Day_TimeWithinDay now) as [Hd Hw].
  set (day6 := MakeDay (YearFromTime now) (MonthFromTime now - 6) (DateFromTime now)) in *.
  clearbody day6. set (day := Day now) in *. set (w := TimeWithinDay now) in *.
  clearbody day w. unfold msPerHour, msPerDay in *. lia.
Qed.

(** X18. Setting a field of a valid Date to the value just read from it
    leaves the Date as it is: [setDate(getDate())], [setMonth(getMonth())]
    and [setHours(getHours())] are the identity. *)
Theorem date_setters_read_back (t : Z) :
  - maxTime <= t <= maxTime ->
  setDate (Some t) (getDate (Some t)) = Some t
  /\ setMonth (Some t) (getMonth (Some t)) = Some t
  /\ setHours (Some t) (getHours (Some t)) = Some t.
Proof.
  intros Ht.
  pose proof (Day_TimeWithinDay t) as [Hd _].
  unfold setDate, setMonth, setHours, getDate, getMonth, getHours, option_map.
  rewrite (proj1 (local_is_UTC t)), !(proj2 (local_is_UTC _)).
  rewrite <- Day_from_fields, TimeWithinDay_fields.
  replace (MakeDate (Day t) (TimeWithinDay t)) with t by (unfold MakeDate; lia).
  rewrite TimeClip_valid by exact Ht. auto.
Qed.

End Windows.

(* ------------------------------------------------------------------ *)
(** * The throttle is per identifier                                   *)
(* ------------------------------------------------------------------ *)

Lemma serve_ping_pings (tick : Z) (env : Env) (method : string) (ip : option string)
    (now stamp : Z) (d : db) :
  exists rows,
    ip_pings (serve tick env (Ping method ip now stamp) d) = (ip_pings d ++ rows)%list
    /\ forall r, In r rows ->
         exists a, ip = Some a /\ ip_hmac r = generateDoubleHash a (IP_HASH_PEPPER env).
Proof.
  cbn [serve]. unfold handle_api_ping.
  destruct (negb (String.eqb method "POST"));
    [exists []; rewrite app_nil_r; split; [reflexivity | intros ? []]|].
  destruct ip as [[|c a]|]; cbn [JS.whenTruthy JS.truthy];
    [exists []; rewrite app_nil_r; split; [reflexivity | intros ? []] |
     | exists []; rewrite app_nil_r; split; [reflexivity | intros ? []]].
  unfold JS.whenTruthy. cbn [JS.truthy].
  unfold bind at 1. rewrite upsertIp_run. unfold bind at 1, selectLastPing.
  destruct (shouldRecordPing _ now).
  - eexists [_]. cbn [bind insertPing snd ret ip_pings]. rewrite insertRegistry_pings.
    split; [reflexivity|]. intros r [<-|[]]. eexists. split; reflexivity.
  - exists []. cbn [ret snd]. rewrite insertRegistry_pings, app_nil_r.
    split; [reflexivity | intros ? []].
Qed.

(** X19. The throttle is per identifier: a ping request served for another
    identifier, whatever it does, does not change how the next request of
    this identifier is answered. *)
Theorem throttle_is_per_identifier (tick : Z) (env : Env) (method method' : string)
    (ip other : string) (now now' stamp stamp' : Z) (d : db) :
  generateDoubleHash ip (IP_HASH_PEPPER env) <> generateDoubleHash other (IP_HASH_PEPPER env) ->
  fst (handle_api_ping tick env method (Some ip) now stamp
         (serve tick env (Ping method' (Some other) now' stamp') d))
  = fst (handle_api_ping tick env method (Some ip) now stamp d).
Proof.
  intros Hne.
  destruct (serve_ping_pings tick env method' (Some other) now' stamp' d)
    as (rows & Hrows & Hids).
  set (d' := serve tick env (Ping method' (Some other) now' stamp') d) in *. clearbody d'.
  assert (Hnone : pingsOf (generateDoubleHash ip (IP_HASH_PEPPER env)) rows = []).
  { destruct (pingsOf _ rows) as [|r rest] eqn:E; [reflexivity|]. exfalso.
    assert (Hr : In r (pingsOf (generateDoubleHash ip (IP_HASH_PEPPER env)) rows))
      by (rewrite E; now left).
    apply pingsOf_In in Hr. destruct Hr as [Hr Hid].
    destruct (Hids r Hr) as (a & [= <-] & Hid'). congruence. }
  destruct (String.eqb_spec method "POST") as [->|Hm].
  - destruct ip as [|c a]; [reflexivity|].
    rewrite !handle_api_ping_run by discriminate. cbv zeta.
    rewrite Hrows, pingsOf_app, Hnone, app_nil_r.
    destruct (shouldRecordPing _ now); reflexivity.
  - unfold handle_api_ping. apply String.eqb_neq in Hm. rewrite Hm. reflexivity.
Qed.

(* ------------------------------------------------------------------ *)
(** * Hex text                                                         *)
(* ------------------------------------------------------------------ *)

Lemma hex_byte_decodes (b : byte) (rest : string) :
  hex_decode (JS.padStart (JS.toString16 (Byte.to_N b)) 2 "0" ++ rest)
  = match hex_decode rest with
    | Some bs => Some (b :: bs)
    | None => None
    end.
Proof.
  assert (Hpair : forall high low,
            hex_decode (String high (String low rest))
            = match hexDigitValue high, hexDigitValue low, hex_decode rest with
              | Some a, Some c, Some bs => Some (Crypto.Zbyte (16 * a + c) :: bs)
              | _, _, _ => None
              end) by reflexivity.
  destruct b;
    match goal with
    | |- hex_decode (?text ++ rest) = _ =>
        let t := eval vm_compute in text in change text with t
    end;
    cbn [append]; rewrite Hpair; destruct (hex_decode rest); vm_compute; reflexivity.
Qed.

Lemma hexOfBytes_decodes (bs : list byte) : hex_decode (hexOfBytes bs) = Some bs.
Proof.
  induction bs as [|b bs IH]; [reflexivity|].
  now rewrite hexOfBytes_cons, hex_byte_decodes, IH.
Qed.

(** X20. The hex text of the hashers reads back: decoding the text printed
    for a byte string gives the byte string, so two byte strings with the
    same text are equal; in particular the text of [generate256Hash] decodes
    to the 32 bytes of the SHA-256 digest. *)
Theorem hex_text_reads_back (bs bs' : list byte) (message : string) :
  hex_decode (hexOfBytes bs) = Some bs
  /\ (hexOfBytes bs = hexOfBytes bs' -> bs = bs')
  /\ hex_decode (generate256Hash message)
     = Some (Crypto.SHA256 (JS.TextEncoder_encode message))
  /\ List.length (Crypto.SHA256 (JS.TextEncoder_encode message)) = 32%nat.
Proof.
  split; [apply hexOfBytes_decodes|]. split; [|split].
  - intros E. pose proof (hexOfBytes_decodes bs) as H. rewrite E, hexOfBytes_decodes in H.
    now injection H.
  - apply hexOfBytes_decodes.
  - reflexivity.
Qed.

(* ------------------------------------------------------------------ *)
(** * The earlier revisions                                            *)
(* ------------------------------------------------------------------ *)

Lemma Revision2_shouldRecordPing_Some (r : PingRow) (now : Z) :
  Revision2.shouldRecordPing (Some r) now
  = (durationToMs 1 hours <=? now - ping_timestamp r).
Proof.
  unfold Revision2.shouldRecordPing.
  change (durationToMs 1 hours) with 3600000.
  unfold Qle_bool, Qdiv, Qmult, Qinv, inject_Z; cbn.
  destruct (Z.leb_spec 3600000 ((now - ping_timestamp r) * 1));
    destruct (Z.leb_spec 3600000 (now - ping_timestamp r)); lia.
Qed.

(** X21. The earlier revision that throttles by the hour records a POST with
    an address exactly when the identifier, there the SHA-256 of the
    address, has no stored ping or its last one is at least an hour old
    (the row stamped by the database, at any [stamp]), and otherwise answers
    [success: false] and leaves the log alone.  The current
    throttle accepts whatever that one accepted, and also the pings between
    thirty minutes and an hour after the last one. *)
Theorem revision2_throttles_by_the_hour (tick : Z) (ip : string) (now stamp : Z) (d : db) :
  ip <> "" ->
  let id := generate256Hash ip in
  let out := Revision2.handle_api_ping tick "POST" (Some ip) now stamp d in
  let last := latest (pingsOf id (ip_pings d)) in
  (Revision2.shouldRecordPing last now = true -> recorded tick stamp id d out)
  /\ (Revision2.shouldRecordPing last now = false ->
      body (fst out) = PingResponse false "Ping not recorded - less than 1 hour since last ping"
      /\ ip_pings (snd out) = ip_pings d)
  /\ (forall r, last = Some r ->
      Revision2.shouldRecordPing last now = (durationToMs 1 hours <=? now - ping_timestamp r))
  /\ (Revision2.shouldRecordPing last now = true -> shouldRecordPing last now = true)
  /\ (forall r, last = Some r ->
      MIN_INTERVAL <= now - ping_timestamp r < durationToMs 1 hours ->
      shouldRecordPing last now = true /\ Revision2.shouldRecordPing last now = false).
Proof.
  intros Hip id out last.
  assert (Hrun : out
                 = if Revision2.shouldRecordPing last now
                   then ({| status := 200; body := PingResponse true "Ping recorded successfully";
                            cors := false |},
                         snd (insertPing tick stamp id
                                (snd (insertRegistryOnConflictDoNothing id d))))
                   else ({| status := 200;
                            body := PingResponse false
                                      "Ping not recorded - less than 1 hour since last ping";
                            cors := false |},
                         snd (insertRegistryOnConflictDoNothing id d))).
  { unfold out, Revision2.handle_api_ping.
    change (negb (String.eqb "POST" "POST")) with false. cbv iota.
    rewrite (whenTruthy_Some ip Hip). cbv zeta. fold id.
    unfold bind at 1. unfold insertRegistryOnConflictDoNothing at 1.
    unfold last.
    destruct (existsb (String.eqb id) (ip_registry d)) eqn:E;
      unfold bind at 1, selectLastPing; cbn [ip_pings];
      unfold insertRegistryOnConflictDoNothing; rewrite E;
      destruct (Revision2.shouldRecordPing _ now); reflexivity. }
  split; [|split; [|split; [|split]]].
  - intros E. rewrite Hrun, E. split; [reflexivity|].
    cbn [snd insertPing ip_pings]. now rewrite insertRegistry_pings.
  - intros E. rewrite Hrun, E. split; [reflexivity|]. apply insertRegistry_pings.
  - intros r ->. apply Revision2_shouldRecordPing_Some.
  - destruct last as [r|]; [|reflexivity].
    rewrite Revision2_shouldRecordPing_Some, shouldRecordPing_Some, !Z.leb_le.
    rewrite MIN_INTERVAL_value. change (durationToMs 1 hours) with 3600000. lia.
  - intros r -> Hbetween.
    rewrite Revision2_shouldRecordPing_Some, shouldRecordPing_Some.
    split; [apply Z.leb_le | apply Z.leb_gt]; lia.
Qed.







(** X25. The units of [durationToMs] agree with each other for every
    integer value whose durations are integers that a number holds exactly
    (the product with the milliseconds of a week is at most
    [MAX_SAFE_INTEGER]): a minute is sixty seconds, an hour sixty minutes, a
    day twenty-four hours and a week seven days; durations add up; and the
    interval of the throttle is half of the hour of the earlier revision. *)
Theorem durationToMs_units (a b : Z) (unit : DurationUnit) :
  (Z.abs a + Z.abs b) * durationToMs 1 weeks <= MAX_SAFE_INTEGER ->
  durationToMs a minutes = durationToMs (60 * a) seconds
  /\ durationToMs a hours = durationToMs (60 * a) minutes
  /\ durationToMs a days = durationToMs (24 * a) hours
  /\ durationToMs a weeks = durationToMs (7 * a) days
  /\ durationToMs (a + b) unit = durationToMs a unit + durationToMs b unit
  /\ Z.abs (durationToMs (a + b) unit) <= MAX_SAFE_INTEGER
  /\ (0 < a -> 1000 * a <= durationToMs a unit)
  /\ 2 * MIN_INTERVAL = durationToMs 1 hours.
Proof.
  unfold MIN_INTERVAL, durationToMs, multipliers, MAX_SAFE_INTEGER.
  intros Hexact. change (2 ^ 53 - 1) with 9007199254740991 in *.
  repeat split; try lia; destruct unit; lia.
Qed.

(* ------------------------------------------------------------------ *)
(** * Instances of the further properties                              *)
(* ------------------------------------------------------------------ *)

Lemma sample_visitors_reachable : reachable 1000 sample_env sample_visitors.
Proof. unfold sample_visitors. do 2 apply reachable_serve. apply sample_db3_reachable. Qed.

Lemma sample_visitors_served : served_in_turn 1000 sample_env sample_visitors.
Proof.
  unfold sample_visitors.
  do 2 (apply served_next; [|cbn [in_step]; lia]). apply sample_db3_served.
Qed.

Lemma sample_ids_differ :
  generateDoubleHash sample_ip (IP_HASH_PEPPER sample_env)
  <> generateDoubleHash sample_other (IP_HASH_PEPPER sample_env).
Proof. apply String.eqb_neq. vm_compute. reflexivity. Qed.

Lemma sample_row_listed :
  In sample_row
    (responseData (fst (handle_api_pings_unique_activity "GET" None None None None
                          sample_visitors))).
Proof. vm_compute. right. left. reflexivity. Qed.

Lemma sample_now_in_range : clock_in_range sample_now.
Proof. vm_compute. split; discriminate. Qed.

Lemma api_pings_latest_first_witness :
  (exists rows,
      fst (handle_api_pings "GET" sample_visitors)
      = {| reply_status := 200; payload := PingsResponse rows; reply_cors := true |}
      /\ Permutation rows (ip_pings sample_visitors)
      /\ StronglySorted (fun a b => ping_timestamp b <= ping_timestamp a) rows)
  /\ fst (handle_api_pings "POST" sample_visitors) = reply methodNotAllowed.
Proof.
  split.
  - exact (proj1 (proj2 (api_pings_latest_first "GET" sample_visitors)) eq_refl).
  - apply (proj2 (proj2 (api_pings_latest_first "POST" sample_visitors))). discriminate.
Defined.

Lemma registry_covers_pinging_visitors_witness :
  NoDup (ip_registry sample_visitors)
  /\ (forall r, In r (ip_pings sample_visitors) -> In (ip_hmac r) (ip_registry sample_visitors))
  /\ exists total unique most,
       handle_api_stats sample_visitors
       = ({| reply_status := 200; payload := StatsResponse total; reply_cors := false |},
          sample_visitors)
       /\ fst (handle_api_stats_summary "GET" sample_visitors)
          = {| reply_status := 200;
               payload := SummaryStatsResponse
                            (Z.of_nat (List.length (ip_pings sample_visitors))) unique most;
               reply_cors := true |}
       /\ unique <= total.
Proof.
  exact (registry_covers_pinging_visitors 1000 sample_env sample_visitors
           sample_visitors_reachable).
Defined.

Lemma activity_row_aggregates_witness :
  total_pings sample_row = pingsCount sample_id sample_visitors
  /\ 1 <= total_pings sample_row
  /\ In (first_seen sample_row) (timestampsOf sample_id sample_visitors)
  /\ In (last_seen sample_row) (timestampsOf sample_id sample_visitors)
  /\ (forall t, In t (timestampsOf sample_id sample_visitors) ->
      first_seen sample_row <= t <= last_seen sample_row).
Proof.
  exact (activity_row_aggregates None None None None sample_visitors sample_row
           sample_row_listed).
Defined.

Lemma activity_rows_respect_throttle_witness :
  (total_pings sample_row - 1) * MIN_INTERVAL <= last_seen sample_row - first_seen sample_row.
Proof.
  assert (Htick : 0 < 1000) by lia.
  assert (Hdiv : (1000 | MIN_INTERVAL)) by (exists 1800; reflexivity).
  exact (activity_rows_respect_throttle 1000 sample_env sample_visitors None None None None
           sample_row Htick Hdiv sample_visitors_served sample_row_listed).
Defined.

Lemma activity_rows_ordered_witness :
  StronglySorted (fun a b => first_seen a <= first_seen b)
    (responseData (fst (handle_api_pings_unique_activity "GET" None None None (Some "asc")
                          sample_visitors)))
  /\ StronglySorted (fun a b => total_pings b <= total_pings a)
       (responseData (fst (handle_api_pings_unique_activity "GET" None None
                             (Some "total_pings") (Some "down") sample_visitors))).
Proof.
  pose proof (activity_rows_ordered None None None (Some "asc") sample_visitors) as Hasc.
  pose proof (activity_rows_ordered None None (Some "total_pings") (Some "down")
                sample_visitors) as Hdesc.
  cbv zeta in Hasc, Hdesc.
  split.
  - apply (proj1 Hasc). reflexivity.
  - apply (proj2 Hdesc). discriminate.
Defined.

Lemma parseInt_reads_decimal_witness :
  JS.parseInt (ESDate.digits 2 7) = Some 7
  /\ JS.parseInt ("-" ++ ESDate.digits 2 7) = Some (- 7)
  /\ resolvePage (Some (ESDate.digits 2 7)) = 7
  /\ resolvePageSize (Some (ESDate.digits 2 7)) = 7
  /\ resolvePage (Some ("-" ++ ESDate.digits 2 7)) = 1
  /\ resolvePageSize (Some ("-" ++ ESDate.digits 2 7)) = 10.
Proof.
  assert (H : 0 <= 7 <= MAX_SAFE_INTEGER) by (vm_compute; split; discriminate).
  pose proof (parseInt_reads_decimal 2 7 H) as Hread. cbv zeta in Hread.
  destruct Hread as (Hpos & Hneg & Hpage & Hsize & Hminus).
  split; [exact Hpos|]. split; [exact Hneg|]. split; [exact Hpage|]. split; [exact Hsize|].
  apply Hminus. reflexivity.
Defined.

Lemma page_sizes_witness :
  Z.of_nat (List.length
              (responseData
                 (fst (handle_api_pings_unique_activity "GET" (Some "1") (Some "1") None None
                         sample_visitors)))) = 1
  /\ 1 <= Z.of_nat (List.length
                      (responseData
                         (fst (handle_api_pings_unique_activity "GET" (Some "2") (Some "1")
                                 None None sample_visitors)))).
Proof.
  pose proof (page_sizes (Some "1") (Some "1") None None sample_visitors) as Hfirst.
  pose proof (page_sizes (Some "2") (Some "1") None None sample_visitors) as Hlast.
  cbv zeta in Hfirst, Hlast.
  destruct Hfirst as (_ & _ & Hfull & _). destruct Hlast as (_ & _ & _ & Hsome).
  split.
  - apply Hfull. vm_compute. reflexivity.
  - apply Hsome. vm_compute. reflexivity.
Defined.

Lemma ping_turned_away_witness :
  handle_api_ping 1000 sample_env "GET" (Some sample_ip) 5000 5000 sample_db
  = ({| status := 405; body := Text "Method Not Allowed"; cors := false |}, sample_db)
  /\ handle_api_ping 1000 sample_env "POST" (Some "") 5000 5000 sample_db
     = ({| status := 400;
           body := PingResponse false "IP address not found in request";
           cors := false |}, sample_db).
Proof.
  split.
  - apply (proj1 (ping_turned_away 1000 sample_env "GET" (Some sample_ip) 5000 5000
                    sample_db)).
    discriminate.
  - apply (proj2 (ping_turned_away 1000 sample_env "POST" (Some "") 5000 5000 sample_db));
      [reflexivity | right; reflexivity].
Defined.

Lemma only_two_routes_write_witness :
  let request := sample_request "GET" "/makefile" (Some sample_ip) in
  snd (fetch 1000 sample_all [] sample_release request sample_env sample_now sample_now
         empty_db)
  <> empty_db
  /\ req_method request <> "OPTIONS"
  /\ JS.truthy (req_ip request) = true
  /\ (req_pathname request = "/makefile"
      \/ (req_pathname request = "/api/ping" /\ req_method request = "POST")).
Proof.
  pose proof (only_two_routes_write 1000 sample_all [] sample_release
                (sample_request "GET" "/makefile" (Some sample_ip)) sample_env sample_now
                sample_now empty_db) as H.
  cbv zeta in H |- *. destruct H as [_ H].
  assert (Hchanged : snd (fetch 1000 sample_all [] sample_release
                            (sample_request "GET" "/makefile" (Some sample_ip)) sample_env
                            sample_now sample_now empty_db) <> empty_db).
  { intros E. apply (f_equal ip_registry) in E. vm_compute in E. discriminate E. }
  split; [exact Hchanged | exact (H Hchanged)].
Defined.

Lemma preflight_and_unknown_paths_witness :
  fetch 1000 sample_all [] sample_release
    (sample_request "OPTIONS" "/api/ping" (Some sample_ip)) sample_env sample_now sample_now
    sample_db
  = (Normal {| reply_status := 200; payload := NoBody; reply_cors := true |}, sample_db)
  /\ fetch 1000 sample_all [] sample_release
       (sample_request "GET" "/api/pings/" None) sample_env sample_now sample_now sample_db
     = (Normal {| reply_status := 404; payload := Core (Text "Page not found!");
                  reply_cors := true |}, sample_db).
Proof.
  split.
  - apply (proj1 (preflight_and_unknown_paths 1000 sample_all [] sample_release
                    (sample_request "OPTIONS" "/api/ping" (Some sample_ip)) sample_env
                    sample_now sample_now sample_db)).
    reflexivity.
  - apply (proj2 (preflight_and_unknown_paths 1000 sample_all [] sample_release
                    (sample_request "GET" "/api/pings/" None) sample_env sample_now sample_now
                    sample_db)).
    + discriminate.
    + cbn. intuition discriminate.
Defined.

Lemma fetch_answers_witness :
  match fst (fetch 1000 sample_all [] sample_release
               (sample_request "GET" "/api/pings/grouped" None) sample_env sample_now sample_now
               sample_db) with
  | Normal r =>
      In (reply_status r) [200; 400; 404; 405; 500]
      /\ (reply_status r = 400 ->
          req_pathname (sample_request "GET" "/api/pings/grouped" None) = "/api/ping")
      /\ (reply_status r = 500 ->
          req_pathname (sample_request "GET" "/api/pings/grouped" None) = "/api/pings/grouped"
          \/ req_pathname (sample_request "GET" "/api/pings/grouped" None)
             = "/api/pings/unique-activity")
  | Throw =>
      req_pathname (sample_request "GET" "/api/pings/grouped" None) = "/api/pings/grouped"
      /\ req_method (sample_request "GET" "/api/pings/grouped" None) = "GET"
      /\ ~ clock_in_range sample_now
  end.
Proof.
  apply (fetch_answers 1000 sample_all [] sample_release
           (sample_request "GET" "/api/pings/grouped" None) sample_env sample_now sample_now
           sample_db); discriminate.
Defined.

Lemma parseQueryParam_normalises_witness :
  parseQueryParam (Some "asc") "desc" (Some sortOrderValues) = "asc"
  /\ parseQueryParam (Some "ASC") "desc" (Some sortOrderValues) = "desc"
  /\ parseQueryParam (Some (parseQueryParam (Some "ASC") "desc" (Some sortOrderValues)))
       "desc" (Some sortOrderValues)
     = parseQueryParam (Some "ASC") "desc" (Some sortOrderValues).
Proof.
  split; [reflexivity|]. split; [reflexivity|].
  pose proof (parseQueryParam_normalises (Some "ASC") "desc" (Some sortOrderValues)) as H.
  cbv zeta in H. exact (proj2 H).
Defined.

Lemma getDateRange_edges_witness :
  getDateRange "1y" (Some sample_now) = Normal None
  /\ getDateRange "7d" None = Throw.
Proof.
  split.
  - apply (proj1 (getDateRange_edges "1y" (Some sample_now))).
    cbn. intuition discriminate.
  - apply (proj2 (getDateRange_edges "7d" None)); [cbn; tauto | reflexivity].
Defined.

Lemma windows_nested_witness :
  exists s24 s7 s30 s6,
    getDateRange "24h" (Some sample_now)
    = Normal (Some {| startISO := ESDate.isoString s24; endISO := ESDate.isoString sample_now |})
    /\ getDateRange "7d" (Some sample_now)
       = Normal (Some {| startISO := ESDate.isoString s7; endISO := ESDate.isoString sample_now |})
    /\ getDateRange "30d" (Some sample_now)
       = Normal (Some {| startISO := ESDate.isoString s30; endISO := ESDate.isoString sample_now |})
    /\ getDateRange "6month" (Some sample_now)
       = Normal (Some {| startISO := ESDate.isoString s6; endISO := ESDate.isoString sample_now |})
    /\ s6 < s30 < s7 /\ s7 < s24 < sample_now
    /\ 7 * ESDate.msPerDay <= sample_now - s7 < 8 * ESDate.msPerDay
    /\ 30 * ESDate.msPerDay <= sample_now - s30 < 31 * ESDate.msPerDay
    /\ 181 * ESDate.msPerDay <= sample_now - s6 < 185 * ESDate.msPerDay.
Proof. exact (windows_nested sample_now sample_now_in_range). Defined.

Lemma date_setters_read_back_witness :
  ESDate.setDate (Some sample_now) (ESDate.getDate (Some sample_now)) = Some sample_now
  /\ ESDate.setMonth (Some sample_now) (ESDate.getMonth (Some sample_now)) = Some sample_now
  /\ ESDate.setHours (Some sample_now) (ESDate.getHours (Some sample_now)) = Some sample_now.
Proof.
  apply (date_setters_read_back sample_now). vm_compute. split; discriminate.
Defined.

Lemma throttle_is_per_identifier_witness :
  fst (handle_api_ping 1000 sample_env "POST" (Some sample_ip) 6000 6100
         (serve 1000 sample_env (Ping "POST" (Some sample_other) 5500 5600) sample_db))
  = fst (handle_api_ping 1000 sample_env "POST" (Some sample_ip) 6000 6100 sample_db).
Proof.
  exact (throttle_is_per_identifier 1000 sample_env "POST" "POST" sample_ip sample_other
           6000 5500 6100 5600 sample_db sample_ids_differ).
Defined.

Lemma revision2_throttles_by_the_hour_witness :
  recorded 1000 5400 (generate256Hash sample_ip) empty_db
    (Revision2.handle_api_ping 1000 "POST" (Some sample_ip) 5000 5400 empty_db)
  /\ shouldRecordPing
       (Some {| ip_hmac := generate256Hash sample_ip; ping_timestamp := 5000 |})
       (5000 + 2400000) = true
  /\ Revision2.shouldRecordPing
       (Some {| ip_hmac := generate256Hash sample_ip; ping_timestamp := 5000 |})
       (5000 + 2400000) = false.
Proof.
  pose proof (revision2_throttles_by_the_hour 1000 sample_ip 5000 5400 empty_db
                sample_ip_not_empty) as Hfirst.
  pose proof (revision2_throttles_by_the_hour 1000 sample_ip (5000 + 2400000) 2405000
                (snd (Revision2.handle_api_ping 1000 "POST" (Some sample_ip) 5000 5400
                        empty_db))
                sample_ip_not_empty) as Hnext.
  cbv zeta in Hfirst, Hnext.
  destruct Hfirst as (Hrecorded & _). destruct Hnext as (_ & _ & _ & _ & Hbetween).
  split; [apply Hrecorded; reflexivity|].
  specialize (Hbetween {| ip_hmac := generate256Hash sample_ip; ping_timestamp := 5000 |}).
  assert (Hlast : latest (pingsOf (generate256Hash sample_ip)
                            (ip_pings (snd (Revision2.handle_api_ping 1000 "POST"
                                              (Some sample_ip) 5000 5400 empty_db))))
                  = Some {| ip_hmac := generate256Hash sample_ip; ping_timestamp := 5000 |})
    by (vm_compute; reflexivity).
  rewrite Hlast in Hbetween. apply Hbetween; [reflexivity|].
  vm_compute. split; [discriminate | reflexivity].
Defined.




Lemma durationToMs_units_witness :
  1000 * 30 <= durationToMs 30 minutes /\ 2 * MIN_INTERVAL = durationToMs 1 hours.
Proof.
  destruct (durationToMs_units 30 0 minutes) as (_ & _ & _ & _ & _ & _ & Hlower & Hhalf);
    [vm_compute; discriminate|].
  split; [apply Hlower; reflexivity | exact Hhalf].
Defined.
